(** * transcribe.py: caption parsing, clock formatting, paragraph grouping
      and document rendering

    A shallow embedding of the pure core of [src/transcribe.py]
    ([_format_time], [format_timestamp], [format_duration],
    [parse_srt_timestamp], [parse_srt], [generate_markdown]) together with
    the Python primitives these functions rely on.

    Conventions of the embedding:
    - a Python [str] is a Rocq [string]; its characters are the code points
      below 256, so that [str.strip], [str.split] and [int] are modelled on
      exactly the characters they can meet there;
    - a Python [int] is a [Z];
    - a Python [float] is a binary64 number, [spec_float] at precision 53
      and maximal exponent 1024, with the operations of
      [Floats.SpecFloat];
    - an exception is a value of [exn]; code that can raise returns a
      [result]. *)

From Stdlib Require Import ZArith QArith List Bool Lia Ascii String.
From Stdlib Require Import Floats.SpecFloat.
From Stdlib Require Import Numbers.DecimalString.
Import ListNotations.

Local Open Scope string_scope.
Local Open Scope list_scope.
Local Open Scope Z_scope.

(** ** Exceptions *)

Inductive exn : Set :=
| ValueError
| IndexError
| OverflowError
| ZeroDivisionError.

Inductive result (A : Type) : Type :=
| Ok (a : A)
| Raise (e : exn).

Arguments Ok {A} a.
Arguments Raise {A} e.

Definition bind {A B : Type} (c : result A) (k : A -> result B) : result B :=
  match c with
  | Ok a => k a
  | Raise e => Raise e
  end.

Notation "x <- c ;; k" := (bind c (fun x => k))
  (at level 61, c at next level, right associativity).

(** ** Python strings *)

Module Str.

Definition code (c : ascii) : N := N_of_ascii c.

(** [str.isspace] on one character: the characters [str.strip] removes. *)
Definition is_space (c : ascii) : bool :=
  let n := code c in
  ((9 <=? n) && (n <=? 13) || (28 <=? n) && (n <=? 31) || (n =? 32)
   || (n =? 133) || (n =? 160))%N.

Definition newline : ascii := ascii_of_N 10.
Definition nl : string := String newline "".

Fixpoint lstrip (s : string) : string :=
  match s with
  | String c s' => if is_space c then lstrip s' else s
  | EmptyString => EmptyString
  end.

Fixpoint rstrip (s : string) : string :=
  match s with
  | String c s' =>
      match rstrip s' with
      | EmptyString => if is_space c then EmptyString else String c EmptyString
      | r => String c r
      end
  | EmptyString => EmptyString
  end.

(** [s.strip()] *)
Definition strip (s : string) : string := lstrip (rstrip s).

Definition cons_head (c : ascii) (l : list string) : list string :=
  match l with
  | h :: t => String c h :: t
  | [] => [String c ""]
  end.

(** [s.split(sep)] for a non-empty [sep]: cut at every occurrence of
    [sep], scanning from the left; [skip] counts the characters of a
    matched separator still to be passed over. *)
Fixpoint split_from (sep : string) (skip : nat) (s : string) : list string :=
  match s with
  | EmptyString => [""]
  | String c s' =>
      match skip with
      | S k => split_from sep k s'
      | O =>
          if prefix sep s
          then "" :: split_from sep (Nat.pred (length sep)) s'
          else cons_head c (split_from sep 0 s')
      end
  end.

Definition split (sep s : string) : list string := split_from sep 0 s.

(** [sep.join(l)] *)
Definition join (sep : string) (l : list string) : string := concat sep l.

(** Every character of the string satisfies [p]. *)
Fixpoint all_chars (p : ascii -> bool) (s : string) : bool :=
  match s with
  | EmptyString => true
  | String c s' => p c && all_chars p s'
  end.

(** Truth value of a string: non-empty. *)
Definition truthy (s : string) : bool :=
  match s with
  | EmptyString => false
  | String _ _ => true
  end.

End Str.

(** ** Python integers from and to strings *)

Module Int.

Import Str.

(** White space that [int(str)] accepts around the literal. *)
Definition is_space (c : ascii) : bool :=
  let n := code c in
  ((9 <=? n) && (n <=? 13) || (n =? 32) || (n =? 133) || (n =? 160))%N.

Definition is_digit (c : ascii) : bool :=
  let n := code c in ((48 <=? n) && (n <=? 57))%N.

Definition digit_val (c : ascii) : Z := Z.of_N (code c) - 48.

Fixpoint skip_space (s : string) : string :=
  match s with
  | String c s' => if is_space c then skip_space s' else s
  | EmptyString => EmptyString
  end.

(** Digits with single underscores between them; returns the value, the
    number of digits and the unread rest, or [None] on a doubled or
    trailing underscore. *)
Fixpoint scan_digits (prev_underscore : bool) (acc : Z) (n : nat) (s : string)
  : option (Z * nat * string) :=
  match s with
  | String c s' =>
      if is_digit c then scan_digits false (10 * acc + digit_val c) (S n) s'
      else if (c =? "_")%char then
        if prev_underscore then None else scan_digits true acc n s'
      else if prev_underscore then None else Some (acc, n, s)
  | EmptyString => if prev_underscore then None else Some (acc, n, s)
  end.

(** Default of [sys.get_int_max_str_digits()] (CPython 3.11 and later):
    a longer literal is a [ValueError]. *)
Definition max_str_digits : nat := 4300.

(** The optional sign in front of the digits. *)
Definition sign_and_rest (s : string) : bool * string :=
  match s with
  | String c r =>
      if (c =? "+")%char then (false, r)
      else if (c =? "-")%char then (true, r)
      else (false, s)
  | EmptyString => (false, s)
  end.

Definition starts_with_underscore (s : string) : bool :=
  match s with
  | String c _ => (c =? "_")%char
  | EmptyString => false
  end.

(** [int(s)] in base 10. *)
Definition of_string (s : string) : result Z :=
  let '(neg, s2) := sign_and_rest (skip_space s) in
  if starts_with_underscore s2 then Raise ValueError
  else
    match scan_digits false 0 O s2 with
    | None => Raise ValueError
    | Some (v, n, rest) =>
        if (n =? 0)%nat then Raise ValueError
        else if truthy (skip_space rest) then Raise ValueError
        else if (max_str_digits <? n)%nat then Raise ValueError
        else Ok (if neg then - v else v)
    end.

(** [str(n)], also what [f"{n}"] gives. *)
Definition to_string (n : Z) : string := NilZero.string_of_int (Z.to_int n).

Fixpoint zeros (k : nat) : string :=
  match k with
  | O => ""
  | S k' => String "0" (zeros k')
  end.

(** [f"{n:02d}"]: the sign, then the digits zero-padded so that the whole
    is at least two characters wide. *)
Definition format_02d (n : Z) : string :=
  let digits := to_string (Z.abs n) in
  if (n <? 0)%Z
  then ("-" ++ zeros (1 - length digits) ++ digits)%string
  else (zeros (2 - length digits) ++ digits)%string.

End Int.

(** ** Python floats *)

Module Float.

Definition prec : Z := 53.
Definition emax : Z := 1024.

Definition float : Set := spec_float.

Definition zero : float := S754_zero false.

Definition is_finite (x : float) : bool :=
  match x with
  | S754_zero _ | S754_finite _ _ _ => true
  | _ => false
  end.

Definition is_infinite (x : float) : bool :=
  match x with
  | S754_infinity _ => true
  | _ => false
  end.

(** The integer [n] as the unrounded pair (mantissa [n], exponent 0). *)
Definition exact (n : Z) : float :=
  match n with
  | Z0 => S754_zero false
  | Zpos p => S754_finite false p 0
  | Zneg p => S754_finite true p 0
  end.

(** [n] rounded to the nearest binary64 number, ties to even. *)
Definition nearest (n : Z) : float := binary_normalize prec emax n 0 false.

(** [float(n)], the conversion applied to the [int] operand of a mixed
    operation. *)
Definition of_int (n : Z) : result float :=
  let x := nearest n in
  if is_infinite x then Raise OverflowError else Ok x.

(** [a / b] on two [int]s: the correctly rounded quotient. *)
Definition truediv (a b : Z) : result float :=
  if b =? 0 then Raise ZeroDivisionError
  else
    let q := SFdiv prec emax (exact a) (exact b) in
    if is_infinite q then Raise OverflowError else Ok q.

Definition add (x y : float) : float := SFadd prec emax x y.
Definition sub (x y : float) : float := SFsub prec emax x y.

(** [x > y] *)
Definition gt (x y : float) : bool := SFltb y x.

(** [n + y] with [n] an [int] and [y] a [float]. *)
Definition int_add (n : Z) (y : float) : result float :=
  x <- of_int n ;; Ok (add x y).

(** [int(x)]: truncation towards zero. *)
Definition to_int (x : float) : result Z :=
  match x with
  | S754_nan => Raise ValueError
  | S754_infinity _ => Raise OverflowError
  | S754_zero _ => Ok 0
  | S754_finite s m e =>
      let a := if 0 <=? e then Zpos m * 2 ^ e else Zpos m / 2 ^ (- e) in
      Ok (if s then - a else a)
  end.

(** [x <= y] *)
Definition le (x y : float) : bool := SFleb x y.

(** The rational number a finite float stands for. *)
Definition value (x : float) : Q :=
  match x with
  | S754_finite s m e =>
      let n := if s then Zneg m else Zpos m in
      if 0 <=? e then inject_Z (n * 2 ^ e)
      else Qmake n (2 ^ Z.to_pos (- e))%positive
  | _ => 0%Q
  end.

End Float.

(** ** The module [transcribe] *)

Import Str.

Definition float : Set := Float.float.

(** [PARAGRAPH_GAP_SECONDS = 1.5], that is 3 * 2^52 * 2^(-53). *)
Definition PARAGRAPH_GAP_SECONDS : float :=
  S754_finite false 6755399441055744 (-52).

(** [total // 3600, (total % 3600) // 60, total % 60] and the two layouts
    of [_format_time]. *)
Definition _format_time (seconds : float) (brackets : bool) : result string :=
  total <- Float.to_int seconds ;;
  let h := total / 3600 in
  let m := (total mod 3600) / 60 in
  let s := total mod 60 in
  let time_str :=
    if h >? 0
    then (Int.to_string h ++ ":" ++ Int.format_02d m ++ ":" ++ Int.format_02d s)%string
    else (Int.to_string m ++ ":" ++ Int.format_02d s)%string in
  Ok (if brackets then ("[" ++ time_str ++ "]")%string else time_str).

Definition format_timestamp (seconds : float) : result string :=
  _format_time seconds true.

Definition format_duration (seconds : float) : result string :=
  _format_time seconds false.

(** Tuple unpacking [a, b = l] and [a, b, c = l]: a [ValueError] unless the
    list has exactly that many items. *)
Definition unpack2 {A : Type} (l : list A) : result (A * A) :=
  match l with
  | [a; b] => Ok (a, b)
  | _ => Raise ValueError
  end.

Definition unpack3 {A : Type} (l : list A) : result (A * A * A) :=
  match l with
  | [a; b; c] => Ok (a, b, c)
  | _ => Raise ValueError
  end.

(** [l[i]] *)
Definition index {A : Type} (l : list A) (i : nat) : result A :=
  match nth_error l i with
  | Some x => Ok x
  | None => Raise IndexError
  end.

Definition parse_srt_timestamp (timestamp : string) : result float :=
  p <- unpack2 (split "," timestamp) ;;
  let '(time_part, ms_part) := p in
  t <- unpack3 (split ":" time_part) ;;
  let '(h, m, s) := t in
  hv <- Int.of_string h ;;
  mv <- Int.of_string m ;;
  sv <- Int.of_string s ;;
  msv <- Int.of_string ms_part ;;
  frac <- Float.truediv msv 1000 ;;
  Float.int_add (hv * 3600 + mv * 60 + sv) frac.

(** A segment is a [dict] read with [get]: each of the three keys may be
    absent. The [int] default [0] of ["start"] is the float zero, which
    behaves like it under [-], [>] and [int()]. *)
Record segment : Set := mk_segment {
  seg_start : option float;
  seg_end : option float;
  seg_text : option string
}.

(** [d.get(key, default)] *)
Definition get {A : Type} (entry : option A) (default : A) : A :=
  match entry with
  | Some v => v
  | None => default
  end.

(** The dict literal built by [parse_srt]. *)
Definition timed_segment (start end_ : float) (text : string) : segment :=
  {| seg_start := Some start; seg_end := Some end_; seg_text := Some text |}.

(** The body of the [try] of [parse_srt]; [None] when the text is empty. *)
Definition try_block (lines : list string) : result (option segment) :=
  timestamp_line <- index lines 1 ;;
  p <- unpack2 (split " --> " timestamp_line) ;;
  let '(start_ts, end_ts) := p in
  start <- parse_srt_timestamp (strip start_ts) ;;
  end_ <- parse_srt_timestamp (strip end_ts) ;;
  let text := strip (join " " (skipn 2 lines)) in
  Ok (if truthy text then Some (timed_segment start end_ text) else None).

(** The [for block in blocks] loop; [except (ValueError, IndexError)]
    resumes with the next block, any other exception leaves the loop. *)
Fixpoint parse_blocks (blocks : list string) (segments : list segment)
  : result (list segment) :=
  match blocks with
  | [] => Ok segments
  | block :: rest =>
      let lines := split nl (strip block) in
      if (3 <=? List.length lines)%nat then
        match try_block lines with
        | Ok (Some seg) => parse_blocks rest (segments ++ [seg])
        | Ok None => parse_blocks rest segments
        | Raise ValueError => parse_blocks rest segments
        | Raise IndexError => parse_blocks rest segments
        | Raise e => Raise e
        end
      else parse_blocks rest segments
  end.

Definition parse_srt (content : string) : result (list segment) :=
  parse_blocks (split (nl ++ nl) (strip content)) [].

(** The two dicts read by [generate_markdown]. *)
Record video_info : Set := mk_video_info {
  vi_title : option string;
  vi_duration : option float
}.

Record transcription : Set := mk_transcription {
  tr_segments : option (list segment)
}.

Definition nonempty {A : Type} (l : list A) : bool :=
  match l with
  | [] => false
  | _ :: _ => true
  end.

(** The timestamped branch: [for segment in segments], appending to
    [lines]. *)
Fixpoint timestamp_loop (segments : list segment) (lines : list string)
  : result (list string) :=
  match segments with
  | [] => Ok lines
  | segment :: rest =>
      let start := get (seg_start segment) Float.zero in
      let text := strip (get (seg_text segment) "") in
      if truthy text then
        timestamp <- format_timestamp start ;;
        timestamp_loop rest
          ((lines ++ [(timestamp ++ " " ++ text)%string]) ++ [""])
      else timestamp_loop rest lines
  end.

(** The state of the paragraph loop. *)
Record para_state : Set := mk_para_state {
  paragraphs : list string;
  current_para : list string;
  last_end : float
}.

(** One iteration of the paragraph loop. [gap] stands for the module
    constant that the loop compares with, [PARAGRAPH_GAP_SECONDS]. *)
Definition para_step (gap : float) (st : para_state) (segment : segment)
  : para_state :=
  let start := get (seg_start segment) Float.zero in
  let end_ := get (seg_end segment) start in
  let text := strip (get (seg_text segment) "") in
  if negb (truthy text) then st
  else
    let st1 :=
      if nonempty (current_para st)
         && Float.gt (Float.sub start (last_end st)) gap
      then {| paragraphs := paragraphs st ++ [join " " (current_para st)];
              current_para := [];
              last_end := last_end st |}
      else st in
    {| paragraphs := paragraphs st1;
       current_para := current_para st1 ++ [text];
       last_end := end_ |}.

(** The paragraph loop and the final flush of [current_para]. *)
Definition group_paragraphs (gap : float) (segments : list segment)
  : list string :=
  let st :=
    fold_left (para_step gap) segments
      {| paragraphs := []; current_para := []; last_end := Float.zero |} in
  if nonempty (current_para st)
  then paragraphs st ++ [join " " (current_para st)]
  else paragraphs st.

(** [for para in paragraphs: lines.append(para); lines.append("")] *)
Fixpoint paragraph_loop (paras : list string) (lines : list string)
  : list string :=
  match paras with
  | [] => lines
  | para :: rest => paragraph_loop rest ((lines ++ [para]) ++ [""])
  end.

(** The lines of the document. [today] stands for
    [datetime.now().strftime('%Y-%m-%d')]. *)
Definition markdown_lines (today : string) (info : video_info)
  (tr : transcription) (url : string) (include_timestamps : bool)
  : result (list string) :=
  let title := get (vi_title info) "Untitled Video" in
  let duration := get (vi_duration info) Float.zero in
  d <- format_duration duration ;;
  let lines :=
    [ ("# Transcript: " ++ title)%string;
      "";
      ("**Source:** " ++ url)%string;
      ("**Duration:** " ++ d)%string;
      ("**Transcribed:** " ++ today)%string;
      "";
      "---";
      "";
      "## Transcript";
      "" ] in
  let segments := get (tr_segments tr) [] in
  if include_timestamps
  then timestamp_loop segments lines
  else Ok (paragraph_loop (group_paragraphs PARAGRAPH_GAP_SECONDS segments) lines).

(** [return "\n".join(lines)] *)
Definition generate_markdown (today : string) (info : video_info)
  (tr : transcription) (url : string) (include_timestamps : bool)
  : result string :=
  lines <- markdown_lines today info tr url include_timestamps ;;
  Ok (join nl lines).

(** ** Clock strings as section 4.2 of the specification words them *)

Definition digit_char (d : Z) : ascii := ascii_of_N (48 + Z.to_N d).

(** Exactly two decimal digits. *)
Definition two_digits (x : Z) : string :=
  String (digit_char (x / 10)) (String (digit_char (x mod 10)) "").

(** ["H:MM:SS"] when the hours are positive, ["M:SS"] otherwise. *)
Definition clock_digits (total : Z) : string :=
  let h := total / 3600 in
  let m := (total mod 3600) / 60 in
  let s := total mod 60 in
  if 0 <? h
  then (Int.to_string h ++ ":" ++ two_digits m ++ ":" ++ two_digits s)%string
  else (Int.to_string m ++ ":" ++ two_digits s)%string.

(** ** The paragraph policy as section 4.3 of the specification words it *)

(** A TimedSegment of the data model: all three fields present. *)
Record TimedSegment : Set := mk_TimedSegment {
  ts_start : float;
  ts_end : float;
  ts_text : string
}.

Definition dict_of (seg : TimedSegment) : segment :=
  timed_segment (ts_start seg) (ts_end seg) (ts_text seg).

(** The policy, with its running [buffer] and its [lastEnd] cursor: a
    segment whose trimmed text is empty is skipped; a gap strictly above
    the threshold closes a non-empty buffer, which is emitted space-joined;
    the segment's text joins the buffer and [lastEnd] moves to the segment's
    end; the buffer left at the end is emitted if it is not empty. *)
Fixpoint segment_policy (gapThresholdSeconds : float) (buffer : list string)
  (lastEnd : float) (segments : list TimedSegment) : list string :=
  match segments with
  | [] => if nonempty buffer then [join " " buffer] else []
  | seg :: rest =>
      if truthy (strip (ts_text seg)) then
        if nonempty buffer
           && Float.gt (Float.sub (ts_start seg) lastEnd) gapThresholdSeconds
        then join " " buffer
               :: segment_policy gapThresholdSeconds [ts_text seg] (ts_end seg) rest
        else segment_policy gapThresholdSeconds (buffer ++ [ts_text seg])
               (ts_end seg) rest
      else segment_policy gapThresholdSeconds buffer lastEnd rest
  end.

Definition reference_segment (gapThresholdSeconds : float)
  (segments : list TimedSegment) : list string :=
  segment_policy gapThresholdSeconds [] Float.zero segments.

(** The text of a TimedSegment is a trimmed string. *)
Definition is_trimmed (seg : TimedSegment) : Prop :=
  strip (ts_text seg) = ts_text seg.

(** The segment with its text trimmed. *)
Definition trimmed (seg : TimedSegment) : TimedSegment :=
  {| ts_start := ts_start seg;
     ts_end := ts_end seg;
     ts_text := strip (ts_text seg) |}.

(** The trimmed texts of the segments whose trimmed text is not empty. *)
Definition kept_texts (segments : list segment) : list string :=
  filter truthy (map (fun seg => strip (get (seg_text seg) "")) segments).

(** The flush after the paragraph loop. *)
Definition flush (st : para_state) : list string :=
  if nonempty (current_para st)
  then paragraphs st ++ [join " " (current_para st)]
  else paragraphs st.

(** ** The document as section 4.4 of the specification words it *)

(** Title heading, metadata block, divider and the heading of the transcript
    section with the blank line after it. *)
Definition document_head (title url duration today : string) : list string :=
  [ ("# Transcript: " ++ title)%string;
    "";
    ("**Source:** " ++ url)%string;
    ("**Duration:** " ++ duration)%string;
    ("**Transcribed:** " ++ today)%string;
    "";
    "---";
    "" ]
  ++ [ "## Transcript"; "" ].

(** The segments whose trimmed text is not empty. *)
Definition kept_segments (segments : list segment) : list segment :=
  filter (fun seg => truthy (strip (get (seg_text seg) ""))) segments.


(** Each line followed by a blank separator line. *)
Definition with_separators (body : list string) : list string :=
  flat_map (fun line => [line; ""]) body.


(** ** Predicates on parsed segments *)

(** Zero, a positive finite number or plus infinity. *)
Definition nonneg_float (x : float) : Prop :=
  match x with
  | S754_zero _ | S754_infinity false | S754_finite false _ _ => True
  | _ => False
  end.

(** [start >= 0] for the segment. *)
Definition start_nonneg (seg : segment) : Prop :=
  Float.le Float.zero (get (seg_start seg) Float.zero) = true.

(** The text of the segment is not empty after trimming. *)
Definition text_nonempty (seg : segment) : Prop :=
  truthy (strip (get (seg_text seg) "")) = true.

(** No minus sign in the string. *)
Definition no_minus (s : string) : bool :=
  all_chars (fun c => negb (c =? "-")%char) s.

(** A caption block whose start timestamp carries a minus sign. *)
Definition signed_block : string :=
  ("1" ++ nl ++ "-01:00:00,000 --> 00:00:01,000" ++ nl ++ "hi")%string.

(** ** Caption blocks with an oversized field *)

Fixpoint nines (n : nat) : string :=
  match n with
  | O => ""
  | S k => String "9" (nines k)
  end.

Definition plain_block : string :=
  ("2" ++ nl ++ "00:00:01,000 --> 00:00:02,000" ++ nl ++ "fine")%string.

(** The millisecond field of the start timestamp has 400 digits. *)
Definition oversized_block : string :=
  ("1" ++ nl ++ "00:00:00," ++ nines 400 ++ " --> 00:00:01,000" ++ nl ++ "hi")%string.

(** The millisecond field of the start timestamp is not a number. *)
Definition non_numeric_block : string :=
  ("1" ++ nl ++ "00:00:00,abc --> 00:00:01,000" ++ nl ++ "hi")%string.

(** ** Well-formed caption blocks *)

(** The four fields of a timestamp [HH:MM:SS,mmm]. *)
Record srt_time : Set := mk_srt_time {
  t_hours : Z;
  t_minutes : Z;
  t_seconds : Z;
  t_millis : Z
}.

(** Two digits for hours, minutes and seconds, three for milliseconds. *)
Definition valid_time (t : srt_time) : Prop :=
  0 <= t_hours t < 100 /\ 0 <= t_minutes t < 100 /\
  0 <= t_seconds t < 100 /\ 0 <= t_millis t < 1000.

Definition three_digits (x : Z) : string :=
  String (digit_char (x / 100)) (two_digits (x mod 100)).

Definition render_time (t : srt_time) : string :=
  (two_digits (t_hours t) ++ ":" ++ two_digits (t_minutes t) ++ ":"
   ++ two_digits (t_seconds t) ++ "," ++ three_digits (t_millis t))%string.

(** [H*3600 + M*60 + S + ms/1000] in Python's arithmetic: the [int] sum
    converted to [float], the correctly rounded quotient of the two [int]s,
    one [float] addition. *)
Definition srt_seconds (t : srt_time) : float :=
  Float.add
    (Float.nearest (t_hours t * 3600 + t_minutes t * 60 + t_seconds t))
    (SFdiv Float.prec Float.emax (Float.exact (t_millis t)) (Float.exact 1000)).

(** A line: no line break inside. *)
Definition is_line (s : string) : bool :=
  all_chars (fun c => negb (c =? newline)%char) s.

(** White space that stays on the line. *)
Definition inline_space (s : string) : bool :=
  all_chars (fun c => is_space c && negb (c =? newline)%char) s.

(** The timing line, with [ws1] and [ws2] as extra white space on the two
    sides of the separator. *)
Definition timing_line (t1 t2 : srt_time) (ws1 ws2 : string) : string :=
  (render_time t1 ++ ws1 ++ " --> " ++ ws2 ++ render_time t2)%string.

(** A block: index line, timing line, text lines. *)
Definition caption_block (idx : string) (t1 t2 : srt_time) (ws1 ws2 : string)
  (text_lines : list string) : string :=
  join nl (idx :: timing_line t1 t2 ws1 ws2 :: text_lines).

(** A text line of a block: a line, and not empty (an empty line would end
    the block). *)
Definition text_line (s : string) : Prop :=
  is_line s = true /\ s <> "".

(** ** Auxiliary notions of the proofs *)

(** [sep] occurs somewhere in [s]. *)
Fixpoint occurs (sep s : string) : bool :=
  match s with
  | EmptyString => false
  | String _ s' => prefix sep s || occurs sep s'
  end.

(** No occurrence of [sep] in [a ++ tail] begins inside [a]. *)
Fixpoint unbroken (sep a tail : string) : bool :=
  match a with
  | EmptyString => true
  | String _ a' => negb (prefix sep (a ++ tail)) && unbroken sep a' tail
  end.

(** Every line break replaced by a space. *)
Fixpoint unbreak (s : string) : string :=
  match s with
  | EmptyString => EmptyString
  | String c s' => String (if (c =? newline)%char then " "%char else c) (unbreak s')
  end.

Definition all_ascii : list ascii := map ascii_of_nat (seq 0 256).

Definition starts_with (c : ascii) (s : string) : bool :=
  match s with
  | String c' _ => (c' =? c)%char
  | EmptyString => false
  end.

(** [test] holds on every integer from [lo] up to [hi - 1], by bisection. *)
Fixpoint all_between (fuel : nat) (test : Z -> bool) (lo hi : Z) : bool :=
  match fuel with
  | O => false
  | S fuel' =>
      if hi - lo <=? 0 then true
      else if hi - lo =? 1 then test lo
      else
        let mid := (lo + hi) / 2 in
        all_between fuel' test lo mid && all_between fuel' test mid hi
  end.

(** The characters of a rendered timestamp. *)
Definition stamp_char (c : ascii) : bool :=
  Int.is_digit c || (c =? ":")%char || (c =? ",")%char.

(** Only white space in the string. *)
Definition blank (s : string) : bool := all_chars is_space s.

(** ** The rest of the module: [is_youtube_url], [sanitize_filename] and
       the output path of [main] *)

(** The four patterns of [is_youtube_url]. Each is a regular expression of
    literal characters only (the dot and the question mark are escaped), so
    that [re.search] looks for the string the pattern spells. *)
Definition patterns : list string :=
  [ "youtube.com/watch?v=";
    "youtu.be/";
    "youtube.com/embed/";
    "youtube.com/v/" ].

(** [any(re.search(p, url) for p in patterns)] *)
Definition is_youtube_url (url : string) : bool :=
  existsb (fun p => occurs p url) patterns.

(** The character class of [sanitize_filename]: the characters
    [<], [>], [:], the double quote, [/], the backslash, [|], [?] and [*]. *)
Definition dangerous (c : ascii) : bool :=
  existsb (fun n => (code c =? n)%N) [60; 62; 58; 34; 47; 92; 124; 63; 42]%N.

(** [re.sub(class, '', s)]: the characters of the class removed. *)
Fixpoint remove_chars (class : ascii -> bool) (s : string) : string :=
  match s with
  | EmptyString => EmptyString
  | String c s' =>
      if class c then remove_chars class s' else String c (remove_chars class s')
  end.

(** [str.lower] on one character of the strings modelled here, the code
    points below 256: the letters [A] to [Z] and the capital letters from
    code 192 to 222, the multiplication sign 215 apart, become their small
    letters. Beyond code 255 [str.lower] leaves the capital letters that
    have no small form as they are, so that the statements on
    [sanitize_filename] speak of the capital letters below 256 only. *)
Definition lower_char (c : ascii) : ascii :=
  let n := code c in
  if ((65 <=? n) && (n <=? 90) || (192 <=? n) && (n <=? 222) && negb (n =? 215))%N
  then ascii_of_N (n + 32)
  else c.

(** The capital letters among the code points below 256: [A] to [Z] and the
    accented capitals from code 192 to 222, the multiplication sign 215
    apart. *)
Definition latin_capital (c : ascii) : bool :=
  let n := code c in
  ((65 <=? n) && (n <=? 90) || (192 <=? n) && (n <=? 222) && negb (n =? 215))%N.

(** [s.lower()] *)
Fixpoint lower (s : string) : string :=
  match s with
  | EmptyString => EmptyString
  | String c s' => String (lower_char c) (lower s')
  end.

(** [re.sub(r'\s+', '-', s)]: every maximal run of white space becomes one
    dash; [in_run] tells that the previous character was white space. *)
Fixpoint dash_runs (in_run : bool) (s : string) : string :=
  match s with
  | EmptyString => EmptyString
  | String c s' =>
      if is_space c
      then if in_run then dash_runs true s' else String "-" (dash_runs true s')
      else String c (dash_runs false s')
  end.

(** [s[:n]] *)
Fixpoint take (n : nat) (s : string) : string :=
  match n, s with
  | S n', String c s' => String c (take n' s')
  | _, _ => EmptyString
  end.

(** [s[n:]] *)
Fixpoint drop (n : nat) (s : string) : string :=
  match n, s with
  | S n', String _ s' => drop n' s'
  | _, _ => s
  end.

Definition sanitize_filename (title : string) (kebab : bool) : string :=
  let safe := strip (remove_chars dangerous title) in
  let safe := if kebab then dash_runs false (lower safe) else safe in
  take 80 safe.

(** The default output name of [main]: [f"{safe_title}{suffix}"]. *)
Definition default_output_name (title : string) (kebab : bool) : string :=
  let safe_title := sanitize_filename title kebab in
  let suffix := if kebab then "-transcript.md" else " Transcript.md" in
  (safe_title ++ suffix)%string.

(** [name.rfind('.')]: the index of the last dot, if there is one. *)
Fixpoint rfind_dot (name : string) : option nat :=
  match name with
  | EmptyString => None
  | String c rest =>
      match rfind_dot rest with
      | Some i => Some (S i)
      | None => if (c =? ".")%char then Some O else None
      end
  end.

(** The index at which [pathlib] cuts a file name into stem and suffix:
    the last dot, unless it is the first or the last character. *)
Definition cut_index (name : string) : option nat :=
  match rfind_dot name with
  | Some i =>
      if ((0 <? i) && (i <? String.length name - 1))%nat then Some i else None
  | None => None
  end.

(** [Path.suffix] and [Path.stem] of a path whose final component is
    [name]. *)
Definition path_suffix (name : string) : string :=
  match cut_index name with
  | Some i => drop i name
  | None => ""
  end.

Definition path_stem (name : string) : string :=
  match cut_index name with
  | Some i => take i name
  | None => name
  end.

(** [f"{base} {n}{ext}"] *)
Definition numbered_name (base ext : string) (n : Z) : string :=
  (base ++ " " ++ Int.to_string n ++ ext)%string.

(** The renaming loop of [main], [while True: ... n += 1], over the names
    of the parent directory: [taken name] tells that the path exists. The
    loop ends on the first free name; [fuel] bounds the iterations. *)
Fixpoint rename_loop (taken : string -> bool) (base ext : string)
  (fuel : nat) (n : Z) : option string :=
  match fuel with
  | O => None
  | S fuel' =>
      let new_name := numbered_name base ext n in
      if negb (taken new_name) then Some new_name
      else rename_loop taken base ext fuel' (n + 1)
  end.

(** ** Measures of a caption text *)

(** The number of line breaks in the string. *)
Fixpoint count_newlines (s : string) : nat :=
  match s with
  | EmptyString => O
  | String c s' =>
      if (c =? newline)%char then S (count_newlines s') else count_newlines s'
  end.

(** The blocks that [parse_srt] iterates over. *)
Definition blocks_of (content : string) : list string :=
  split (nl ++ nl) (strip content).

(** The segment is read off a block of the content: its start and its end
    are what [parse_srt_timestamp] returns on the two trimmed sides of the
    block's second line, [start_ts] being the side before [" --> "], and its
    text is the rest of the block's lines, joined and trimmed. *)
Definition read_from_block (content start_ts : string) (seg : segment) : Prop :=
  exists (block timing end_ts : string) (start end_ : float),
    In block (blocks_of content) /\
    nth_error (split nl (strip block)) 1 = Some timing /\
    split " --> " timing = [start_ts; end_ts] /\
    parse_srt_timestamp (strip start_ts) = Ok start /\
    parse_srt_timestamp (strip end_ts) = Ok end_ /\
    seg = timed_segment start end_
            (strip (join " " (skipn 2 (split nl (strip block))))).

(** ** Whole subtitle files *)

(** A caption of a subtitle file: the index line, the two times of the
    timing line, the text lines. *)
Record caption : Set := mk_caption {
  cap_index : string;
  cap_start : srt_time;
  cap_end : srt_time;
  cap_lines : list string
}.

(** The conditions on a caption: an index line that is not blank, valid
    times, text lines that are not empty and hold some visible text. *)
Definition well_formed (c : caption) : Prop :=
  is_line (cap_index c) = true /\
  truthy (strip (cap_index c)) = true /\
  valid_time (cap_start c) /\
  valid_time (cap_end c) /\
  Forall text_line (cap_lines c) /\
  truthy (strip (join " " (cap_lines c))) = true.

(** The block of a caption, and the segment it stands for. *)
Definition block_of (c : caption) : string :=
  caption_block (cap_index c) (cap_start c) (cap_end c) "" "" (cap_lines c).

Definition segment_of (c : caption) : segment :=
  timed_segment (srt_seconds (cap_start c)) (srt_seconds (cap_end c))
    (strip (join " " (cap_lines c))).

(** The blocks of a file, one blank line between two blocks. *)
Definition srt_file (caps : list caption) : string :=
  join (nl ++ nl) (map block_of caps).

(** The last character is a line break. *)
Fixpoint ends_with_newline (s : string) : bool :=
  match s with
  | EmptyString => false
  | String c s' =>
      match s' with
      | EmptyString => (c =? newline)%char
      | String _ _ => ends_with_newline s'
      end
  end.

(** A piece that a cut at the blank lines leaves whole. *)
Definition sealed (p : string) : Prop :=
  occurs (nl ++ nl) p = false /\ ends_with_newline p = false /\ blank p = false.

(** [f] applied to the last, respectively the first, item of a list. *)
Fixpoint map_last {A : Type} (f : A -> A) (l : list A) : list A :=
  match l with
  | [] => []
  | x :: rest =>
      match rest with
      | [] => [f x]
      | _ :: _ => x :: map_last f rest
      end
  end.

Definition map_head {A : Type} (f : A -> A) (l : list A) : list A :=
  match l with
  | [] => []
  | x :: rest => f x :: rest
  end.

(** The clock string of a time of day: hours only when positive, the
    milliseconds dropped. *)
Definition clock_of (t : srt_time) : string :=
  if 0 <? t_hours t
  then ("[" ++ Int.to_string (t_hours t) ++ ":" ++ two_digits (t_minutes t)
            ++ ":" ++ two_digits (t_seconds t) ++ "]")%string
  else ("[" ++ Int.to_string (t_minutes t) ++ ":"
            ++ two_digits (t_seconds t) ++ "]")%string.

(** The line of a caption in the timestamped transcript. *)
Definition caption_line (c : caption) : string :=
  (clock_of (cap_start c) ++ " " ++ strip (join " " (cap_lines c)))%string.

(** Minutes and seconds of the start time below 60. *)
Definition on_the_clock (c : caption) : Prop :=
  t_minutes (cap_start c) < 60 /\ t_seconds (cap_start c) < 60.

(** A carriage return and a line break. *)
Definition crlf : string := String (ascii_of_N 13) nl.

(** A float in the form that rounding leaves it in, zero or positive and at
    most 1023/1024. *)
Definition below_one (q : Float.float) : bool :=
  match q with
  | S754_zero _ => true
  | S754_finite false m e =>
      (-1074 <=? e) && (e <=? -53) && (Zpos m * 1024 <=? 1023 * 2 ^ (- e))
  | _ => false
  end.

(** The text of a caption as [parse_srt] stores it. *)
Definition caption_text (c : caption) : string :=
  strip (join " " (cap_lines c)).

(** Each caption starts at the time at which the one before it ends. *)
Fixpoint back_to_back (caps : list caption) : Prop :=
  match caps with
  | c :: rest =>
      match rest with
      | d :: _ => cap_start d = cap_end c /\ back_to_back rest
      | [] => True
      end
  | [] => True
  end.

(** ** Files with short lines *)

(** [p] lies somewhere inside [s]. *)
Definition substring (p s : string) : Prop :=
  exists pre post, s = (pre ++ p ++ post)%string.

(** No line of the text is longer than [n] characters. *)
Definition lines_within (n : nat) (s : string) : Prop :=
  Forall (fun line => (String.length line <= n)%nat) (split nl s).

(* ================================================================== *)
(** * Properties *)

(** ** Exceptions *)

Lemma bind_Ok {A B : Type} (c : result A) (k : A -> result B) (b : B) :
  bind c k = Ok b -> exists a, c = Ok a /\ k a = Ok b.
Proof. destruct c as [a | e]; simpl; [eauto | discriminate]. Qed.

Lemma bind_Raise {A B : Type} (c : result A) (k : A -> result B) (e : exn) :
  bind c k = Raise e -> c = Raise e \/ exists a, c = Ok a /\ k a = Raise e.
Proof. destruct c as [a | e']; simpl; [eauto | intros H; inversion H; auto]. Qed.

Lemma unpack2_Ok {A : Type} (l : list A) (a b : A) :
  unpack2 l = Ok (a, b) -> l = [a; b].
Proof.
  destruct l as [| x [| y [| z l]]]; simpl; intros H; inversion H; reflexivity.
Qed.

Lemma unpack3_Ok {A : Type} (l : list A) (a b c : A) :
  unpack3 l = Ok (a, b, c) -> l = [a; b; c].
Proof.
  destruct l as [| x [| y [| z [| w l]]]]; simpl; intros H; inversion H; reflexivity.
Qed.

Tactic Notation "bind_inv" hyp(H) "as" simple_intropattern(a) ident(Ha) :=
  apply bind_Ok in H; destruct H as (a & Ha & H).

(** ** Characters and strings *)

Lemma ascii_forall (P : ascii -> bool) :
  forallb P all_ascii = true -> forall c, P c = true.
Proof.
  intros H c. rewrite forallb_forall in H. apply H.
  unfold all_ascii. rewrite <- (ascii_nat_embedding c).
  apply in_map, in_seq. pose proof (nat_ascii_bounded c). lia.
Qed.

Lemma all_chars_impl (p q : ascii -> bool) (s : string) :
  (forall c, implb (p c) (q c) = true) ->
  all_chars p s = true -> all_chars q s = true.
Proof.
  intros Hpq. induction s as [| c s IH]; [reflexivity |]. cbn [all_chars].
  intros H. apply andb_prop in H as [Hc Hs].
  specialize (Hpq c). rewrite Hc in Hpq. simpl in Hpq. now rewrite Hpq, IH.
Qed.

Lemma all_chars_app (p : ascii -> bool) (a b : string) :
  all_chars p (a ++ b) = all_chars p a && all_chars p b.
Proof.
  induction a as [| c a IH]; [reflexivity |].
  simpl. now rewrite IH, andb_assoc.
Qed.

Lemma append_assoc (a b c : string) :
  ((a ++ b) ++ c = a ++ (b ++ c))%string.
Proof. induction a; simpl; [reflexivity | now rewrite IHa]. Qed.

Lemma append_nil_r (a : string) : (a ++ "")%string = a.
Proof. induction a; simpl; [reflexivity | now rewrite IHa]. Qed.

(** ** White space at the ends of a string *)

Lemma lstrip_idempotent (s : string) : lstrip (lstrip s) = lstrip s.
Proof.
  induction s as [| c s IH]; [reflexivity |]. simpl.
  destruct (is_space c) eqn:E; [exact IH |]. simpl. now rewrite E.
Qed.

Lemma rstrip_lstrip (s : string) : rstrip s = s -> rstrip (lstrip s) = lstrip s.
Proof.
  induction s as [| c s IH]; [reflexivity |]. intros H.
  cbn [lstrip]. destruct (is_space c) eqn:E; [| exact H].
  apply IH. cbn [rstrip] in H. rewrite E in H.
  destruct (rstrip s) as [| c' r]; [discriminate | congruence].
Qed.

Lemma rstrip_idempotent (s : string) : rstrip (rstrip s) = rstrip s.
Proof.
  induction s as [| c s IH]; [reflexivity |]. cbn [rstrip].
  destruct (rstrip s) as [| c' r] eqn:E.
  - destruct (is_space c) eqn:Ec; [reflexivity |]. simpl. now rewrite Ec.
  - cbn [rstrip]. cbn [rstrip] in IH. rewrite IH. reflexivity.
Qed.

Lemma strip_idempotent (s : string) : strip (strip s) = strip s.
Proof.
  unfold strip.
  rewrite (rstrip_lstrip (rstrip s)) by apply rstrip_idempotent.
  apply lstrip_idempotent.
Qed.

Lemma lstrip_blank (s : string) : blank s = true -> lstrip s = "".
Proof.
  unfold blank. induction s as [| c s IH]; [reflexivity |]. cbn [all_chars lstrip].
  intros H. apply andb_prop in H as [Hc Hs]. rewrite Hc. auto.
Qed.

Lemma lstrip_visible (s : string) : blank s = false -> lstrip s <> "".
Proof.
  unfold blank. induction s as [| c s IH]; [discriminate |]. cbn [all_chars lstrip].
  destruct (is_space c); [exact IH | discriminate].
Qed.

Lemma rstrip_blank (s : string) : blank s = true -> rstrip s = "".
Proof.
  unfold blank. induction s as [| c s IH]; [reflexivity |]. cbn [all_chars rstrip].
  intros H. apply andb_prop in H as [Hc Hs]. now rewrite (IH Hs), Hc.
Qed.

Lemma blank_rstrip (s : string) : blank (rstrip s) = blank s.
Proof.
  unfold blank. induction s as [| c s IH]; [reflexivity |]. cbn [rstrip all_chars].
  destruct (rstrip s) as [| c' r] eqn:E.
  - rewrite <- IH. destruct (is_space c) eqn:Ec; simpl; now rewrite ?Ec.
  - cbn [all_chars]. cbn [all_chars] in IH. now rewrite IH.
Qed.

Lemma rstrip_visible (s : string) : blank s = false -> rstrip s <> "".
Proof.
  intros H E. rewrite <- blank_rstrip, E in H. discriminate.
Qed.

Lemma strip_visible (s : string) : truthy (strip s) = true -> blank s = false.
Proof.
  unfold strip. destruct (blank s) eqn:E; [| reflexivity].
  now rewrite (rstrip_blank s E).
Qed.

Lemma lstrip_app (a b : string) :
  lstrip a <> "" -> lstrip (a ++ b) = (lstrip a ++ b)%string.
Proof.
  induction a as [| c a IH]; [intros H; now destruct H |]. cbn [lstrip append].
  destruct (is_space c); [exact IH | reflexivity].
Qed.

Lemma lstrip_blank_app (ws b : string) :
  blank ws = true -> lstrip (ws ++ b) = lstrip b.
Proof.
  unfold blank. induction ws as [| c ws IH]; [reflexivity |]. cbn [all_chars lstrip append].
  intros H. apply andb_prop in H as [Hc Hs]. rewrite Hc. auto.
Qed.

Lemma rstrip_app (a b : string) :
  rstrip b <> "" -> rstrip (a ++ b) = (a ++ rstrip b)%string.
Proof.
  intros Hb. induction a as [| c a IH]; [reflexivity |]. cbn [append rstrip].
  rewrite IH. destruct (a ++ rstrip b)%string eqn:E; [| reflexivity].
  destruct a; [simpl in E; congruence | discriminate].
Qed.

Lemma rstrip_app_blank (a ws : string) :
  blank ws = true -> rstrip (a ++ ws) = rstrip a.
Proof.
  intros Hws. induction a as [| c a IH].
  - now apply rstrip_blank.
  - cbn [append rstrip]. now rewrite IH.
Qed.

Lemma rstrip_no_space (s : string) :
  all_chars (fun c => negb (is_space c)) s = true -> rstrip s = s.
Proof.
  induction s as [| c s IH]; [reflexivity |]. cbn [all_chars rstrip].
  intros H. apply andb_prop in H as [Hc Hs]. apply negb_true_iff in Hc.
  rewrite (IH Hs), Hc. now destruct s.
Qed.

Lemma lstrip_no_space (s : string) :
  all_chars (fun c => negb (is_space c)) s = true -> lstrip s = s.
Proof.
  destruct s as [| c s]; [reflexivity |]. cbn [all_chars lstrip].
  intros H. apply andb_prop in H as [Hc _]. apply negb_true_iff in Hc.
  now rewrite Hc.
Qed.

Lemma rstrip_is_prefix (s : string) : exists t, s = (rstrip s ++ t)%string.
Proof.
  induction s as [| c s [t IH]]; [now exists "" |]. cbn [rstrip].
  destruct (rstrip s) as [| c' r].
  - destruct (is_space c); [now exists (String c s) |].
    exists s. reflexivity.
  - exists t. cbn [append]. now rewrite IH at 1.
Qed.

Lemma all_chars_lstrip (p : ascii -> bool) (s : string) :
  all_chars p s = true -> all_chars p (lstrip s) = true.
Proof.
  induction s as [| c s IH]; [reflexivity |]. intros H. cbn [lstrip].
  destruct (is_space c); [| exact H].
  cbn [all_chars] in H. apply andb_prop in H as [_ H]. auto.
Qed.

(** ** Joining *)

Lemma join_cons_nonempty (sep x : string) (l : list string) :
  l <> [] -> join sep (x :: l) = (x ++ sep ++ join sep l)%string.
Proof. destruct l; [congruence | reflexivity]. Qed.

Lemma join_app (sep : string) (l1 l2 : list string) :
  l1 <> [] -> l2 <> [] ->
  join sep (l1 ++ l2) = (join sep l1 ++ sep ++ join sep l2)%string.
Proof.
  intros H1 H2. induction l1 as [| x l1 IH]; [congruence |].
  destruct l1 as [| y l1].
  - simpl app. now rewrite join_cons_nonempty.
  - change ((x :: y :: l1) ++ l2) with (x :: ((y :: l1) ++ l2)).
    rewrite join_cons_nonempty by discriminate.
    rewrite IH by discriminate.
    rewrite (join_cons_nonempty sep x (y :: l1)) by discriminate.
    now rewrite !append_assoc.
Qed.

(** Replacing a non-empty group by its own join does not change the join. *)
Lemma join_flatten_mid (sep : string) (a c b : list string) :
  c <> [] ->
  join sep (a ++ [join sep c] ++ b) = join sep (a ++ c ++ b).
Proof.
  intros Hc.
  assert (Hbase : join sep ([join sep c] ++ b) = join sep (c ++ b)).
  { destruct b as [| y b].
    - rewrite !app_nil_r. reflexivity.
    - rewrite (join_app sep [join sep c]), (join_app sep c)
        by (assumption || discriminate).
      reflexivity. }
  induction a as [| x a IH]; [exact Hbase |].
  simpl app. rewrite !join_cons_nonempty.
  - simpl app in IH. now rewrite IH.
  - destruct a, c; simpl; congruence.
  - destruct a; simpl; discriminate.
Qed.

Lemma join_cons_head (sep : string) (c : ascii) (l : list string) :
  l <> [] -> join sep (cons_head c l) = String c (join sep l).
Proof.
  destruct l as [| h [| h' t]]; [congruence | reflexivity | reflexivity].
Qed.

(** ** Splitting at a separator *)

Lemma split_from_nonempty (sep : string) (s : string) :
  forall skip, split_from sep skip s <> [].
Proof.
  induction s as [| c s IH]; intros skip; cbn [split_from]; [discriminate |].
  destruct skip; [| apply IH].
  destruct (prefix sep (String c s)); [discriminate |].
  destruct (split_from sep 0 s); discriminate.
Qed.

Lemma split_from_all_chars (p : ascii -> bool) (sep : string) (s : string) :
  forall skip : nat,
    all_chars p s = true ->
    Forall (fun piece => all_chars p piece = true) (split_from sep skip s).
Proof.
  induction s as [| c s IH]; intros skip H.
  - repeat constructor.
  - cbn [all_chars] in H. apply andb_prop in H as [Hc Hs].
    cbn [split_from]. destruct skip as [| k]; [| now apply IH].
    destruct (prefix sep (String c s)).
    + constructor; [reflexivity | now apply IH].
    + specialize (IH O Hs). destruct (split_from sep 0 s) as [| h t]; cbn [cons_head].
      * repeat constructor. simpl. now rewrite Hc.
      * inversion IH; subst. constructor; [| assumption].
        simpl. now rewrite Hc.
Qed.

Lemma prefix_head_neq (c1 c : ascii) (r s : string) :
  (c =? c1)%char = false -> prefix (String c1 r) (String c s) = false.
Proof.
  intros H. simpl. destruct (ascii_dec c1 c) as [-> | _]; [| reflexivity].
  now rewrite Ascii.eqb_refl in H.
Qed.

Lemma prefix_head_eq (c : ascii) (r s : string) :
  prefix (String c r) (String c s) = prefix r s.
Proof. simpl. destruct (ascii_dec c c); [reflexivity | congruence]. Qed.

Lemma prefix_empty (s : string) : prefix "" s = true.
Proof. now destruct s. Qed.

Lemma prefix_app_self (sep b : string) : prefix sep (sep ++ b) = true.
Proof.
  induction sep as [| c sep IH]; [destruct b; reflexivity |].
  cbn [append]. now rewrite prefix_head_eq.
Qed.

Lemma prefix_app (sep a t : string) :
  prefix sep a = true -> prefix sep (a ++ t) = true.
Proof.
  revert a. induction sep as [| c sep IH]; intros a H.
  - now destruct (a ++ t)%string.
  - destruct a as [| x a]; [discriminate |]. cbn [append].
    simpl in *. destruct (ascii_dec c x); [auto | discriminate].
Qed.

Lemma split_from_skip (sep : string) (passed b : string) :
  split_from sep (length passed) (passed ++ b) = split_from sep 0 b.
Proof. induction passed as [| c passed IH]; [reflexivity | exact IH]. Qed.

Lemma split_app (c : ascii) (r a b : string) :
  unbroken (String c r) a (String c r ++ b) = true ->
  split (String c r) (a ++ String c r ++ b) = a :: split (String c r) b.
Proof.
  unfold split. induction a as [| x a IH]; intros H.
  - cbn [append split_from]. rewrite prefix_head_eq, prefix_app_self.
    cbn [length Nat.pred]. now rewrite split_from_skip.
  - cbn [unbroken] in H. apply andb_prop in H as [Hx Ha].
    apply negb_true_iff in Hx.
    change ((String x a ++ String c r ++ b)%string)
      with (String x (a ++ String c r ++ b)) in *.
    cbn [split_from]. rewrite Hx. now rewrite IH.
Qed.

Lemma split_no_occurrence (sep s : string) :
  occurs sep s = false -> split sep s = [s].
Proof.
  unfold split. induction s as [| x s IH]; [reflexivity |].
  cbn [occurs]. intros H. apply orb_false_elim in H as [Hx Hs].
  cbn [split_from]. rewrite Hx, (IH Hs). reflexivity.
Qed.

(** The first character of the separator is absent from [a]. *)
Lemma unbroken_first (c : ascii) (r a tail : string) :
  all_chars (fun x => negb (x =? c)%char) a = true ->
  unbroken (String c r) a tail = true.
Proof.
  induction a as [| x a IH]; [reflexivity |]. cbn [all_chars unbroken].
  intros H. apply andb_prop in H as [Hx Ha]. apply negb_true_iff in Hx.
  cbn [append]. now rewrite (prefix_head_neq _ _ _ _ Hx), IH.
Qed.

(** The second character of the separator is absent from [a] and differs
    from the first. *)
Lemma unbroken_second (c1 c2 : ascii) (r a tail : string) :
  (c1 =? c2)%char = false ->
  all_chars (fun x => negb (x =? c2)%char) a = true ->
  unbroken (String c1 (String c2 r)) a (String c1 tail) = true.
Proof.
  intros Hc. induction a as [| x a IH]; [reflexivity |]. cbn [all_chars unbroken].
  intros H. apply andb_prop in H as [Hx Ha]. rewrite (IH Ha), andb_true_r.
  apply negb_true_iff. cbn [append].
  destruct (x =? c1)%char eqn:E; [| now apply prefix_head_neq].
  apply Ascii.eqb_eq in E. subst x. rewrite prefix_head_eq.
  destruct a as [| y a]; cbn [append].
  - now apply prefix_head_neq.
  - cbn [all_chars] in Ha. apply andb_prop in Ha as [Hy _].
    apply negb_true_iff in Hy. now apply prefix_head_neq.
Qed.

Lemma occurs_without_first (c : ascii) (r s : string) :
  all_chars (fun x => negb (x =? c)%char) s = true ->
  occurs (String c r) s = false.
Proof.
  induction s as [| x s IH]; [reflexivity |]. cbn [all_chars occurs].
  intros H. apply andb_prop in H as [Hx Hs]. apply negb_true_iff in Hx.
  now rewrite (prefix_head_neq _ _ _ _ Hx), IH.
Qed.

Lemma occurs_without_second (c1 c2 : ascii) (r s : string) :
  all_chars (fun x => negb (x =? c2)%char) s = true ->
  occurs (String c1 (String c2 r)) s = false.
Proof.
  induction s as [| x s IH]; [reflexivity |]. cbn [all_chars occurs].
  intros H. apply andb_prop in H as [Hx Hs]. rewrite (IH Hs), orb_false_r.
  destruct (x =? c1)%char eqn:E; [| now apply prefix_head_neq].
  apply Ascii.eqb_eq in E. subst x. rewrite prefix_head_eq.
  destruct s as [| y s]; [reflexivity |].
  cbn [all_chars] in Hs. apply andb_prop in Hs as [Hy _].
  apply negb_true_iff in Hy. now apply prefix_head_neq.
Qed.

Lemma occurs_app (sep a t : string) :
  occurs sep (a ++ t) = false -> occurs sep a = false.
Proof.
  induction a as [| x a IH]; [reflexivity |]. cbn [append occurs].
  intros H. apply orb_false_elim in H as [Hx Ha]. rewrite (IH Ha), orb_false_r.
  destruct (prefix sep (String x a)) eqn:E; [| reflexivity].
  apply (prefix_app _ _ t) in E. cbn [append] in E. congruence.
Qed.

Lemma occurs_rstrip (sep s : string) :
  occurs sep s = false -> occurs sep (rstrip s) = false.
Proof.
  destruct (rstrip_is_prefix s) as [t Ht]. intros H. rewrite Ht in H.
  now apply occurs_app in H.
Qed.

Lemma occurs_lstrip (sep s : string) :
  occurs sep s = false -> occurs sep (lstrip s) = false.
Proof.
  induction s as [| c s IH]; [reflexivity |]. intros H. cbn [lstrip].
  destruct (is_space c); [| exact H].
  cbn [occurs] in H. apply orb_false_elim in H as [_ H]. auto.
Qed.

(** ** Line breaks *)

Lemma prefix_nl (c : ascii) (s : string) :
  prefix nl (String c s) = (c =? newline)%char.
Proof.
  unfold nl. destruct (c =? newline)%char eqn:E.
  - apply Ascii.eqb_eq in E. subst c. rewrite prefix_head_eq. apply prefix_empty.
  - now apply prefix_head_neq.
Qed.

(** Joining the lines of [s] with spaces replaces its line breaks by
    spaces. *)
Lemma join_split_unbreak (s : string) : join " " (split nl s) = unbreak s.
Proof.
  unfold split. induction s as [| c s IH]; [reflexivity |].
  cbn [split_from unbreak]. rewrite prefix_nl.
  destruct (c =? newline)%char.
  - cbn [length Nat.pred nl].
    rewrite join_cons_nonempty by apply split_from_nonempty.
    cbn [append]. now rewrite IH.
  - rewrite join_cons_head by apply split_from_nonempty. now rewrite IH.
Qed.

Lemma is_space_unbreak (c : ascii) :
  is_space (if (c =? newline)%char then " "%char else c) = is_space c.
Proof.
  destruct (c =? newline)%char eqn:E; [| reflexivity].
  apply Ascii.eqb_eq in E. now subst c.
Qed.

Lemma rstrip_unbreak (s : string) : rstrip (unbreak s) = unbreak (rstrip s).
Proof.
  induction s as [| c s IH]; [reflexivity |]. cbn [unbreak rstrip].
  rewrite IH, is_space_unbreak.
  destruct (rstrip s) as [| c' r]; cbn [unbreak]; [| reflexivity].
  now destruct (is_space c).
Qed.

Lemma blank_unbreak (s : string) : blank (unbreak s) = blank s.
Proof.
  unfold blank. induction s as [| c s IH]; [reflexivity |]. cbn [unbreak all_chars].
  now rewrite IH, is_space_unbreak.
Qed.

Lemma unbreak_app (a b : string) :
  unbreak (a ++ b) = (unbreak a ++ unbreak b)%string.
Proof. induction a as [| c a IH]; [reflexivity |]. cbn [append unbreak]. now rewrite IH. Qed.

Lemma unbreak_line (l : string) : is_line l = true -> unbreak l = l.
Proof.
  unfold is_line. induction l as [| c l IH]; [reflexivity |]. cbn [all_chars unbreak].
  intros H. apply andb_prop in H as [Hc Hl]. apply negb_true_iff in Hc.
  now rewrite Hc, IH.
Qed.

Lemma unbreak_join (ls : list string) :
  Forall (fun l => is_line l = true) ls -> unbreak (join nl ls) = join " " ls.
Proof.
  induction ls as [| l ls IH]; [reflexivity |]. intros H.
  inversion H as [| ? ? Hl Hls]; subst.
  destruct ls as [| l' ls]; [now apply unbreak_line |].
  rewrite !join_cons_nonempty by discriminate.
  rewrite !unbreak_app, (unbreak_line l Hl), (IH Hls). reflexivity.
Qed.

Lemma occurs_after_line (l rest : string) :
  is_line l = true ->
  starts_with newline rest = false ->
  occurs (nl ++ nl) rest = false ->
  occurs (nl ++ nl) (l ++ nl ++ rest) = false.
Proof.
  unfold is_line. intros Hl Hstart Hrest.
  induction l as [| c l IH].
  - change (("" ++ nl ++ rest)%string) with (String newline rest).
    cbn [occurs]. rewrite Hrest, orb_false_r.
    change ((nl ++ nl)%string) with (String newline nl).
    rewrite prefix_head_eq.
    destruct rest as [| x rest]; [reflexivity |].
    rewrite prefix_nl. exact Hstart.
  - cbn [all_chars] in Hl. apply andb_prop in Hl as [Hc Hl].
    apply negb_true_iff in Hc.
    change ((String c l ++ nl ++ rest)%string) with (String c (l ++ nl ++ rest)).
    cbn [occurs]. rewrite (IH Hl), orb_false_r.
    now apply prefix_head_neq.
Qed.

Lemma starts_with_join (ls : list string) :
  Forall text_line ls -> starts_with newline (join nl ls) = false.
Proof.
  destruct ls as [| l ls]; [reflexivity |]. intros H.
  inversion H as [| ? ? [Hl Hne] _]; subst.
  destruct l as [| c l]; [congruence |].
  unfold is_line in Hl. cbn [all_chars] in Hl. apply andb_prop in Hl as [Hc _].
  apply negb_true_iff in Hc.
  destruct ls; [exact Hc |].
  rewrite join_cons_nonempty by discriminate. exact Hc.
Qed.

(** Lines that are not empty, joined by line breaks, hold no blank line. *)
Lemma occurs_join_lines (ls : list string) :
  Forall text_line ls -> occurs (nl ++ nl) (join nl ls) = false.
Proof.
  induction ls as [| l ls IH]; [reflexivity |]. intros H.
  inversion H as [| ? ? [Hl Hne] Hls]; subst.
  destruct ls as [| l' ls].
  - apply occurs_without_first. exact Hl.
  - rewrite join_cons_nonempty by discriminate.
    apply occurs_after_line; [exact Hl | now apply starts_with_join | now apply IH].
Qed.

(** ** Integers and their decimal strings *)

Lemma in_Z_range (n : nat) (x : Z) :
  0 <= x < Z.of_nat n -> In x (map Z.of_nat (seq 0 n)).
Proof.
  intros Hx. apply in_map_iff. exists (Z.to_nat x). split.
  - lia.
  - apply in_seq. lia.
Qed.

Lemma all_between_spec (test : Z -> bool) (fuel : nat) :
  forall lo hi,
    all_between fuel test lo hi = true ->
    forall n, lo <= n < hi -> test n = true.
Proof.
  induction fuel as [| fuel IH]; intros lo hi H n Hn; [discriminate |].
  cbn [all_between] in H.
  destruct (hi - lo <=? 0) eqn:E0; [apply Z.leb_le in E0; lia |].
  destruct (hi - lo =? 1) eqn:E1.
  - apply Z.eqb_eq in E1. now replace n with lo by lia.
  - apply andb_prop in H as [Hl Hr].
    destruct (Z_lt_le_dec n ((lo + hi) / 2)).
    + apply (IH _ _ Hl). lia.
    + apply (IH _ _ Hr). lia.
Qed.

Lemma digit_val_nonneg (c : ascii) : Int.is_digit c = true -> 0 <= Int.digit_val c <= 9.
Proof.
  unfold Int.is_digit, Int.digit_val. intros H.
  apply andb_prop in H as [H1 H2].
  apply N.leb_le in H1, H2. lia.
Qed.

Lemma scan_digits_nonneg (s : string) :
  forall prev acc n v n' rest,
    0 <= acc -> Int.scan_digits prev acc n s = Some (v, n', rest) -> 0 <= v.
Proof.
  induction s as [| c s IH]; intros prev acc n v n' rest Hacc H; cbn [Int.scan_digits] in H.
  - destruct prev; [discriminate |]. inversion H; subst. exact Hacc.
  - destruct (Int.is_digit c) eqn:Ed.
    + apply IH in H; [exact H |]. pose proof (digit_val_nonneg c Ed). lia.
    + destruct (c =? "_")%char.
      * destruct prev; [discriminate |]. now apply IH in H.
      * destruct prev; [discriminate |]. inversion H; subst. exact Hacc.
Qed.

Lemma skip_space_all_chars (p : ascii -> bool) (s : string) :
  all_chars p s = true -> all_chars p (Int.skip_space s) = true.
Proof.
  induction s as [| c s IH]; [reflexivity |]. intros H.
  cbn [Int.skip_space]. destruct (Int.is_space c); [| exact H].
  cbn [all_chars] in H. apply andb_prop in H as [_ H]. auto.
Qed.

Lemma of_string_nonneg (s : string) (v : Z) :
  no_minus s = true -> Int.of_string s = Ok v -> 0 <= v.
Proof.
  unfold no_minus, Int.of_string. intros Hs.
  apply skip_space_all_chars in Hs.
  destruct (Int.skip_space s) as [| c r]; cbn [Int.sign_and_rest].
  - simpl. discriminate.
  - cbn [all_chars] in Hs. apply andb_prop in Hs as [Hc _].
    apply negb_true_iff in Hc. rewrite Hc.
    assert (Hgen : forall s2,
               (if Int.starts_with_underscore s2 then Raise ValueError
                else match Int.scan_digits false 0 0 s2 with
                     | Some (v0, n, rest) =>
                         if (n =? 0)%nat then Raise ValueError
                         else if truthy (Int.skip_space rest) then Raise ValueError
                         else if (Int.max_str_digits <? n)%nat then Raise ValueError
                         else Ok v0
                     | None => Raise ValueError
                     end) = Ok v -> 0 <= v).
    { intros s2. destruct (Int.starts_with_underscore s2); [discriminate |].
      destruct (Int.scan_digits false 0 0 s2) as [[[v0 n] rest] |] eqn:E;
        [| discriminate].
      destruct (n =? 0)%nat; [discriminate |].
      destruct (truthy _); [discriminate |].
      destruct (_ <? _)%nat; [discriminate |].
      intros H; inversion H; subst.
      eapply scan_digits_nonneg; [| exact E]. lia. }
    destruct (c =? "+")%char; apply Hgen.
Qed.

Lemma of_string_raises (s : string) (e : exn) :
  Int.of_string s = Raise e -> e = ValueError.
Proof.
  unfold Int.of_string.
  destruct (Int.sign_and_rest (Int.skip_space s)) as [neg s2].
  destruct (Int.starts_with_underscore s2); [congruence |].
  destruct (Int.scan_digits false 0 0 s2) as [[[v n] rest] |]; [| congruence].
  destruct (n =? 0)%nat; [congruence |].
  destruct (truthy _); [congruence |].
  destruct (_ <? _)%nat; congruence.
Qed.

Lemma digit_char_is_digit (d : Z) :
  0 <= d < 10 -> Int.is_digit (digit_char d) = true.
Proof.
  apply (all_between_spec (fun d => Int.is_digit (digit_char d)) 8 0 10).
  vm_compute; reflexivity.
Qed.

Lemma two_digits_digits (x : Z) :
  0 <= x < 100 -> all_chars Int.is_digit (two_digits x) = true.
Proof.
  intros Hx. unfold two_digits. cbn [all_chars].
  rewrite !digit_char_is_digit; [reflexivity | |].
  - apply Z.mod_pos_bound. lia.
  - split; [apply Z.div_pos; lia | apply Z.div_lt_upper_bound; lia].
Qed.

Lemma three_digits_digits (x : Z) :
  0 <= x < 1000 -> all_chars Int.is_digit (three_digits x) = true.
Proof.
  intros Hx. unfold three_digits. cbn [all_chars].
  rewrite digit_char_is_digit, two_digits_digits; [reflexivity | |].
  - apply Z.mod_pos_bound. lia.
  - split; [apply Z.div_pos; lia | apply Z.div_lt_upper_bound; lia].
Qed.

Lemma of_string_two_digits (x : Z) :
  0 <= x < 100 -> Int.of_string (two_digits x) = Ok x.
Proof.
  intros Hx.
  pose proof (all_between_spec
                (fun x => match Int.of_string (two_digits x) with
                          | Ok y => y =? x
                          | Raise _ => false
                          end)
                10 0 100 ltac:(vm_compute; reflexivity) x Hx) as H.
  cbv beta in H. destruct (Int.of_string (two_digits x)); [| discriminate].
  apply Z.eqb_eq in H. now subst.
Qed.

Lemma of_string_three_digits (x : Z) :
  0 <= x < 1000 -> Int.of_string (three_digits x) = Ok x.
Proof.
  intros Hx.
  pose proof (all_between_spec
                (fun x => match Int.of_string (three_digits x) with
                          | Ok y => y =? x
                          | Raise _ => false
                          end)
                12 0 1000 ltac:(vm_compute; reflexivity) x Hx) as H.
  cbv beta in H. destruct (Int.of_string (three_digits x)); [| discriminate].
  apply Z.eqb_eq in H. now subst.
Qed.

Lemma format_02d_two_digits (x : Z) :
  0 <= x < 100 -> Int.format_02d x = two_digits x.
Proof.
  intros Hx.
  assert (Hall : forallb (fun y => (Int.format_02d y =? two_digits y)%string)
                   (map Z.of_nat (seq 0 100)) = true) by (vm_compute; reflexivity).
  rewrite forallb_forall in Hall.
  apply String.eqb_eq, Hall, in_Z_range. lia.
Qed.

(** ** Floats *)

Lemma to_int_truncates (x : float) :
  Float.is_finite x = true -> Float.le Float.zero x = true ->
  exists total, Float.to_int x = Ok total /\ 0 <= total /\
    (inject_Z total <= Float.value x)%Q /\
    (Float.value x < inject_Z total + 1)%Q.
Proof.
  destruct x as [s | s | | s m e]; simpl; try discriminate; intros _ Hle.
  - exists 0. repeat split; try reflexivity; try lia. discriminate.
  - destruct s; [discriminate |].
    destruct (0 <=? e) eqn:He.
    + exists (Zpos m * 2 ^ e). apply Z.leb_le in He.
      repeat split.
      * apply Z.mul_nonneg_nonneg; [lia | apply Z.pow_nonneg; lia].
      * apply Qle_refl.
      * rewrite <- (Qplus_0_r (inject_Z (Zpos m * 2 ^ e))) at 1.
        apply Qplus_lt_r. reflexivity.
    + apply Z.leb_gt in He.
      assert (Hd : Zpos (2 ^ Z.to_pos (- e)) = 2 ^ (- e)).
      { rewrite Pos2Z.inj_pow. f_equal. apply Z2Pos.id. lia. }
      assert (Hpos : 0 < 2 ^ (- e)) by (apply Z.pow_pos_nonneg; lia).
      exists (Zpos m / 2 ^ (- e)). repeat split.
      * apply Z.div_pos; lia.
      * unfold Qle; cbn [Qnum Qden inject_Z]. rewrite Hd.
        pose proof (Z.mul_div_le (Zpos m) (2 ^ (- e)) Hpos). lia.
      * unfold Qlt, Qplus; cbn [Qnum Qden inject_Z Pos.mul]. rewrite Hd.
        pose proof (Z.mul_succ_div_gt (Zpos m) (2 ^ (- e)) Hpos). lia.
Qed.

Lemma gt_irrefl (x : float) : Float.gt x x = false.
Proof.
  unfold Float.gt, SFltb.
  destruct x as [s | s | | s m e]; simpl; try reflexivity; destruct s;
    try reflexivity; rewrite Z.compare_refl, Pos.compare_cont_refl; reflexivity.
Qed.

Lemma nonneg_float_le (x : float) : nonneg_float x -> Float.le Float.zero x = true.
Proof. destruct x as [s | s | | s m e]; try destruct s; simpl; tauto || reflexivity. Qed.

Lemma shr_1_nonneg (mrs : shr_record) : 0 <= shr_m mrs -> 0 <= shr_m (shr_1 mrs).
Proof.
  destruct mrs as [m r s]; simpl. destruct m as [| p | p]; simpl; try lia;
    destruct p; simpl; lia.
Qed.

Lemma iter_shr_1_nonneg (p : positive) :
  forall mrs, 0 <= shr_m mrs -> 0 <= shr_m (iter_pos shr_1 p mrs).
Proof.
  induction p as [p IH | p IH |]; intros mrs H; simpl.
  - apply IH, IH, shr_1_nonneg, H.
  - apply IH, IH, H.
  - apply shr_1_nonneg, H.
Qed.

Lemma shr_fexp_nonneg (m e : Z) (l : location) :
  0 <= m -> 0 <= shr_m (fst (shr_fexp Float.prec Float.emax m e l)).
Proof.
  intros H. unfold shr_fexp, shr.
  assert (H0 : 0 <= shr_m (shr_record_of_loc m l)).
  { destruct l as [| c]; [| destruct c]; exact H. }
  destruct (fexp Float.prec Float.emax (Zdigits2 m + e) - e); simpl;
    auto using iter_shr_1_nonneg.
Qed.

Lemma round_nearest_even_nonneg (m : Z) (l : location) :
  0 <= m -> 0 <= round_nearest_even m l.
Proof.
  intros H. destruct l as [| c]; [| destruct c]; simpl; try lia.
  destruct (Z.even m); lia.
Qed.

Lemma binary_round_aux_nonneg (mx ex : Z) (lx : location) :
  0 <= mx -> nonneg_float (binary_round_aux Float.prec Float.emax false mx ex lx).
Proof.
  intros H. unfold binary_round_aux.
  pose proof (shr_fexp_nonneg mx ex lx H) as H1.
  destruct (shr_fexp Float.prec Float.emax mx ex lx) as [mrs1 e1]. simpl in H1.
  pose proof (shr_fexp_nonneg _ e1 loc_Exact
                (round_nearest_even_nonneg _ (loc_of_shr_record mrs1) H1)) as H2.
  destruct (shr_fexp Float.prec Float.emax
              (round_nearest_even (shr_m mrs1) (loc_of_shr_record mrs1)) e1 loc_Exact)
    as [mrs2 e2]. simpl in H2.
  destruct (shr_m mrs2) as [| m | m]; try exact I; try lia.
  destruct (e2 <=? Float.emax - Float.prec); exact I.
Qed.

Lemma binary_normalize_nonneg (m e : Z) :
  0 <= m -> nonneg_float (binary_normalize Float.prec Float.emax m e false).
Proof.
  intros H. destruct m as [| p | p]; simpl; try exact I; try lia.
  unfold binary_round.
  destruct (shl_align p e _) as [mz ez].
  apply binary_round_aux_nonneg. lia.
Qed.

Lemma of_int_nonneg (n : Z) (x : float) :
  0 <= n -> Float.of_int n = Ok x -> nonneg_float x /\ Float.is_finite x = true.
Proof.
  unfold Float.of_int, Float.nearest. intros Hn.
  pose proof (binary_normalize_nonneg n 0 Hn) as H.
  destruct (binary_normalize Float.prec Float.emax n 0 false) as [s | s | | s m e];
    simpl in *; intros E; inversion E; subst; try tauto; split; tauto || reflexivity.
Qed.

Lemma div_core_nonneg (m1 e1 m2 e2 : Z) :
  0 <= m1 -> 0 < m2 ->
  0 <= fst (fst (SFdiv_core_binary Float.prec Float.emax m1 e1 m2 e2)).
Proof.
  intros H1 H2. unfold SFdiv_core_binary.
  match goal with
  | |- context [Z.div_eucl ?x m2] => set (m' := x)
  end.
  assert (H' : 0 <= m').
  { subst m'. destruct (e1 - e2 - _) eqn:Es; try lia.
    rewrite Z.shiftl_mul_pow2 by lia.
    apply Z.mul_nonneg_nonneg; [lia | apply Z.pow_nonneg; lia]. }
  pose proof (Z.div_pos m' m2 H' H2) as Hq. unfold Z.div in Hq.
  destruct (Z.div_eucl m' m2) as [qq rr]. exact Hq.
Qed.

Lemma truediv_nonneg (a b : Z) (q : float) :
  0 <= a -> 0 < b -> Float.truediv a b = Ok q ->
  nonneg_float q /\ Float.is_finite q = true.
Proof.
  unfold Float.truediv. intros Ha Hb.
  destruct (b =? 0) eqn:Eb; [apply Z.eqb_eq in Eb; lia |].
  assert (H : nonneg_float (SFdiv Float.prec Float.emax (Float.exact a) (Float.exact b))).
  { destruct b as [| pb | pb]; try lia.
    destruct a as [| pa | pa]; try lia; [exact I |].
    unfold Float.exact, SFdiv. cbn [xorb].
    pose proof (div_core_nonneg (Zpos pa) 0 (Zpos pb) 0 Ha Hb) as Hq.
    destruct (SFdiv_core_binary Float.prec Float.emax (Zpos pa) 0 (Zpos pb) 0)
      as [[mz ez] lz].
    apply binary_round_aux_nonneg, Hq. }
  destruct (SFdiv Float.prec Float.emax (Float.exact a) (Float.exact b))
    as [s | s | | s m e]; simpl in *; intros E; inversion E; subst;
    try tauto; split; tauto || reflexivity.
Qed.

Lemma add_nonneg (x y : float) :
  nonneg_float x -> Float.is_finite x = true ->
  nonneg_float y -> Float.is_finite y = true ->
  nonneg_float (Float.add x y).
Proof.
  destruct x as [sx | sx | | sx mx ex]; try discriminate;
    destruct y as [sy | sy | | sy my ey]; try discriminate; simpl;
    intros Hx _ Hy _; try exact I; try assumption.
  - destruct sx, sy; exact I.
  - destruct sx, sy; try tauto.
    unfold Float.add, SFadd. cbn [cond_Zopp].
    apply binary_normalize_nonneg. lia.
Qed.

Lemma digits2_size (p : positive) : digits2_pos p = Pos.size p.
Proof. induction p; simpl; congruence. Qed.

Lemma digits2_shift (p k : positive) :
  digits2_pos (Pos.iter xO p k) = (digits2_pos p + k)%positive.
Proof.
  induction k as [| k IH] using Pos.peano_ind.
  - simpl. lia.
  - rewrite Pos.iter_succ. simpl. rewrite IH. lia.
Qed.

Lemma size_log2 (p : positive) : Zpos (Pos.size p) = Z.log2 (Zpos p) + 1.
Proof. destruct p; simpl; lia. Qed.

Lemma digits2_bound (p : positive) (k : Z) :
  0 < k -> Zpos p < 2 ^ k -> Zpos (digits2_pos p) <= k.
Proof.
  intros Hk H. rewrite digits2_size, size_log2.
  apply Z.log2_lt_pow2 in H; lia.
Qed.

(** A mantissa of full width within the exponent range is left as it is. *)
Lemma round_canonical (mz : positive) (ez : Z) :
  Zpos (digits2_pos mz) = Float.prec -> -1074 <= ez <= 971 ->
  binary_round_aux Float.prec Float.emax false (Zpos mz) ez loc_Exact =
  S754_finite false mz ez.
Proof.
  intros Hd He.
  assert (Hn : fexp Float.prec Float.emax (Zdigits2 (Zpos mz) + ez) - ez = 0).
  { cbn [Zdigits2]. rewrite Hd. unfold fexp, emin, Float.prec, Float.emax. lia. }
  unfold binary_round_aux, shr_fexp. rewrite Hn.
  cbn [shr shr_record_of_loc shr_m loc_of_shr_record round_nearest_even].
  rewrite Hn. cbn [shr shr_m].
  replace (ez <=? Float.emax - Float.prec) with true; [reflexivity |].
  symmetry. apply Z.leb_le. unfold Float.emax, Float.prec. lia.
Qed.

(** Below 2^53 the conversion of an [int] to [float] cannot overflow. *)
Lemma nearest_below_2_53 (p : positive) :
  Zpos p < 2 ^ 53 -> exists m e, Float.nearest (Zpos p) = S754_finite false m e.
Proof.
  intros Hp. pose proof (digits2_bound p 53 ltac:(lia) Hp) as Hd.
  unfold Float.nearest, binary_normalize, binary_round.
  assert (Hf : fexp Float.prec Float.emax (Zpos (digits2_pos p) + 0) =
               Zpos (digits2_pos p) - 53).
  { unfold fexp, emin, Float.prec, Float.emax. lia. }
  rewrite Hf. unfold shl_align.
  destruct (Zpos (digits2_pos p) - 53 - 0) as [| k | k] eqn:E; try lia.
  - rewrite round_canonical; [eauto | unfold Float.prec; lia | lia].
  - rewrite round_canonical; [eauto | | lia].
    rewrite digits2_shift. unfold Float.prec. lia.
Qed.

Lemma of_int_below_2_53 (n : Z) :
  0 <= n < 2 ^ 53 -> Float.of_int n = Ok (Float.nearest n).
Proof.
  intros Hn. unfold Float.of_int.
  destruct n as [| p | p]; [reflexivity | | lia].
  destruct (nearest_below_2_53 p (proj2 Hn)) as (m & e & ->). reflexivity.
Qed.

Lemma truediv_millis (ms : Z) :
  0 <= ms < 1000 ->
  Float.truediv ms 1000 =
  Ok (SFdiv Float.prec Float.emax (Float.exact ms) (Float.exact 1000)).
Proof.
  intros Hms. unfold Float.truediv. cbn [Z.eqb].
  pose proof (all_between_spec
                (fun ms => negb (Float.is_infinite
                   (SFdiv Float.prec Float.emax (Float.exact ms) (Float.exact 1000))))
                12 0 1000 ltac:(vm_compute; reflexivity) ms Hms) as H.
  cbv beta in H. apply negb_true_iff in H. now rewrite H.
Qed.

(** ** Clock formatting *)

Lemma format_time_of_total (x : float) (total : Z) (brackets : bool) :
  Float.to_int x = Ok total ->
  _format_time x brackets =
  Ok (if brackets then ("[" ++ clock_digits total ++ "]")%string
      else clock_digits total).
Proof.
  intros Hx. unfold _format_time, clock_digits. rewrite Hx. simpl.
  assert (Hm : 0 <= total mod 3600 / 60 < 100).
  { pose proof (Z.mod_pos_bound total 3600 ltac:(lia)).
    split; [apply Z.div_pos; lia | apply Z.div_lt_upper_bound; lia]. }
  assert (Hs : 0 <= total mod 60 < 100).
  { pose proof (Z.mod_pos_bound total 60 ltac:(lia)). lia. }
  rewrite !format_02d_two_digits by assumption.
  rewrite Z.gtb_ltb. reflexivity.
Qed.

Lemma format_time_finite (x : float) (brackets : bool) :
  Float.is_finite x = true -> exists str, _format_time x brackets = Ok str.
Proof.
  intros Hfin.
  assert (Hint : exists total, Float.to_int x = Ok total).
  { destruct x; try discriminate; simpl; eauto. }
  destruct Hint as [total Hint].
  rewrite (format_time_of_total _ _ brackets Hint). eauto.
Qed.

(** C5: for every finite non-negative float, [format_timestamp] and
    [format_duration] truncate it to a whole number [total] of seconds
    ([total <= seconds < total + 1]) and render hours, minutes and seconds
    of [total] as ["[H:MM:SS]"] when the hours are positive and ["[M:SS]"]
    otherwise, minutes and seconds on two digits, the plain variant giving
    the same digits without brackets; [format_timestamp 65.0 = "[1:05]"],
    [format_timestamp 3661.0 = "[1:01:01]"], [format_duration 59.0 = "0:59"]. *)
Theorem format_time_spec :
  (forall seconds : float,
      Float.is_finite seconds = true ->
      Float.le Float.zero seconds = true ->
      exists total : Z,
        Float.to_int seconds = Ok total /\
        0 <= total /\
        (inject_Z total <= Float.value seconds)%Q /\
        (Float.value seconds < inject_Z total + 1)%Q /\
        format_timestamp seconds = Ok ("[" ++ clock_digits total ++ "]")%string /\
        format_duration seconds = Ok (clock_digits total)) /\
  format_timestamp (Float.nearest 65) = Ok "[1:05]" /\
  format_timestamp (Float.nearest 3661) = Ok "[1:01:01]" /\
  format_duration (Float.nearest 59) = Ok "0:59".
Proof.
  split; [| repeat split; vm_compute; reflexivity].
  intros seconds Hfin Hpos.
  destruct (to_int_truncates seconds Hfin Hpos) as (total & Hint & H0 & Hlo & Hhi).
  exists total. repeat split; try assumption.
  - unfold format_timestamp. now rewrite (format_time_of_total _ _ true Hint).
  - unfold format_duration. now rewrite (format_time_of_total _ _ false Hint).
Qed.

Lemma format_time_spec_witness :
  let seconds := S754_finite false 8051791833399296 (-41) in
  Float.is_finite seconds = true /\
  Float.le Float.zero seconds = true /\
  exists total : Z,
    Float.to_int seconds = Ok total /\
    0 <= total /\
    (inject_Z total <= Float.value seconds)%Q /\
    (Float.value seconds < inject_Z total + 1)%Q /\
    format_timestamp seconds = Ok ("[" ++ clock_digits total ++ "]")%string /\
    format_duration seconds = Ok (clock_digits total).
Proof.
  repeat split; [reflexivity .. |].
  apply (proj1 format_time_spec); reflexivity.
Defined.

(** ** Paragraph grouping *)

Lemma group_paragraphs_flush (gap : float) (segments : list segment) :
  group_paragraphs gap segments =
  flush (fold_left (para_step gap) segments
           {| paragraphs := []; current_para := []; last_end := Float.zero |}).
Proof. reflexivity. Qed.

Lemma fold_refines_policy (gap : float) (segs : list TimedSegment) :
  forall st : para_state,
    flush (fold_left (para_step gap) (map dict_of segs) st) =
    paragraphs st
      ++ segment_policy gap (current_para st) (last_end st) (map trimmed segs).
Proof.
  induction segs as [| seg rest IH]; intros [ps cur le].
  - unfold flush; simpl. destruct (nonempty cur); [reflexivity | now rewrite app_nil_r].
  - cbn [map fold_left segment_policy]. rewrite IH. clear IH.
    unfold para_step, dict_of, timed_segment, trimmed;
      cbn [seg_start seg_end seg_text get ts_start ts_end ts_text
           paragraphs current_para last_end].
    rewrite strip_idempotent.
    destruct (truthy (strip (ts_text seg))); cbn [negb]; [| reflexivity].
    destruct (nonempty cur && Float.gt (Float.sub (ts_start seg) le) gap);
      cbn [paragraphs current_para last_end].
    + now rewrite <- app_assoc.
    + reflexivity.
Qed.

Lemma map_trimmed (segs : list TimedSegment) :
  Forall is_trimmed segs -> map trimmed segs = segs.
Proof.
  induction 1 as [| seg segs Hseg _ IH]; [reflexivity |].
  cbn [map]. rewrite IH. f_equal.
  destruct seg as [s e t]. unfold trimmed, is_trimmed in *. cbn in *.
  now rewrite Hseg.
Qed.

(** C3: for every sequence of timed segments and every gap threshold, the
    paragraph loop of [generate_markdown] computes what the segmentation
    policy of the specification prescribes (empty buffer and cursor 0 at the
    start, skip of segments with empty trimmed text, a split only on a gap
    strictly above the threshold, the text appended and the cursor moved,
    final flush): on segments whose text is trimmed, as the data model has
    them, and on any segments once their texts are trimmed; two segments
    whose gap is exactly the threshold stay in one paragraph, as do an end
    2.0 and a start 3.5 under the threshold 1.5. *)
Theorem group_paragraphs_refines_policy :
  (forall (gap : float) (segs : list TimedSegment),
      Forall is_trimmed segs ->
      group_paragraphs gap (map dict_of segs) = reference_segment gap segs) /\
  (forall (gap : float) (segs : list TimedSegment),
      group_paragraphs gap (map dict_of segs) =
      reference_segment gap (map trimmed segs)) /\
  (forall (gap : float) (a b : TimedSegment),
      truthy (strip (ts_text a)) = true ->
      truthy (strip (ts_text b)) = true ->
      Float.sub (ts_start b) (ts_end a) = gap ->
      group_paragraphs gap [dict_of a; dict_of b] =
      [(strip (ts_text a) ++ " " ++ strip (ts_text b))%string]) /\
  group_paragraphs PARAGRAPH_GAP_SECONDS
    [timed_segment Float.zero (Float.nearest 2) "Hello";
     timed_segment (S754_finite false 7881299347898368 (-51)) (Float.nearest 4) "world"] =
  ["Hello world"].
Proof.
  assert (Hall : forall gap segs,
             group_paragraphs gap (map dict_of segs) =
             reference_segment gap (map trimmed segs)).
  { intros gap segs. rewrite group_paragraphs_flush, fold_refines_policy. reflexivity. }
  split; [| split; [exact Hall | split; [| vm_compute; reflexivity]]].
  - intros gap segs Htrim. now rewrite Hall, map_trimmed.
  - intros gap a b Ha Hb Hgap.
    change [dict_of a; dict_of b] with (map dict_of [a; b]).
    rewrite Hall. unfold reference_segment. cbn [map segment_policy trimmed ts_text ts_start ts_end].
    rewrite !strip_idempotent, Ha, Hb. cbn [nonempty andb app].
    rewrite Hgap, gt_irrefl. reflexivity.
Qed.

Lemma group_paragraphs_refines_policy_witness :
  let a := mk_TimedSegment Float.zero (Float.nearest 2) "Hello" in
  let b := mk_TimedSegment (S754_finite false 7881299347898368 (-51))
             (Float.nearest 4) "world" in
  let c := mk_TimedSegment (Float.nearest 9) (Float.nearest 10) "" in
  Forall is_trimmed [a; c; b] /\
  group_paragraphs PARAGRAPH_GAP_SECONDS (map dict_of [a; c; b]) =
  reference_segment PARAGRAPH_GAP_SECONDS [a; c; b] /\
  Float.sub (ts_start b) (ts_end a) = PARAGRAPH_GAP_SECONDS /\
  group_paragraphs PARAGRAPH_GAP_SECONDS [dict_of a; dict_of b] =
  [(strip (ts_text a) ++ " " ++ strip (ts_text b))%string].
Proof.
  assert (Htrim : Forall is_trimmed
            [mk_TimedSegment Float.zero (Float.nearest 2) "Hello";
             mk_TimedSegment (Float.nearest 9) (Float.nearest 10) "";
             mk_TimedSegment (S754_finite false 7881299347898368 (-51))
               (Float.nearest 4) "world"]).
  { repeat constructor. }
  split; [exact Htrim |]. split.
  - apply (proj1 group_paragraphs_refines_policy), Htrim.
  - split; [reflexivity |].
    apply (proj1 (proj2 (proj2 group_paragraphs_refines_policy))); reflexivity.
Defined.

(** The threshold is three halves; a gap of 2.0 splits, a gap of 1.4 does
    not. *)
Lemma gap_threshold_examples :
  Float.truediv 3 2 = Ok PARAGRAPH_GAP_SECONDS /\
  group_paragraphs PARAGRAPH_GAP_SECONDS
    [timed_segment Float.zero (Float.nearest 1) "a";
     timed_segment (Float.nearest 1) (Float.nearest 2) "b";
     timed_segment (Float.nearest 4) (Float.nearest 5) "c"] = ["a b"; "c"] /\
  group_paragraphs PARAGRAPH_GAP_SECONDS
    [timed_segment Float.zero (Float.nearest 1) "a";
     timed_segment (Float.nearest 1) (Float.nearest 2) "b";
     timed_segment (S754_finite false 7656119366529843 (-51)) (Float.nearest 5) "c"] =
  ["a b c"].
Proof. repeat split; vm_compute; reflexivity. Qed.

Lemma fold_conserves_text (gap : float) (segments : list segment) :
  forall st : para_state,
    join " " (flush (fold_left (para_step gap) segments st)) =
    join " " ((paragraphs st ++ current_para st) ++ kept_texts segments).
Proof.
  induction segments as [| seg rest IH]; intros [ps cur le].
  - unfold flush, kept_texts; simpl. rewrite app_nil_r.
    destruct cur as [| c cur]; simpl nonempty; cbv iota.
    + now rewrite app_nil_r.
    + change (ps ++ [join " " (c :: cur)]) with (ps ++ [join " " (c :: cur)] ++ []).
      rewrite join_flatten_mid by discriminate. now rewrite app_nil_r.
  - cbn [fold_left]. rewrite IH. clear IH.
    unfold kept_texts. cbn [map filter]. fold (kept_texts rest).
    unfold para_step; cbn [paragraphs current_para last_end].
    destruct (truthy (strip (get (seg_text seg) ""))); cbn [negb];
      [| reflexivity].
    destruct cur as [| c cur]; cbn [nonempty andb].
    + cbn [paragraphs current_para app]. now rewrite app_nil_r, <- app_assoc.
    + destruct (Float.gt _ gap); cbn [paragraphs current_para].
      * rewrite <- !app_assoc. rewrite join_flatten_mid by discriminate.
        reflexivity.
      * now rewrite <- !app_assoc.
Qed.

(** C10: whatever the segments and the gap threshold, the paragraphs joined
    with single spaces are the trimmed non-empty segment texts, in input
    order, joined with single spaces: grouping drops, repeats and reorders
    nothing. *)
Theorem group_paragraphs_conserves_text :
  forall (gap : float) (segments : list segment),
    join " " (group_paragraphs gap segments) = join " " (kept_texts segments).
Proof.
  intros gap segments.
  rewrite group_paragraphs_flush, fold_conserves_text. reflexivity.
Qed.

(** ** Rendering *)




(** C6: whatever the metadata (with a finite duration) and the timestamp
    mode, a transcription without segments renders, without error, as the
    document head alone: the heading of the transcript section and its blank
    line end the document, no content line follows. *)
Theorem empty_transcript :
  forall (today url : string) (info : video_info) (tr : transcription)
         (include_timestamps : bool),
    Float.is_finite (get (vi_duration info) Float.zero) = true ->
    get (tr_segments tr) [] = [] ->
    exists duration : string,
      format_duration (get (vi_duration info) Float.zero) = Ok duration /\
      markdown_lines today info tr url include_timestamps =
      Ok (document_head (get (vi_title info) "Untitled Video") url duration today) /\
      generate_markdown today info tr url include_timestamps =
      Ok (join nl
            (document_head (get (vi_title info) "Untitled Video") url duration today)).
Proof.
  intros today url info tr include_timestamps Hdur Hempty.
  destruct (format_time_finite _ false Hdur) as [duration Hduration].
  exists duration.
  assert (Hlines : markdown_lines today info tr url include_timestamps =
            Ok (document_head (get (vi_title info) "Untitled Video") url duration today)).
  { unfold markdown_lines, format_duration. rewrite Hduration, Hempty.
    destruct include_timestamps; reflexivity. }
  repeat split; [exact Hduration | exact Hlines |].
  unfold generate_markdown. rewrite Hlines. reflexivity.
Qed.

Lemma empty_transcript_witness :
  let info := mk_video_info (Some "Talk") (Some (Float.nearest 3661)) in
  let tr := mk_transcription (Some []) in
  Float.is_finite (get (vi_duration info) Float.zero) = true /\
  get (tr_segments tr) [] = [] /\
  exists duration : string,
    format_duration (get (vi_duration info) Float.zero) = Ok duration /\
    markdown_lines "2024-05-01" info tr "u" false =
    Ok (document_head (get (vi_title info) "Untitled Video") "u" duration "2024-05-01") /\
    generate_markdown "2024-05-01" info tr "u" false =
    Ok (join nl
          (document_head (get (vi_title info) "Untitled Video") "u" duration "2024-05-01")).
Proof.
  split; [reflexivity |]. split; [reflexivity |].
  apply empty_transcript; reflexivity.
Defined.

Lemma paragraph_loop_spec (paras : list string) :
  forall lines : list string,
    paragraph_loop paras lines = lines ++ with_separators paras.
Proof.
  induction paras as [| para rest IH]; intros lines.
  - simpl. now rewrite app_nil_r.
  - cbn [paragraph_loop with_separators flat_map]. rewrite IH.
    unfold with_separators. now rewrite <- !app_assoc.
Qed.

(** C7: absent metadata fields never make rendering fail by themselves: a
    document rendered without title is the one rendered with the title
    ["Untitled Video"], a document rendered without duration is the one
    rendered with duration 0, shown as ["0:00"]; with both absent the head
    carries exactly these two defaults and the transcript part is the same
    as for any other metadata. *)
Theorem metadata_defaults :
  (forall today url duration tr include_timestamps,
      generate_markdown today (mk_video_info None duration) tr url include_timestamps =
      generate_markdown today (mk_video_info (Some "Untitled Video") duration) tr url
        include_timestamps) /\
  (forall today url title tr include_timestamps,
      generate_markdown today (mk_video_info title None) tr url include_timestamps =
      generate_markdown today (mk_video_info title (Some Float.zero)) tr url
        include_timestamps) /\
  format_duration Float.zero = Ok "0:00" /\
  (forall today url tr,
      generate_markdown today (mk_video_info None None) tr url false =
      Ok (join nl
            (document_head "Untitled Video" url "0:00" today
               ++ with_separators
                    (group_paragraphs PARAGRAPH_GAP_SECONDS (get (tr_segments tr) []))))) /\
  (forall today url tr,
      generate_markdown today (mk_video_info None None) tr url true =
      lines <- timestamp_loop (get (tr_segments tr) [])
                 (document_head "Untitled Video" url "0:00" today) ;;
      Ok (join nl lines)).
Proof.
  repeat split; try reflexivity.
  intros today url tr.
  unfold generate_markdown, markdown_lines. cbn [get vi_title vi_duration bind].
  change (format_duration Float.zero) with (@Ok string "0:00"). cbn [bind].
  rewrite paragraph_loop_spec. reflexivity.
Qed.

(** ** Timestamps *)

Lemma parse_srt_timestamp_nonneg (timestamp : string) (x : float) :
  no_minus timestamp = true ->
  parse_srt_timestamp timestamp = Ok x ->
  nonneg_float x.
Proof.
  unfold no_minus, parse_srt_timestamp. intros Hts H.
  bind_inv H as [time_part ms_part] Hparts.
  bind_inv H as [[h m] sec] Hfields.
  bind_inv H as hv Hh. bind_inv H as mv Hm. bind_inv H as sv Hs.
  bind_inv H as msv Hms. bind_inv H as frac Hfrac.
  apply unpack2_Ok in Hparts. apply unpack3_Ok in Hfields.
  pose proof (split_from_all_chars _ "," timestamp 0 Hts) as Cparts.
  unfold split in Hparts. rewrite Hparts in Cparts.
  inversion Cparts as [| ? ? Ctime Crest]; subst.
  inversion Crest as [| ? ? Cms _]; subst.
  pose proof (split_from_all_chars _ ":" time_part 0 Ctime) as Cfields.
  unfold split in Hfields. rewrite Hfields in Cfields.
  inversion Cfields as [| ? ? Ch Cf1]; subst.
  inversion Cf1 as [| ? ? Cm Cf2]; subst.
  inversion Cf2 as [| ? ? Cs _]; subst.
  apply of_string_nonneg in Hh, Hm, Hs, Hms; try assumption.
  apply truediv_nonneg in Hfrac; [| assumption | lia].
  unfold Float.int_add in H. bind_inv H as whole Hwhole. inversion H; subst.
  apply of_int_nonneg in Hwhole; [| lia].
  apply add_nonneg; tauto.
Qed.

Lemma parse_srt_timestamp_raises (timestamp : string) (e : exn) :
  parse_srt_timestamp timestamp = Raise e -> e = ValueError \/ e = OverflowError.
Proof.
  unfold parse_srt_timestamp. intros H.
  apply bind_Raise in H as [H | ([time_part ms_part] & _ & H)].
  { destruct (split "," timestamp) as [| ? [| ? [| ? ?]]]; simpl in H; inversion H; auto. }
  apply bind_Raise in H as [H | ([[h m] sec] & _ & H)].
  { destruct (split ":" time_part) as [| ? [| ? [| ? [| ? ?]]]]; simpl in H;
      inversion H; auto. }
  do 4 (apply bind_Raise in H as [H | (? & _ & H)];
        [left; eapply of_string_raises; eassumption |]).
  apply bind_Raise in H as [H | (frac & _ & H)].
  { unfold Float.truediv in H. cbn [Z.eqb] in H.
    destruct (Float.is_infinite _); inversion H; auto. }
  unfold Float.int_add in H.
  apply bind_Raise in H as [H | (? & _ & H)]; [| discriminate].
  unfold Float.of_int in H. destruct (Float.is_infinite _); inversion H; auto.
Qed.

Lemma stamp_char_time (t : srt_time) :
  valid_time t -> all_chars stamp_char (render_time t) = true.
Proof.
  intros (Hh & Hm & Hs & Hms). unfold render_time.
  assert (Hd : forall s, all_chars Int.is_digit s = true ->
                         all_chars stamp_char s = true).
  { intros s. apply all_chars_impl. apply ascii_forall. vm_compute; reflexivity. }
  rewrite !all_chars_app.
  rewrite (Hd _ (two_digits_digits _ Hh)), (Hd _ (two_digits_digits _ Hm)),
    (Hd _ (two_digits_digits _ Hs)), (Hd _ (three_digits_digits _ Hms)).
  reflexivity.
Qed.

Lemma parse_render_time (t : srt_time) :
  valid_time t -> parse_srt_timestamp (render_time t) = Ok (srt_seconds t).
Proof.
  intros (Hh & Hm & Hs & Hms).
  pose proof (two_digits_digits _ Hh) as Dh.
  pose proof (two_digits_digits _ Hm) as Dm.
  pose proof (two_digits_digits _ Hs) as Ds.
  pose proof (three_digits_digits _ Hms) as Dms.
  assert (Hcomma : forall s, all_chars Int.is_digit s = true ->
             all_chars (fun x => negb (x =? ",")%char) s = true).
  { intros s. apply all_chars_impl. apply ascii_forall. vm_compute; reflexivity. }
  assert (Hcolon : forall s, all_chars Int.is_digit s = true ->
             all_chars (fun x => negb (x =? ":")%char) s = true).
  { intros s. apply all_chars_impl. apply ascii_forall. vm_compute; reflexivity. }
  unfold parse_srt_timestamp, render_time.
  set (time_part := (two_digits (t_hours t) ++ ":" ++ two_digits (t_minutes t)
                       ++ ":" ++ two_digits (t_seconds t))%string).
  replace (two_digits (t_hours t) ++ ":" ++ two_digits (t_minutes t) ++ ":"
             ++ two_digits (t_seconds t) ++ "," ++ three_digits (t_millis t))%string
    with (time_part ++ "," ++ three_digits (t_millis t))%string
    by (unfold time_part; now rewrite !append_assoc).
  rewrite split_app.
  2:{ apply unbroken_first. unfold time_part. rewrite !all_chars_app.
      now rewrite (Hcomma _ Dh), (Hcomma _ Dm), (Hcomma _ Ds). }
  rewrite (split_no_occurrence "," (three_digits (t_millis t)))
    by (apply occurs_without_first; auto).
  cbn [unpack2 bind]. unfold time_part.
  rewrite split_app by (apply unbroken_first; auto).
  rewrite split_app by (apply unbroken_first; auto).
  rewrite (split_no_occurrence ":" (two_digits (t_seconds t)))
    by (apply occurs_without_first; auto).
  cbn [unpack3 bind].
  rewrite !of_string_two_digits, of_string_three_digits by assumption.
  cbn [bind]. rewrite truediv_millis by assumption. cbn [bind].
  unfold Float.int_add. rewrite of_int_below_2_53 by lia.
  reflexivity.
Qed.

(** ** The loop over the blocks *)

Lemma try_block_text (lines : list string) (seg : segment) :
  try_block lines = Ok (Some seg) ->
  exists start end_ text,
    seg = timed_segment start end_ text /\
    text = strip (join " " (skipn 2 lines)) /\
    truthy text = true.
Proof.
  unfold try_block. intros H.
  bind_inv H as timestamp_line Hline. bind_inv H as [start_ts end_ts] Hsplit.
  bind_inv H as start Hstart. bind_inv H as end_ Hend.
  destruct (truthy (strip (join " " (skipn 2 lines)))) eqn:E; inversion H; subst.
  eauto 6.
Qed.

Lemma parse_blocks_invariant (P : segment -> Prop) :
  (forall lines seg, try_block lines = Ok (Some seg) -> P seg) ->
  forall blocks acc segs,
    Forall P acc -> parse_blocks blocks acc = Ok segs -> Forall P segs.
Proof.
  intros Hblock. induction blocks as [| block rest IH]; intros acc segs Hacc H.
  - inversion H; subst. exact Hacc.
  - cbn [parse_blocks] in H.
    destruct (3 <=? List.length (split nl (strip block)))%nat; [| eauto].
    destruct (try_block (split nl (strip block))) as [[seg |] | e] eqn:E.
    + eapply IH; [| exact H]. apply Forall_app. split; [exact Hacc |].
      constructor; [eapply Hblock, E | constructor].
    + eauto.
    + destruct e; try discriminate; eauto.
Qed.

(** Counterexample to C8 as worded: a start timestamp with a minus sign
    gives a segment whose start is negative. *)
Lemma parse_srt_negative_start :
  ~ (forall (content : string) (segs : list segment),
        parse_srt content = Ok segs ->
        Forall (fun seg => start_nonneg seg /\ text_nonempty seg) segs).
Proof.
  intros H.
  specialize (H signed_block
                [timed_segment (S754_finite true 7916483719987200 (-41))
                   (S754_finite false 4503599627370496 (-52)) "hi"]
                ltac:(vm_compute; reflexivity)).
  inversion H as [| ? ? [Hstart _] _]; subst.
  vm_compute in Hstart. discriminate.
Qed.

(** What a block that gives a segment looks like. *)
Lemma try_block_Ok (lines : list string) (seg : segment) :
  try_block lines = Ok (Some seg) ->
  exists (timing start_ts end_ts : string) (start end_ : float),
    nth_error lines 1 = Some timing /\
    split " --> " timing = [start_ts; end_ts] /\
    parse_srt_timestamp (strip start_ts) = Ok start /\
    parse_srt_timestamp (strip end_ts) = Ok end_ /\
    seg = timed_segment start end_ (strip (join " " (skipn 2 lines))) /\
    truthy (strip (join " " (skipn 2 lines))) = true.
Proof.
  unfold try_block. intros H.
  bind_inv H as timing Hline. bind_inv H as [start_ts end_ts] Hsplit.
  bind_inv H as start Hstart. bind_inv H as end_ Hend.
  unfold index in Hline.
  destruct (nth_error lines 1) as [line |] eqn:Enth; inversion Hline; subst.
  apply unpack2_Ok in Hsplit.
  destruct (truthy (strip (join " " (skipn 2 lines)))) eqn:E; inversion H; subst.
  exists timing, start_ts, end_ts, start, end_. repeat split; assumption.
Qed.

(** Every segment of the result is in the accumulator or comes from one of
    the blocks. *)
Lemma parse_blocks_provenance (blocks : list string) :
  forall (acc segs : list segment),
    parse_blocks blocks acc = Ok segs ->
    Forall (fun seg =>
              In seg acc \/
              exists block, In block blocks /\
                            try_block (split nl (strip block)) = Ok (Some seg)) segs.
Proof.
  induction blocks as [| block rest IH]; intros acc segs H.
  - inversion H; subst. apply Forall_forall. now left.
  - assert (Hweak : forall acc',
               parse_blocks rest acc' = Ok segs ->
               (forall seg, In seg acc' ->
                            In seg acc \/
                            try_block (split nl (strip block)) = Ok (Some seg)) ->
               Forall (fun seg =>
                         In seg acc \/
                         exists b, In b (block :: rest) /\
                                   try_block (split nl (strip b)) = Ok (Some seg)) segs).
    { intros acc' H' Hacc'. apply IH in H'.
      eapply Forall_impl; [| exact H']. intros seg [Hin | (b & Hb & E)].
      - destruct (Hacc' seg Hin) as [Hold | Hnew]; [now left |].
        right. exists block. split; [now left | exact Hnew].
      - right. exists b. split; [now right | exact E]. }
    cbn [parse_blocks] in H.
    destruct (3 <=? List.length (split nl (strip block)))%nat;
      [| apply (Hweak acc H); now left].
    destruct (try_block (split nl (strip block))) as [[seg |] | e] eqn:E.
    + apply (Hweak _ H). intros seg' Hin. apply in_app_or in Hin as [Hin | Hin];
        [now left |]. destruct Hin as [<- | []]. now right.
    + apply (Hweak acc H); now left.
    + destruct e; try discriminate; apply (Hweak acc H); now left.
Qed.

(** C8, amended: every segment that [parse_srt] returns is read off a block
    of the content, its start being what [parse_srt_timestamp] computes from
    the start timestamp of that block; its text is trimmed and not empty;
    and its start is non-negative whenever that start timestamp holds no
    minus sign. In general, the seconds that [parse_srt_timestamp] computes
    are non-negative whenever the timestamp holds no minus sign. *)
Theorem parse_srt_segment_invariant :
  (forall (content : string) (segs : list segment),
      parse_srt content = Ok segs ->
      Forall (fun seg =>
                exists start_ts : string,
                  read_from_block content start_ts seg /\
                  strip (get (seg_text seg) "") = get (seg_text seg) "" /\
                  text_nonempty seg /\
                  (no_minus (strip start_ts) = true -> start_nonneg seg)) segs) /\
  (forall (timestamp : string) (start : float),
      parse_srt_timestamp timestamp = Ok start ->
      no_minus timestamp = true ->
      Float.le Float.zero start = true).
Proof.
  split.
  - intros content segs H. unfold parse_srt in H.
    apply parse_blocks_provenance in H.
    eapply Forall_impl; [| exact H]. intros seg [[] | (block & Hin & E)].
    apply try_block_Ok in E.
    destruct E as (timing & start_ts & end_ts & start & end_
                   & Hnth & Hsplit & Hstart & Hend & -> & Htext).
    exists start_ts. split; [| split; [| split]].
    + exists block, timing, end_ts, start, end_. repeat split; assumption.
    + cbn [timed_segment seg_text get]. apply strip_idempotent.
    + unfold text_nonempty. cbn [timed_segment seg_text get].
      now rewrite strip_idempotent.
    + intros Hminus. unfold start_nonneg. cbn [timed_segment seg_start get].
      apply nonneg_float_le. eapply parse_srt_timestamp_nonneg; eassumption.
  - intros timestamp start H Hminus.
    apply nonneg_float_le. eapply parse_srt_timestamp_nonneg; eassumption.
Qed.

Lemma parse_srt_segment_invariant_witness :
  let content :=
    ("7" ++ nl ++ "00:01:02,500 --> 00:01:04,000" ++ nl ++ " So " ++ nl ++ "it goes ")%string in
  let start := S754_finite false 8796093022208000 (-47) in
  parse_srt content =
    Ok [timed_segment start (Float.nearest 64) "So  it goes"] /\
  parse_srt_timestamp "00:01:02,500" = Ok start /\
  no_minus "00:01:02,500" = true /\
  Forall (fun seg =>
            exists start_ts : string,
              read_from_block content start_ts seg /\
              strip (get (seg_text seg) "") = get (seg_text seg) "" /\
              text_nonempty seg /\
              (no_minus (strip start_ts) = true -> start_nonneg seg))
    [timed_segment start (Float.nearest 64) "So  it goes"] /\
  Float.le Float.zero start = true.
Proof.
  assert (Hparse :
    parse_srt ("7" ++ nl ++ "00:01:02,500 --> 00:01:04,000" ++ nl ++ " So " ++ nl ++ "it goes ")%string =
    Ok [timed_segment (S754_finite false 8796093022208000 (-47)) (Float.nearest 64) "So  it goes"])
    by (vm_compute; reflexivity).
  assert (Hts : parse_srt_timestamp "00:01:02,500" =
                Ok (S754_finite false 8796093022208000 (-47)))
    by (vm_compute; reflexivity).
  split; [exact Hparse |]. split; [exact Hts |]. split; [reflexivity |].
  split.
  - exact (proj1 parse_srt_segment_invariant _ _ Hparse).
  - exact (proj2 parse_srt_segment_invariant _ _ Hts eq_refl).
Defined.

Lemma try_block_raises (lines : list string) (e : exn) :
  try_block lines = Raise e ->
  e = ValueError \/ e = IndexError \/ e = OverflowError.
Proof.
  unfold try_block. intros H.
  apply bind_Raise in H as [H | (timestamp_line & _ & H)].
  { unfold index in H. destruct (nth_error lines 1); inversion H; auto. }
  apply bind_Raise in H as [H | ([start_ts end_ts] & _ & H)].
  { destruct (split " --> " timestamp_line) as [| ? [| ? [| ? ?]]]; simpl in H;
      inversion H; auto. }
  do 2 (apply bind_Raise in H as [H | (? & _ & H)];
        [apply parse_srt_timestamp_raises in H; tauto |]).
  discriminate.
Qed.

(** The only exception that [parse_srt] lets through is [OverflowError]. *)
Lemma parse_srt_raises (content : string) (e : exn) :
  parse_srt content = Raise e -> e = OverflowError.
Proof.
  unfold parse_srt. generalize (@nil segment).
  induction (split (nl ++ nl) (strip content)) as [| block rest IH]; intros acc H.
  - discriminate.
  - cbn [parse_blocks] in H.
    destruct (3 <=? List.length (split nl (strip block)))%nat; [| eauto].
    destruct (try_block (split nl (strip block))) as [[seg |] | e'] eqn:E; eauto.
    apply try_block_raises in E.
    destruct e'; eauto; inversion H; subst; try reflexivity.
    destruct E as [E | [E | E]]; discriminate.
Qed.

(** A block with fewer than three lines, or whose [try] body raises
    [ValueError] or [IndexError], adds nothing and the loop goes on. *)
Lemma parse_blocks_skips (block : string) (rest : list string) (acc : list segment) :
  (List.length (split nl (strip block)) < 3)%nat \/
  try_block (split nl (strip block)) = Raise ValueError \/
  try_block (split nl (strip block)) = Raise IndexError ->
  parse_blocks (block :: rest) acc = parse_blocks rest acc.
Proof.
  intros H. cbn [parse_blocks].
  destruct (3 <=? List.length (split nl (strip block)))%nat eqn:E; [| reflexivity].
  apply Nat.leb_le in E.
  destruct H as [H | [H | H]]; [lia | now rewrite H | now rewrite H].
Qed.

(** A timing line that lacks the separator makes the [try] body raise
    [ValueError]. *)
Lemma try_block_without_separator (lines : list string) (timing : string) :
  nth_error lines 1 = Some timing ->
  List.length (split " --> " timing) <> 2%nat ->
  try_block lines = Raise ValueError.
Proof.
  intros Hnth Hlen. unfold try_block, index. rewrite Hnth. cbn [bind].
  destruct (split " --> " timing) as [| ? [| ? [| ? ?]]]; simpl in *;
    reflexivity || congruence.
Qed.

(** C2: a block whose millisecond field is too large for a float makes
    [parse_srt] raise [OverflowError], and the segments of the other blocks
    are lost, whereas the same block with a non-numeric field is skipped. *)
Theorem parse_srt_overflow_escapes :
  parse_srt plain_block =
    Ok [timed_segment (Float.nearest 1) (Float.nearest 2) "fine"] /\
  parse_srt (plain_block ++ nl ++ nl ++ non_numeric_block) =
    Ok [timed_segment (Float.nearest 1) (Float.nearest 2) "fine"] /\
  parse_srt oversized_block = Raise OverflowError /\
  parse_srt (plain_block ++ nl ++ nl ++ oversized_block) = Raise OverflowError.
Proof. repeat split; vm_compute; reflexivity. Qed.

(** ** Well-formed blocks *)

Section CaptionBlock.

Variables t1 t2 : srt_time.
Variables ws1 ws2 : string.
Hypothesis valid1 : valid_time t1.
Hypothesis valid2 : valid_time t2.
Hypothesis inline1 : inline_space ws1 = true.
Hypothesis inline2 : inline_space ws2 = true.

Lemma stamp_chars (q : ascii -> bool) (t : srt_time) :
  forallb (fun c => implb (stamp_char c) (q c)) all_ascii = true ->
  valid_time t -> all_chars q (render_time t) = true.
Proof.
  intros Hq Ht. eapply all_chars_impl; [| apply stamp_char_time, Ht].
  now apply ascii_forall.
Qed.

Lemma inline_chars (q : ascii -> bool) (ws : string) :
  forallb (fun c => implb (is_space c && negb (c =? newline)%char) (q c)) all_ascii = true ->
  inline_space ws = true -> all_chars q ws = true.
Proof.
  intros Hq Hws. eapply all_chars_impl; [| exact Hws].
  now apply ascii_forall.
Qed.

Lemma render_time_strip (t : srt_time) :
  valid_time t -> strip (render_time t) = render_time t.
Proof.
  intros Ht.
  assert (H : all_chars (fun c => negb (is_space c)) (render_time t) = true)
    by (apply stamp_chars; [vm_compute; reflexivity | exact Ht]).
  unfold strip. now rewrite (rstrip_no_space _ H), (lstrip_no_space _ H).
Qed.

Lemma render_time_visible (t : srt_time) : render_time t <> "".
Proof. unfold render_time, two_digits. discriminate. Qed.

Lemma timing_line_split :
  split " --> " (timing_line t1 t2 ws1 ws2) =
  [(render_time t1 ++ ws1)%string; (ws2 ++ render_time t2)%string].
Proof.
  unfold timing_line.
  replace (render_time t1 ++ ws1 ++ " --> " ++ ws2 ++ render_time t2)%string
    with ((render_time t1 ++ ws1) ++ " --> " ++ (ws2 ++ render_time t2))%string
    by now rewrite !append_assoc.
  rewrite split_app.
  - rewrite split_no_occurrence; [reflexivity |].
    apply occurs_without_second. rewrite all_chars_app.
    rewrite (inline_chars _ ws2), (stamp_chars _ t2); auto.
  - apply (unbroken_second " " "-"); [reflexivity |].
    rewrite all_chars_app.
    rewrite (inline_chars _ ws1), (stamp_chars _ t1); auto.
Qed.

Lemma start_side_strip : strip (render_time t1 ++ ws1) = render_time t1.
Proof.
  unfold strip. rewrite rstrip_app_blank.
  - apply render_time_strip, valid1.
  - apply inline_chars; [vm_compute; reflexivity | exact inline1].
Qed.

Lemma end_side_strip : strip (ws2 ++ render_time t2) = render_time t2.
Proof.
  pose proof (render_time_strip t2 valid2) as H. unfold strip in *.
  assert (Hr : rstrip (render_time t2) = render_time t2).
  { apply rstrip_no_space, stamp_chars; [vm_compute; reflexivity | exact valid2]. }
  rewrite rstrip_app by (rewrite Hr; apply render_time_visible).
  rewrite lstrip_blank_app; [exact H |].
  apply inline_chars; [vm_compute; reflexivity | exact inline2].
Qed.

Lemma timing_line_is_line : is_line (timing_line t1 t2 ws1 ws2) = true.
Proof.
  unfold is_line, timing_line. rewrite !all_chars_app.
  rewrite (stamp_chars _ t1), (stamp_chars _ t2), (inline_chars _ ws1),
    (inline_chars _ ws2); auto.
Qed.

Lemma timing_line_visible : timing_line t1 t2 ws1 ws2 <> "".
Proof. unfold timing_line, render_time, two_digits. discriminate. Qed.

(** The [try] body on the lines of a block. *)
Lemma try_block_caption (first : string) (rest : list string) :
  try_block (first :: timing_line t1 t2 ws1 ws2 :: rest) =
  Ok (if truthy (strip (join " " rest))
      then Some (timed_segment (srt_seconds t1) (srt_seconds t2)
                   (strip (join " " rest)))
      else None).
Proof.
  unfold try_block, index. cbn [nth_error bind].
  rewrite timing_line_split. cbn [unpack2 bind].
  rewrite start_side_strip, end_side_strip.
  rewrite !parse_render_time by assumption.
  reflexivity.
Qed.

Variable idx : string.
Variable text_lines : list string.
Hypothesis idx_line : is_line idx = true.
Hypothesis idx_visible : truthy (strip idx) = true.
Hypothesis text_ok : Forall text_line text_lines.
Hypothesis text_visible : truthy (strip (join " " text_lines)) = true.

Lemma text_lines_nonempty : text_lines <> [].
Proof. intros E. rewrite E in text_visible. discriminate. Qed.

Lemma text_are_lines : Forall (fun l => is_line l = true) text_lines.
Proof. eapply Forall_impl; [| exact text_ok]. now intros l [Hl _]. Qed.

Lemma body_visible : blank (join nl text_lines) = false.
Proof.
  rewrite <- blank_unbreak, unbreak_join by apply text_are_lines.
  apply strip_visible, text_visible.
Qed.

Lemma caption_block_unfold :
  caption_block idx t1 t2 ws1 ws2 text_lines =
  (idx ++ nl ++ timing_line t1 t2 ws1 ws2 ++ nl ++ join nl text_lines)%string.
Proof.
  unfold caption_block.
  rewrite join_cons_nonempty by discriminate.
  rewrite join_cons_nonempty by apply text_lines_nonempty.
  reflexivity.
Qed.

Lemma caption_block_strip :
  strip (caption_block idx t1 t2 ws1 ws2 text_lines) =
  (lstrip idx ++ nl ++ timing_line t1 t2 ws1 ws2 ++ nl
     ++ rstrip (join nl text_lines))%string.
Proof.
  rewrite caption_block_unfold. unfold strip.
  pose proof (rstrip_visible _ body_visible) as Hbody.
  replace (idx ++ nl ++ timing_line t1 t2 ws1 ws2 ++ nl ++ join nl text_lines)%string
    with ((idx ++ nl ++ timing_line t1 t2 ws1 ws2 ++ nl) ++ join nl text_lines)%string
    by now rewrite !append_assoc.
  rewrite rstrip_app by exact Hbody.
  rewrite !append_assoc.
  apply lstrip_app, lstrip_visible, strip_visible, idx_visible.
Qed.

Lemma caption_block_single :
  split (nl ++ nl) (strip (caption_block idx t1 t2 ws1 ws2 text_lines)) =
  [strip (caption_block idx t1 t2 ws1 ws2 text_lines)].
Proof.
  apply split_no_occurrence. unfold strip.
  apply occurs_lstrip, occurs_rstrip. unfold caption_block.
  apply occurs_join_lines.
  constructor; [| constructor; [| exact text_ok]].
  - split; [exact idx_line |]. intros E. rewrite E in idx_visible. discriminate.
  - split; [apply timing_line_is_line | apply timing_line_visible].
Qed.

Lemma caption_block_lines :
  split nl (strip (caption_block idx t1 t2 ws1 ws2 text_lines)) =
  lstrip idx :: timing_line t1 t2 ws1 ws2 :: split nl (rstrip (join nl text_lines)).
Proof.
  rewrite caption_block_strip. unfold nl.
  rewrite split_app by (apply unbroken_first, all_chars_lstrip, idx_line).
  rewrite split_app by (apply unbroken_first, timing_line_is_line).
  reflexivity.
Qed.

Lemma caption_block_text :
  strip (join " " (split nl (rstrip (join nl text_lines)))) =
  strip (join " " text_lines).
Proof.
  rewrite join_split_unbreak, <- rstrip_unbreak, unbreak_join by apply text_are_lines.
  unfold strip. now rewrite rstrip_idempotent.
Qed.

(** A well-formed block, with or without extra white space around the
    separator, parses to its one segment. *)
Lemma parse_caption_block :
  parse_srt (caption_block idx t1 t2 ws1 ws2 text_lines) =
  Ok [timed_segment (srt_seconds t1) (srt_seconds t2)
        (strip (join " " text_lines))].
Proof.
  unfold parse_srt. rewrite caption_block_single. cbn [parse_blocks].
  rewrite strip_idempotent, caption_block_lines.
  replace (3 <=? List.length _)%nat with true.
  2:{ symmetry. apply Nat.leb_le. cbn [List.length].
      pose proof (split_from_nonempty nl (rstrip (join nl text_lines)) 0) as H.
      unfold split. destruct (split_from nl 0 _); [congruence | simpl; lia]. }
  rewrite try_block_caption. cbn [skipn].
  rewrite caption_block_text, text_visible. reflexivity.
Qed.

End CaptionBlock.

(** C1: a single well-formed caption block (an index line that is not
    blank, a timing line [HH:MM:SS,mmm --> HH:MM:SS,mmm], text lines whose
    joined, trimmed text is not empty) parses to exactly one segment; its
    start and end are [H*3600 + M*60 + S + ms/1000] of the two timestamps
    and its text is the text lines joined with single spaces and trimmed. *)
Theorem parse_single_block :
  forall (idx : string) (t1 t2 : srt_time) (text_lines : list string),
    is_line idx = true ->
    truthy (strip idx) = true ->
    valid_time t1 ->
    valid_time t2 ->
    Forall text_line text_lines ->
    truthy (strip (join " " text_lines)) = true ->
    parse_srt (caption_block idx t1 t2 "" "" text_lines) =
    Ok [timed_segment (srt_seconds t1) (srt_seconds t2)
          (strip (join " " text_lines))].
Proof.
  intros idx t1 t2 text_lines Hidx Hvis Ht1 Ht2 Hlines Htext.
  now apply parse_caption_block.
Qed.

Lemma parse_single_block_witness :
  let t1 := mk_srt_time 0 1 2 500 in
  let t2 := mk_srt_time 0 1 4 0 in
  caption_block "7" t1 t2 "" "" ["So"; "it goes "] =
    ("7" ++ nl ++ "00:01:02,500 --> 00:01:04,000" ++ nl ++ "So" ++ nl ++ "it goes ")%string /\
  srt_seconds t1 = S754_finite false 8796093022208000 (-47) /\
  parse_srt (caption_block "7" t1 t2 "" "" ["So"; "it goes "]) =
    Ok [timed_segment (srt_seconds t1) (srt_seconds t2) "So it goes"].
Proof.
  split; [reflexivity |]. split; [reflexivity |].
  apply (parse_single_block "7" (mk_srt_time 0 1 2 500) (mk_srt_time 0 1 4 0)
           ["So"; "it goes "]).
  - reflexivity.
  - reflexivity.
  - unfold valid_time; simpl; lia.
  - unfold valid_time; simpl; lia.
  - repeat constructor; discriminate.
  - reflexivity.
Defined.

(** C9: extra white space on either side of the [" --> "] separator of an
    otherwise well-formed block changes nothing: the block still parses to
    its segment, with the start, end and text of the block without the extra
    white space. *)
Theorem extra_space_around_separator :
  forall (idx : string) (t1 t2 : srt_time) (ws1 ws2 : string)
         (text_lines : list string),
    is_line idx = true ->
    truthy (strip idx) = true ->
    valid_time t1 ->
    valid_time t2 ->
    inline_space ws1 = true ->
    inline_space ws2 = true ->
    Forall text_line text_lines ->
    truthy (strip (join " " text_lines)) = true ->
    parse_srt (caption_block idx t1 t2 ws1 ws2 text_lines) =
    parse_srt (caption_block idx t1 t2 "" "" text_lines) /\
    parse_srt (caption_block idx t1 t2 ws1 ws2 text_lines) =
    Ok [timed_segment (srt_seconds t1) (srt_seconds t2)
          (strip (join " " text_lines))].
Proof.
  intros idx t1 t2 ws1 ws2 text_lines Hidx Hvis Ht1 Ht2 Hws1 Hws2 Hlines Htext.
  rewrite (parse_caption_block t1 t2 ws1 ws2) by assumption.
  rewrite (parse_caption_block t1 t2 "" "") by (assumption || reflexivity).
  split; reflexivity.
Qed.

Lemma extra_space_around_separator_witness :
  let t1 := mk_srt_time 0 0 5 0 in
  let t2 := mk_srt_time 0 1 2 500 in
  let tab := String (ascii_of_N 9) "" in
  caption_block "2" t1 t2 (" " ++ tab) "  " ["world"] =
    ("2" ++ nl ++ "00:00:05,000 " ++ tab ++ " -->   00:01:02,500" ++ nl ++ "world")%string /\
  parse_srt (caption_block "2" t1 t2 (" " ++ tab) "  " ["world"]) =
  parse_srt (caption_block "2" t1 t2 "" "" ["world"]) /\
  parse_srt (caption_block "2" t1 t2 (" " ++ tab) "  " ["world"]) =
  Ok [timed_segment (srt_seconds t1) (srt_seconds t2) "world"].
Proof.
  split; [reflexivity |].
  apply (extra_space_around_separator "2" (mk_srt_time 0 0 5 0)
           (mk_srt_time 0 1 2 500) (" " ++ String (ascii_of_N 9) "") "  " ["world"]).
  - reflexivity.
  - reflexivity.
  - unfold valid_time; simpl; lia.
  - unfold valid_time; simpl; lia.
  - reflexivity.
  - reflexivity.
  - repeat constructor; discriminate.
  - reflexivity.
Defined.

(** ** The URL test *)

Lemma prefix_spec (sep s : string) :
  prefix sep s = true <-> exists post, s = (sep ++ post)%string.
Proof.
  revert s. induction sep as [| c sep IH]; intros s.
  - split; [exists s; reflexivity | intros _; apply prefix_empty].
  - destruct s as [| x s]; [split; [discriminate | intros [post H]; discriminate] |].
    simpl. destruct (ascii_dec c x) as [-> | Hneq].
    + rewrite IH. split; intros [post H]; exists post; cbn [append] in *; congruence.
    + split; [discriminate | intros [post H]; cbn [append] in H; congruence].
Qed.

Lemma occurs_spec (c : ascii) (r s : string) :
  occurs (String c r) s = true <->
  exists pre post, s = (pre ++ String c r ++ post)%string.
Proof.
  induction s as [| x s IH].
  - split; [discriminate |]. intros (pre & post & H).
    destruct pre; discriminate.
  - cbn [occurs]. rewrite orb_true_iff, IH, prefix_spec. split.
    + intros [[post H] | (pre & post & H)].
      * exists "", post. exact H.
      * exists (String x pre), post. cbn [append]. now rewrite H.
    + intros (pre & post & H). destruct pre as [| y pre].
      * left. exists post. exact H.
      * right. exists pre, post. cbn [append] in *. congruence.
Qed.

(** X1: a URL is accepted exactly when one of the four literal strings
    occurs somewhere in it. *)
Theorem is_youtube_url_spec :
  forall url : string,
    is_youtube_url url = true <->
    exists p pre post, In p patterns /\ url = (pre ++ p ++ post)%string.
Proof.
  intros url. unfold is_youtube_url. rewrite existsb_exists. split.
  - intros (p & Hin & Hocc). exists p.
    assert (Hp : exists c r, p = String c r).
    { unfold patterns in Hin. simpl in Hin.
      decompose [or] Hin; subst; try contradiction; eauto. }
    destruct Hp as (c & r & ->). apply occurs_spec in Hocc.
    destruct Hocc as (pre & post & H). eauto.
  - intros (p & pre & post & Hin & ->). exists p. split; [exact Hin |].
    assert (Hp : exists c r, p = String c r).
    { unfold patterns in Hin. simpl in Hin.
      decompose [or] Hin; subst; try contradiction; eauto. }
    destruct Hp as (c & r & ->). apply occurs_spec. eauto.
Qed.

Lemma occurs_embedded (c : ascii) (r pre post s : string) :
  occurs (String c r) s = true ->
  occurs (String c r) (pre ++ s ++ post) = true.
Proof.
  rewrite !occurs_spec. intros (a & b & ->).
  exists (pre ++ a)%string, (b ++ post)%string.
  now rewrite !append_assoc.
Qed.

Lemma length_app (a b : string) :
  String.length (a ++ b) = (String.length a + String.length b)%nat.
Proof. induction a as [| c a IH]; [reflexivity | simpl; now rewrite IH]. Qed.

Lemma occurs_length (sep s : string) :
  occurs sep s = true -> (String.length sep <= String.length s)%nat.
Proof.
  destruct sep as [| c r]; [simpl; lia |]. rewrite occurs_spec.
  intros (pre & post & ->).
  rewrite !length_app. lia.
Qed.

(** X2: the test is not anchored: an accepted URL stays accepted whatever
    text is put before and after it; and nothing shorter than nine
    characters is accepted. *)
Theorem is_youtube_url_unanchored :
  (forall pre url post : string,
      is_youtube_url url = true ->
      is_youtube_url (pre ++ url ++ post) = true) /\
  (forall url : string,
      (String.length url < 9)%nat -> is_youtube_url url = false).
Proof.
  split.
  - intros pre url post H. unfold is_youtube_url in *.
    rewrite existsb_exists in *. destruct H as (p & Hin & Hocc).
    exists p. split; [exact Hin |].
    unfold patterns in Hin. simpl in Hin.
    decompose [or] Hin; subst; try contradiction; now apply occurs_embedded.
  - intros url Hlen. unfold is_youtube_url.
    destruct (existsb _ patterns) eqn:E; [| reflexivity].
    rewrite existsb_exists in E. destruct E as (p & Hin & Hocc).
    apply occurs_length in Hocc.
    unfold patterns in Hin. simpl in Hin.
    decompose [or] Hin; subst; try contradiction; simpl in Hocc; lia.
Qed.

Lemma is_youtube_url_unanchored_witness :
  is_youtube_url "https://youtu.be/abc" = true /\
  is_youtube_url ("see " ++ "https://youtu.be/abc" ++ " now") = true /\
  (String.length "youtu.be" < 9)%nat /\
  is_youtube_url "youtu.be" = false.
Proof.
  split; [reflexivity |]. split.
  - apply (proj1 is_youtube_url_unanchored). reflexivity.
  - split; [simpl; lia |].
    apply (proj2 is_youtube_url_unanchored). simpl; lia.
Defined.

(** ** File names *)

Lemma all_chars_remove (class : ascii -> bool) (s : string) :
  all_chars (fun c => negb (class c)) (remove_chars class s) = true.
Proof.
  induction s as [| c s IH]; [reflexivity |]. cbn [remove_chars].
  destruct (class c) eqn:E; [exact IH |]. cbn [all_chars]. now rewrite E, IH.
Qed.

Lemma remove_chars_none (class : ascii -> bool) (s : string) :
  all_chars (fun c => negb (class c)) s = true -> remove_chars class s = s.
Proof.
  induction s as [| c s IH]; [reflexivity |]. cbn [all_chars remove_chars].
  intros H. apply andb_prop in H as [Hc Hs]. apply negb_true_iff in Hc.
  now rewrite Hc, IH.
Qed.

Lemma all_chars_rstrip (p : ascii -> bool) (s : string) :
  all_chars p s = true -> all_chars p (rstrip s) = true.
Proof.
  destruct (rstrip_is_prefix s) as [t Ht]. intros H.
  rewrite Ht, all_chars_app in H. now apply andb_prop in H as [H _].
Qed.

Lemma all_chars_strip (p : ascii -> bool) (s : string) :
  all_chars p s = true -> all_chars p (strip s) = true.
Proof. intros H. now apply all_chars_lstrip, all_chars_rstrip. Qed.

Lemma all_chars_take (p : ascii -> bool) (n : nat) :
  forall s, all_chars p s = true -> all_chars p (take n s) = true.
Proof.
  induction n as [| n IH]; intros [| c s] H; try reflexivity.
  cbn [take all_chars] in *. apply andb_prop in H as [Hc Hs]. now rewrite Hc, IH.
Qed.

Lemma length_take (n : nat) :
  forall s, (String.length (take n s) <= n)%nat.
Proof.
  induction n as [| n IH]; intros [| c s]; simpl; try lia.
  specialize (IH s). lia.
Qed.

Lemma take_all (n : nat) :
  forall s, (String.length s <= n)%nat -> take n s = s.
Proof.
  induction n as [| n IH]; intros [| c s] H; try reflexivity; simpl in *; try lia.
  rewrite IH; [reflexivity | lia].
Qed.

Lemma all_chars_lower (p : ascii -> bool) (s : string) :
  (forall c, implb (p c) (p (lower_char c)) = true) ->
  all_chars p s = true -> all_chars p (lower s) = true.
Proof.
  intros Hp. induction s as [| c s IH]; [reflexivity |]. cbn [all_chars lower].
  intros H. apply andb_prop in H as [Hc Hs]. specialize (Hp c).
  rewrite Hc in Hp. simpl in Hp. now rewrite Hp, IH.
Qed.

Lemma lower_lowered (s : string) :
  all_chars (fun c => (lower_char c =? c)%char) (lower s) = true.
Proof.
  induction s as [| c s IH]; [reflexivity |]. cbn [lower all_chars].
  rewrite IH, andb_true_r. revert c. apply ascii_forall. vm_compute; reflexivity.
Qed.

Lemma lower_fixed (s : string) :
  all_chars (fun c => (lower_char c =? c)%char) s = true -> lower s = s.
Proof.
  induction s as [| c s IH]; [reflexivity |]. cbn [all_chars lower].
  intros H. apply andb_prop in H as [Hc Hs]. apply Ascii.eqb_eq in Hc.
  now rewrite Hc, IH.
Qed.

Lemma all_chars_dash_runs (p : ascii -> bool) (s : string) :
  p "-"%char = true ->
  forall in_run, all_chars p s = true -> all_chars p (dash_runs in_run s) = true.
Proof.
  intros Hdash. induction s as [| c s IH]; intros in_run H; [reflexivity |].
  cbn [all_chars dash_runs] in *. apply andb_prop in H as [Hc Hs].
  destruct (is_space c); [destruct in_run |]; cbn [all_chars];
    rewrite ?Hdash, ?Hc; cbn [andb]; auto.
Qed.

Lemma dash_runs_no_space (s : string) :
  forall in_run, all_chars (fun c => negb (is_space c)) (dash_runs in_run s) = true.
Proof.
  induction s as [| c s IH]; intros in_run; [reflexivity |]. cbn [dash_runs].
  destruct (is_space c) eqn:E; [destruct in_run |]; cbn [all_chars];
    rewrite ?E; cbn [negb andb]; auto.
  change (negb (is_space "-"%char)) with true. cbn [andb]. auto.
Qed.

Lemma dash_runs_none (s : string) :
  all_chars (fun c => negb (is_space c)) s = true -> dash_runs false s = s.
Proof.
  induction s as [| c s IH]; [reflexivity |]. cbn [all_chars dash_runs].
  intros H. apply andb_prop in H as [Hc Hs]. apply negb_true_iff in Hc.
  now rewrite Hc, IH.
Qed.

Lemma all_chars_and (p q : ascii -> bool) (s : string) :
  all_chars (fun c => p c && q c) s = all_chars p s && all_chars q s.
Proof.
  induction s as [| c s IH]; [reflexivity |]. cbn [all_chars]. rewrite IH.
  destruct (p c), (q c), (all_chars p s), (all_chars q s); reflexivity.
Qed.

Lemma sanitize_filename_chars :
  forall (title : string) (kebab : bool),
    (String.length (sanitize_filename title kebab) <= 80)%nat /\
    all_chars (fun c => negb (dangerous c)) (sanitize_filename title kebab) = true.
Proof.
  intros title kebab. unfold sanitize_filename. split; [apply length_take |].
  apply all_chars_take.
  pose proof (all_chars_strip _ _ (all_chars_remove dangerous title)) as H.
  destruct kebab; [| exact H].
  apply all_chars_dash_runs; [reflexivity |].
  apply all_chars_lower; [| exact H].
  apply ascii_forall. vm_compute; reflexivity.
Qed.

(** X3: whatever the title and the mode, the file name has at most 80
    characters and none of the characters that the function removes. *)
Theorem sanitize_filename_safe :
  forall (title : string) (kebab : bool),
    (String.length (sanitize_filename title kebab) <= 80)%nat /\
    all_chars (fun c => negb (dangerous c)) (sanitize_filename title kebab) = true.
Proof. exact sanitize_filename_chars. Qed.

Lemma sanitize_filename_kebab_chars :
  forall title : string,
    all_chars (fun c => negb (is_space c) && (lower_char c =? c)%char)
      (sanitize_filename title true) = true.
Proof.
  intros title. unfold sanitize_filename. apply all_chars_take.
  rewrite all_chars_and, dash_runs_no_space. cbn [andb].
  apply all_chars_dash_runs; [reflexivity | apply lower_lowered].
Qed.

(** X4: in kebab mode the file name holds no white space and none of the
    capital letters below code point 256, the letters [A] to [Z] and the
    accented capitals of codes 192 to 222, each of which [str.lower] turns
    into its small letter. *)
Theorem sanitize_filename_kebab :
  forall title : string,
    all_chars (fun c => negb (is_space c) && negb (latin_capital c))
      (sanitize_filename title true) = true.
Proof.
  intros title.
  eapply all_chars_impl; [| apply sanitize_filename_kebab_chars].
  apply ascii_forall. vm_compute; reflexivity.
Qed.

(** X5: a title without removed characters, without white space at its
    ends and of at most 80 characters is its own file name. *)
Theorem sanitize_filename_clean_title :
  forall title : string,
    all_chars (fun c => negb (dangerous c)) title = true ->
    strip title = title ->
    (String.length title <= 80)%nat ->
    sanitize_filename title false = title.
Proof.
  intros title Hsafe Hstrip Hlen. unfold sanitize_filename.
  rewrite remove_chars_none, Hstrip by exact Hsafe. now apply take_all.
Qed.

Lemma sanitize_filename_clean_title_witness :
  let title := "Intro to Rocq - part 2" in
  all_chars (fun c => negb (dangerous c)) title = true /\
  strip title = title /\
  (String.length title <= 80)%nat /\
  sanitize_filename title false = title.
Proof.
  split; [reflexivity |]. split; [reflexivity |]. split; [simpl; lia |].
  apply sanitize_filename_clean_title; [reflexivity | reflexivity | simpl; lia].
Defined.

(** X6: in kebab mode a file name is left as it is by a second pass. *)
Theorem sanitize_filename_kebab_idempotent :
  forall title : string,
    sanitize_filename (sanitize_filename title true) true =
    sanitize_filename title true.
Proof.
  intros title.
  destruct (sanitize_filename_chars title true) as [Hlen Hsafe].
  pose proof (sanitize_filename_kebab_chars title) as Hkebab.
  rewrite all_chars_and in Hkebab. apply andb_prop in Hkebab as [Hspace Hlow].
  set (name := sanitize_filename title true) in *.
  unfold sanitize_filename at 1.
  rewrite (remove_chars_none _ _ Hsafe).
  unfold strip. rewrite (rstrip_no_space _ Hspace), (lstrip_no_space _ Hspace).
  rewrite (lower_fixed _ Hlow), (dash_runs_none _ Hspace).
  now apply take_all.
Qed.

Lemma blank_remove_chars (s : string) :
  all_chars (fun c => dangerous c || is_space c) s = true ->
  blank (remove_chars dangerous s) = true.
Proof.
  unfold blank. induction s as [| c s IH]; [reflexivity |]. cbn [all_chars remove_chars].
  intros H. apply andb_prop in H as [Hc Hs].
  destruct (dangerous c); [auto |]. cbn [all_chars]. simpl in Hc. now rewrite Hc, IH.
Qed.

(** X7: a title made of removed characters and white space only gives the
    empty file name, in both modes. *)
Theorem sanitize_filename_empty :
  forall (title : string) (kebab : bool),
    all_chars (fun c => dangerous c || is_space c) title = true ->
    sanitize_filename title kebab = "".
Proof.
  intros title kebab H. unfold sanitize_filename, strip.
  rewrite (rstrip_blank _ (blank_remove_chars _ H)).
  destruct kebab; reflexivity.
Qed.

Lemma sanitize_filename_empty_witness :
  all_chars (fun c => dangerous c || is_space c) " ??? / * " = true /\
  sanitize_filename " ??? / * " true = "".
Proof.
  split; [reflexivity |]. apply sanitize_filename_empty. reflexivity.
Defined.

(** ** The output path of [main] *)

Lemma rfind_dot_app (a b : string) (i : nat) :
  rfind_dot b = Some i -> rfind_dot (a ++ b) = Some (String.length a + i)%nat.
Proof.
  intros H. induction a as [| c a IH]; [exact H |].
  cbn [append rfind_dot String.length]. now rewrite IH.
Qed.

Lemma take_app (a b : string) (i : nat) :
  take (String.length a + i) (a ++ b) = (a ++ take i b)%string.
Proof. induction a as [| c a IH]; [reflexivity |]. simpl. now rewrite IH. Qed.

Lemma drop_app (a b : string) (i : nat) :
  drop (String.length a + i) (a ++ b) = drop i b.
Proof. induction a as [| c a IH]; [reflexivity | exact IH]. Qed.

(** X8: the default output name is a single path component (it holds no
    slash nor any other removed character) of at most 94 characters; its
    suffix is [".md"] and its stem is the sanitized title followed by
    [" Transcript"] or ["-transcript"]. *)
Theorem default_output_name_spec :
  forall (title : string) (kebab : bool),
    let name := default_output_name title kebab in
    all_chars (fun c => negb (dangerous c)) name = true /\
    (String.length name <= 94)%nat /\
    path_suffix name = ".md" /\
    path_stem name =
      (sanitize_filename title kebab
         ++ (if kebab then "-transcript" else " Transcript"))%string.
Proof.
  intros title kebab. cbv zeta. unfold default_output_name.
  destruct (sanitize_filename_chars title kebab) as [Hlen Hsafe].
  set (safe := sanitize_filename title kebab) in *.
  assert (Hcut : cut_index (safe ++ (if kebab then "-transcript.md" else " Transcript.md"))
                 = Some (String.length safe + 11)%nat).
  { unfold cut_index. rewrite (rfind_dot_app safe _ 11) by now destruct kebab.
    rewrite length_app.
    replace (String.length (if kebab then "-transcript.md" else " Transcript.md"))
      with 14%nat by now destruct kebab.
    replace ((0 <? String.length safe + 11) &&
             (String.length safe + 11 <? String.length safe + 14 - 1))%nat with true;
      [reflexivity |].
    symmetry. apply andb_true_intro. split; apply Nat.ltb_lt; lia. }
  repeat split.
  - rewrite all_chars_app, Hsafe. now destruct kebab.
  - rewrite length_app. destruct kebab; simpl String.length; lia.
  - unfold path_suffix. rewrite Hcut, drop_app. now destruct kebab.
  - unfold path_stem. rewrite Hcut, take_app. now destruct kebab.
Qed.

Lemma rename_loop_from (taken : string -> bool) (base ext : string) (fuel : nat) :
  forall n k : Z,
    n <= k ->
    taken (numbered_name base ext k) = false ->
    (Z.to_nat (k - n) < fuel)%nat ->
    exists m : Z,
      n <= m <= k /\
      rename_loop taken base ext fuel n = Some (numbered_name base ext m) /\
      taken (numbered_name base ext m) = false /\
      forall j : Z, n <= j < m -> taken (numbered_name base ext j) = true.
Proof.
  induction fuel as [| fuel IH]; intros n k Hnk Hfree Hfuel; [lia |].
  cbn [rename_loop].
  destruct (taken (numbered_name base ext n)) eqn:E; cbn [negb].
  - assert (Hlt : n < k).
    { destruct (Z.eq_dec n k) as [-> | Hne]; [congruence | lia]. }
    destruct (IH (n + 1) k ltac:(lia) Hfree ltac:(lia)) as (m & Hm & Hloop & Hm_free & Hbelow).
    exists m. repeat split; try assumption; try lia.
    intros j Hj. destruct (Z.eq_dec j n) as [-> | Hne]; [exact E | apply Hbelow; lia].
  - exists n. repeat split; try assumption; try lia.
Qed.

(** X9: when renaming, the loop of [main] started at 2 returns the name
    with the least number whose path does not exist yet: every lower
    numbered name is taken, the returned one is free. It does so as soon as
    some numbered name is free. *)
Theorem rename_loop_least :
  forall (taken : string -> bool) (base ext : string) (k : Z) (fuel : nat),
    2 <= k ->
    taken (numbered_name base ext k) = false ->
    (Z.to_nat (k - 2) < fuel)%nat ->
    exists m : Z,
      2 <= m <= k /\
      rename_loop taken base ext fuel 2 = Some (numbered_name base ext m) /\
      taken (numbered_name base ext m) = false /\
      forall j : Z, 2 <= j < m -> taken (numbered_name base ext j) = true.
Proof.
  intros taken base ext k fuel Hk Hfree Hfuel.
  now apply (rename_loop_from taken base ext fuel 2 k).
Qed.

Lemma rename_loop_least_witness :
  let taken := fun name => existsb (String.eqb name) ["talk 2.md"; "talk 3.md"] in
  taken (numbered_name "talk" ".md" 5) = false /\
  exists m : Z,
    2 <= m <= 5 /\
    rename_loop taken "talk" ".md" 10 2 = Some (numbered_name "talk" ".md" m) /\
    taken (numbered_name "talk" ".md" m) = false /\
    forall j : Z, 2 <= j < m -> taken (numbered_name "talk" ".md" j) = true.
Proof.
  split; [reflexivity |].
  apply (rename_loop_least
           (fun name => existsb (String.eqb name) ["talk 2.md"; "talk 3.md"])
           "talk" ".md" 5 10); [lia | reflexivity | simpl; lia].
Defined.

(** ** Degenerate caption texts *)

Lemma count_newlines_app (a b : string) :
  count_newlines (a ++ b) = (count_newlines a + count_newlines b)%nat.
Proof.
  induction a as [| c a IH]; [reflexivity |]. cbn [append count_newlines].
  rewrite IH. now destruct (c =? newline)%char.
Qed.

Lemma count_newlines_lstrip (s : string) :
  (count_newlines (lstrip s) <= count_newlines s)%nat.
Proof.
  induction s as [| c s IH]; [reflexivity |]. cbn [lstrip].
  destruct (is_space c); [| reflexivity]. cbn [count_newlines].
  destruct (c =? newline)%char; lia.
Qed.

Lemma count_newlines_rstrip (s : string) :
  (count_newlines (rstrip s) <= count_newlines s)%nat.
Proof.
  destruct (rstrip_is_prefix s) as [t Ht]. rewrite Ht at 2.
  rewrite count_newlines_app. lia.
Qed.

Lemma count_newlines_strip (s : string) :
  (count_newlines (strip s) <= count_newlines s)%nat.
Proof.
  unfold strip. pose proof (count_newlines_lstrip (rstrip s)).
  pose proof (count_newlines_rstrip s). lia.
Qed.

Lemma count_newlines_pieces (sep : string) (s : string) :
  forall skip,
    Forall (fun piece => (count_newlines piece <= count_newlines s)%nat)
      (split_from sep skip s).
Proof.
  induction s as [| c s IH]; intros skip; [repeat constructor |].
  assert (Hweak : forall l,
             Forall (fun piece => (count_newlines piece <= count_newlines s)%nat) l ->
             Forall (fun piece => (count_newlines piece <= count_newlines (String c s))%nat) l).
  { intros l. apply Forall_impl. intros piece H. cbn [count_newlines].
    destruct (c =? newline)%char; lia. }
  cbn [split_from]. destruct skip as [| k]; [| apply Hweak, IH].
  destruct (prefix sep (String c s)).
  - constructor; [simpl; lia | apply Hweak, IH].
  - specialize (IH O). destruct (split_from sep 0 s) as [| h t]; cbn [cons_head].
    + repeat constructor. cbn [count_newlines]. destruct (c =? newline)%char; lia.
    + inversion IH; subst. constructor; [| now apply Hweak].
      cbn [count_newlines]. destruct (c =? newline)%char; lia.
Qed.

Lemma length_split_nl (s : string) :
  List.length (split nl s) = S (count_newlines s).
Proof.
  unfold split. induction s as [| c s IH]; [reflexivity |].
  cbn [split_from count_newlines]. rewrite prefix_nl.
  destruct (c =? newline)%char.
  - cbn [String.length nl Nat.pred List.length]. now rewrite IH.
  - pose proof (split_from_nonempty nl s 0) as Hne.
    destruct (split_from nl 0 s) as [| h t]; [congruence |]. exact IH.
Qed.

Lemma parse_blocks_short (blocks : list string) (acc : list segment) :
  Forall (fun block => (count_newlines block < 2)%nat) blocks ->
  parse_blocks blocks acc = Ok acc.
Proof.
  induction 1 as [| block rest Hblock _ IH]; [reflexivity |].
  cbn [parse_blocks]. rewrite length_split_nl.
  pose proof (count_newlines_strip block).
  replace (3 <=? S (count_newlines (strip block)))%nat with false; [exact IH |].
  symmetry. apply Nat.leb_gt. lia.
Qed.

(** X10: a caption text with fewer than two line breaks, the empty text
    among them, has no block of three lines: [parse_srt] returns the empty
    list. *)
Theorem parse_srt_too_short :
  forall content : string,
    (count_newlines content < 2)%nat -> parse_srt content = Ok [].
Proof.
  intros content H. unfold parse_srt. apply parse_blocks_short.
  pose proof (count_newlines_strip content) as Hstrip.
  eapply Forall_impl; [| apply count_newlines_pieces].
  cbv beta. intros piece Hpiece. lia.
Qed.

Lemma parse_srt_too_short_witness :
  (count_newlines ("1" ++ nl ++ "00:00:01,000 --> 00:00:02,000") < 2)%nat /\
  parse_srt ("1" ++ nl ++ "00:00:01,000 --> 00:00:02,000") = Ok [].
Proof.
  split; [simpl; lia |]. apply parse_srt_too_short. simpl; lia.
Defined.

Lemma parse_blocks_length (blocks : list string) :
  forall acc segs,
    parse_blocks blocks acc = Ok segs ->
    (List.length acc <= List.length segs <= List.length acc + List.length blocks)%nat.
Proof.
  induction blocks as [| block rest IH]; intros acc segs H.
  - inversion H; subst. simpl. lia.
  - cbn [parse_blocks] in H. cbn [List.length].
    destruct (3 <=? List.length (split nl (strip block)))%nat;
      [| apply IH in H; lia].
    destruct (try_block (split nl (strip block))) as [[seg |] | e].
    + apply IH in H. rewrite List.length_app in H.
      cbn [List.length] in H. lia.
    + apply IH in H. lia.
    + destruct e; try discriminate; apply IH in H; lia.
Qed.

(** X11: a block gives at most one segment: the list that [parse_srt]
    returns is never longer than the list of blocks. *)
Theorem parse_srt_length :
  forall (content : string) (segs : list segment),
    parse_srt content = Ok segs ->
    (List.length segs <= List.length (blocks_of content))%nat.
Proof.
  intros content segs H. unfold parse_srt in H.
  apply parse_blocks_length in H. unfold blocks_of.
  cbn [List.length] in H. lia.
Qed.

Lemma parse_srt_length_witness :
  let content :=
    ("1" ++ nl ++ "00:00:01,000 --> 00:00:02,000" ++ nl ++ "one" ++ nl ++ nl
       ++ "no timing line" ++ nl ++ nl
       ++ "3" ++ nl ++ "00:00:03,000 --> 00:00:04,000" ++ nl ++ "three")%string in
  parse_srt content =
    Ok [timed_segment (Float.nearest 1) (Float.nearest 2) "one";
        timed_segment (Float.nearest 3) (Float.nearest 4) "three"] /\
  (2 <= List.length (blocks_of content))%nat.
Proof.
  cbv zeta.
  assert (H : parse_srt
            ("1" ++ nl ++ "00:00:01,000 --> 00:00:02,000" ++ nl ++ "one" ++ nl ++ nl
               ++ "no timing line" ++ nl ++ nl
               ++ "3" ++ nl ++ "00:00:03,000 --> 00:00:04,000" ++ nl ++ "three")%string =
            Ok [timed_segment (Float.nearest 1) (Float.nearest 2) "one";
                timed_segment (Float.nearest 3) (Float.nearest 4) "three"])
    by (vm_compute; reflexivity).
  split; [exact H |]. exact (parse_srt_length _ _ H).
Defined.

(** X12: the only exception that can leave [parse_srt] is
    [OverflowError]: [ValueError] and [IndexError] never do. *)
Theorem parse_srt_only_overflow :
  forall (content : string) (e : exn),
    parse_srt content = Raise e -> e = OverflowError.
Proof. exact parse_srt_raises. Qed.

Lemma parse_srt_only_overflow_witness :
  parse_srt oversized_block = Raise OverflowError /\
  OverflowError = OverflowError.
Proof.
  assert (H : parse_srt oversized_block = Raise OverflowError)
    by (vm_compute; reflexivity).
  split; [exact H |]. exact (parse_srt_only_overflow _ _ H).
Defined.

(** X13: a block of at least three lines whose second line does not hold
    the separator [" --> "] adds no segment, and the loop goes on with the
    next block. *)
Theorem block_without_separator_skipped :
  forall (block timing : string) (rest : list string) (acc : list segment),
    nth_error (split nl (strip block)) 1 = Some timing ->
    occurs " --> " timing = false ->
    parse_blocks (block :: rest) acc = parse_blocks rest acc.
Proof.
  intros block timing rest acc Hnth Hocc.
  apply parse_blocks_skips. right. left.
  apply (try_block_without_separator _ timing Hnth).
  now rewrite (split_no_occurrence _ _ Hocc).
Qed.

Lemma block_without_separator_skipped_witness :
  let block := ("1" ++ nl ++ "00:00:01,000 -> 00:00:02,000" ++ nl ++ "text")%string in
  nth_error (split nl (strip block)) 1 = Some "00:00:01,000 -> 00:00:02,000" /\
  occurs " --> " "00:00:01,000 -> 00:00:02,000" = false /\
  parse_blocks [block; plain_block] [] = parse_blocks [plain_block] [].
Proof.
  split; [reflexivity |]. split; [reflexivity |].
  apply (block_without_separator_skipped _ "00:00:01,000 -> 00:00:02,000");
    reflexivity.
Defined.

(** ** More on rendering *)

(** X14: without timestamps, rendering cannot fail on the segments: with a
    finite duration it returns the head followed by the paragraphs, each
    with its blank line, whatever the segments hold (absent keys, starts
    that are not numbers). *)
Theorem paragraph_mode_total :
  forall (today url : string) (info : video_info) (tr : transcription),
    Float.is_finite (get (vi_duration info) Float.zero) = true ->
    exists duration : string,
      format_duration (get (vi_duration info) Float.zero) = Ok duration /\
      generate_markdown today info tr url false =
      Ok (join nl
            (document_head (get (vi_title info) "Untitled Video") url duration today
               ++ with_separators
                    (group_paragraphs PARAGRAPH_GAP_SECONDS (get (tr_segments tr) [])))).
Proof.
  intros today url info tr Hdur.
  destruct (format_time_finite _ false Hdur) as [duration Hduration].
  exists duration. split; [exact Hduration |].
  unfold generate_markdown, markdown_lines, format_duration.
  rewrite Hduration. cbn [bind]. rewrite paragraph_loop_spec. reflexivity.
Qed.

Lemma paragraph_mode_total_witness :
  let info := mk_video_info None (Some (Float.nearest 125)) in
  let tr := mk_transcription
              (Some [mk_segment (Some S754_nan) None (Some " a ");
                     mk_segment None None None;
                     mk_segment (Some (S754_infinity false)) (Some S754_nan) (Some "b")]) in
  Float.is_finite (get (vi_duration info) Float.zero) = true /\
  exists duration : string,
    format_duration (get (vi_duration info) Float.zero) = Ok duration /\
    generate_markdown "2024-05-01" info tr "u" false =
    Ok (join nl
          (document_head (get (vi_title info) "Untitled Video") "u" duration "2024-05-01"
             ++ with_separators
                  (group_paragraphs PARAGRAPH_GAP_SECONDS (get (tr_segments tr) [])))).
Proof.
  split; [reflexivity |]. apply paragraph_mode_total. reflexivity.
Defined.

Lemma truthy_join (sep x : string) (l : list string) :
  truthy x = true -> truthy (join sep (x :: l)) = true.
Proof.
  intros Hx. destruct l as [| y l]; [exact Hx |].
  rewrite join_cons_nonempty by discriminate.
  destruct x; [discriminate | reflexivity].
Qed.

Lemma para_step_shape (gap : float) (st : para_state) (seg : segment) :
  Forall (fun p => truthy p = true) (paragraphs st) ->
  Forall (fun t => truthy t = true) (current_para st) ->
  let st' := para_step gap st seg in
  let k := List.length (kept_texts [seg]) in
  Forall (fun p => truthy p = true) (paragraphs st') /\
  Forall (fun t => truthy t = true) (current_para st') /\
  (List.length (paragraphs st') + List.length (current_para st')
   <= List.length (paragraphs st) + List.length (current_para st) + k)%nat /\
  (nonempty (current_para st') = nonempty (current_para st) || (0 <? k)%nat).
Proof.
  intros Hps Hcur. destruct st as [ps cur le]. cbv zeta.
  unfold para_step, kept_texts. cbn [map filter paragraphs current_para last_end] in *.
  assert (Hjoin : forall c l, cur = c :: l -> truthy (join " " cur) = true).
  { intros c l ->. inversion Hcur; subst. now apply truthy_join. }
  destruct (truthy (strip (get (seg_text seg) ""))) eqn:Et; cbn [negb].
  - destruct cur as [| c cur]; cbn [nonempty andb].
    + cbn [paragraphs current_para app List.length].
      repeat split; auto; lia.
    + destruct (Float.gt _ gap); cbn [paragraphs current_para List.length];
        repeat split; rewrite ?List.length_app; cbn [List.length app];
        try lia; try reflexivity; try assumption.
      * apply Forall_app. split; [exact Hps |]. constructor; [| constructor].
        now apply (Hjoin c cur).
      * now repeat constructor.
      * inversion Hcur; subst. constructor; [assumption |].
        apply Forall_app. split; [assumption |]. now constructor.
  - cbn [paragraphs current_para List.length].
    repeat split; auto; [lia | now rewrite orb_false_r].
Qed.

Lemma kept_texts_cons (seg : segment) (rest : list segment) :
  kept_texts (seg :: rest) = kept_texts [seg] ++ kept_texts rest.
Proof.
  unfold kept_texts. cbn [map filter].
  now destruct (truthy (strip (get (seg_text seg) ""))).
Qed.

Lemma fold_shape (gap : float) (segments : list segment) :
  forall st : para_state,
    Forall (fun p => truthy p = true) (paragraphs st) ->
    Forall (fun t => truthy t = true) (current_para st) ->
    let st' := fold_left (para_step gap) segments st in
    Forall (fun p => truthy p = true) (paragraphs st') /\
    Forall (fun t => truthy t = true) (current_para st') /\
    (List.length (paragraphs st') + List.length (current_para st')
     <= List.length (paragraphs st) + List.length (current_para st)
        + List.length (kept_texts segments))%nat /\
    (nonempty (current_para st') =
     nonempty (current_para st) || nonempty (kept_texts segments)).
Proof.
  induction segments as [| seg rest IH]; intros st Hps Hcur; cbv zeta.
  - cbn [fold_left]. repeat split; auto; [simpl; lia | now rewrite orb_false_r].
  - cbn [fold_left].
    destruct (para_step_shape gap st seg Hps Hcur) as (Hps1 & Hcur1 & Hlen1 & Hne1).
    destruct (IH _ Hps1 Hcur1) as (Hps2 & Hcur2 & Hlen2 & Hne2).
    rewrite kept_texts_cons. repeat split; auto.
    + rewrite List.length_app. lia.
    + rewrite Hne2, Hne1, <- orb_assoc. f_equal.
      destruct (kept_texts [seg]) as [| t l]; reflexivity.
Qed.

(** X15: whatever the segments and the threshold, no paragraph is empty,
    there are no more paragraphs than segments with a non-empty trimmed
    text, and there is no paragraph exactly when there is no such
    segment. *)
Theorem group_paragraphs_shape :
  forall (gap : float) (segments : list segment),
    Forall (fun p => truthy p = true) (group_paragraphs gap segments) /\
    (List.length (group_paragraphs gap segments)
     <= List.length (kept_texts segments))%nat /\
    (group_paragraphs gap segments = [] <-> kept_texts segments = []).
Proof.
  intros gap segments. rewrite group_paragraphs_flush.
  destruct (fold_shape gap segments
              {| paragraphs := []; current_para := []; last_end := Float.zero |}
              ltac:(constructor) ltac:(constructor)) as (Hps & Hcur & Hlen & Hne).
  cbv zeta in *. cbn [paragraphs current_para List.length nonempty orb] in Hlen, Hne.
  set (st := fold_left (para_step gap) segments _) in *.
  unfold flush. destruct (current_para st) as [| c cur] eqn:Ecur; cbn [nonempty] in *.
  - destruct (kept_texts segments) as [| t l]; [| discriminate].
    cbn [List.length] in Hlen.
    assert (Hnil : paragraphs st = []).
    { destruct (paragraphs st); [reflexivity | simpl in Hlen; lia]. }
    rewrite Hnil. repeat split; auto.
  - repeat split.
    + apply Forall_app. split; [exact Hps |]. constructor; [| constructor].
      inversion Hcur; subst. now apply truthy_join.
    + rewrite List.length_app. cbn [List.length] in *. lia.
    + intros E. destruct (paragraphs st); discriminate.
    + intros E. rewrite E in Hne. discriminate.
Qed.

Lemma timestamp_loop_appends (segments : list segment) :
  forall lines out : list string,
    timestamp_loop segments lines = Ok out ->
    exists body : list string, out = lines ++ with_separators body.
Proof.
  induction segments as [| seg rest IH]; intros lines out H.
  - inversion H; subst. exists []. simpl. now rewrite app_nil_r.
  - cbn [timestamp_loop] in H.
    destruct (truthy (strip (get (seg_text seg) ""))).
    + bind_inv H as stamp Hstamp. apply IH in H. destruct H as [body ->].
      exists ((stamp ++ " " ++ strip (get (seg_text seg) ""))%string :: body).
      cbn [with_separators flat_map]. now rewrite <- !app_assoc.
    + now apply IH.
Qed.

Lemma with_separators_end (body : list string) :
  body <> [] -> exists l, with_separators body = l ++ [""].
Proof.
  induction body as [| x body IH]; [congruence |]. intros _.
  destruct body as [| y body].
  - exists [x]. reflexivity.
  - destruct (IH ltac:(discriminate)) as [l Hl].
    exists (x :: "" :: l).
    change (with_separators (x :: y :: body))
      with (x :: "" :: with_separators (y :: body)).
    now rewrite Hl.
Qed.

Lemma join_nl_end (l : list string) :
  l <> [] -> join nl (l ++ [""]) = (join nl l ++ nl)%string.
Proof.
  intros Hl. rewrite join_app by (assumption || discriminate). reflexivity.
Qed.

(** X16: every document that [generate_markdown] returns begins with the
    title heading on a line of its own and ends with a line break. *)
Theorem document_frame :
  forall (today url : string) (info : video_info) (tr : transcription)
         (include_timestamps : bool) (doc : string),
    generate_markdown today info tr url include_timestamps = Ok doc ->
    exists rest : string,
      doc = ("# Transcript: " ++ get (vi_title info) "Untitled Video" ++ nl
               ++ rest ++ nl)%string.
Proof.
  intros today url info tr include_timestamps doc H.
  unfold generate_markdown in H. bind_inv H as lines Hlines. inversion H; subst.
  unfold markdown_lines in Hlines. bind_inv Hlines as d Hd.
  set (title_line := ("# Transcript: " ++ get (vi_title info) "Untitled Video")%string) in *.
  assert (Hshape : exists middle, lines = title_line :: middle ++ [""] /\ middle <> []).
  { destruct include_timestamps.
    - apply timestamp_loop_appends in Hlines. destruct Hlines as [body ->].
      destruct body as [| x body].
      + eexists. split; [| shelve]. cbn [with_separators flat_map app]. 
        instantiate (1 := [""; ("**Source:** " ++ url)%string;
                           ("**Duration:** " ++ d)%string;
                           ("**Transcribed:** " ++ today)%string; ""; "---"; "";
                           "## Transcript"]).
        reflexivity.
      + destruct (with_separators_end (x :: body) ltac:(discriminate)) as [l Hl].
        rewrite Hl. eexists. split; [| shelve].
        instantiate (1 := [""; ("**Source:** " ++ url)%string;
                           ("**Duration:** " ++ d)%string;
                           ("**Transcribed:** " ++ today)%string; ""; "---"; "";
                           "## Transcript"; ""] ++ l).
        cbn [app]. now rewrite <- ?app_assoc.
    - inversion Hlines; subst. rewrite paragraph_loop_spec.
      destruct (group_paragraphs _ _) as [| x body].
      + eexists. split; [| shelve]. cbn [with_separators flat_map app].
        instantiate (1 := [""; ("**Source:** " ++ url)%string;
                           ("**Duration:** " ++ d)%string;
                           ("**Transcribed:** " ++ today)%string; ""; "---"; "";
                           "## Transcript"]).
        reflexivity.
      + destruct (with_separators_end (x :: body) ltac:(discriminate)) as [l Hl].
        rewrite Hl. eexists. split; [| shelve].
        instantiate (1 := [""; ("**Source:** " ++ url)%string;
                           ("**Duration:** " ++ d)%string;
                           ("**Transcribed:** " ++ today)%string; ""; "---"; "";
                           "## Transcript"; ""] ++ l).
        cbn [app]. now rewrite <- ?app_assoc.
    Unshelve. all: discriminate. }
  destruct Hshape as (middle & -> & Hmid).
  exists (join nl middle).
  rewrite join_cons_nonempty by (destruct middle; discriminate).
  rewrite join_nl_end by exact Hmid.
  unfold title_line. now rewrite !append_assoc.
Qed.

Lemma document_frame_witness :
  let info := mk_video_info (Some "Talk") None in
  let tr := mk_transcription (Some [timed_segment Float.zero (Float.nearest 2) "Hello"]) in
  exists doc rest : string,
    generate_markdown "2024-05-01" info tr "u" true = Ok doc /\
    doc = ("# Transcript: " ++ get (vi_title info) "Untitled Video" ++ nl
             ++ rest ++ nl)%string.
Proof.
  cbv zeta.
  assert (H : exists doc,
             generate_markdown "2024-05-01" (mk_video_info (Some "Talk") None)
               (mk_transcription
                  (Some [timed_segment Float.zero (Float.nearest 2) "Hello"]))
               "u" true = Ok doc) by (eexists; vm_compute; reflexivity).
  destruct H as [doc H]. exists doc.
  destruct (document_frame _ _ _ _ _ _ H) as [rest Hrest].
  exists rest. split; [exact H | exact Hrest].
Defined.

(** ** Rendering what was parsed *)

Lemma parsed_segments_text (content : string) (segs : list segment) :
  parse_srt content = Ok segs ->
  Forall (fun seg =>
            exists start end_ text,
              seg = timed_segment start end_ text /\
              strip text = text /\ truthy text = true) segs.
Proof.
  intros H. unfold parse_srt in H.
  eapply parse_blocks_invariant; [| constructor | exact H].
  intros lines seg Hseg.
  destruct (try_block_text lines seg Hseg) as (start & end_ & text & -> & Htext & Hne).
  exists start, end_, text. repeat split; [| exact Hne].
  rewrite Htext. apply strip_idempotent.
Qed.

(** X17: rendering after parsing loses no caption: no segment that
    [parse_srt] returns is skipped by [generate_markdown], and the
    paragraphs, joined with single spaces, are the texts of all the parsed
    segments in order, whatever the threshold. *)
Theorem parsed_segments_all_rendered :
  forall (content : string) (segs : list segment) (gap : float),
    parse_srt content = Ok segs ->
    kept_segments segs = segs /\
    join " " (group_paragraphs gap segs) =
    join " " (map (fun seg => get (seg_text seg) "") segs).
Proof.
  intros content segs gap H. apply parsed_segments_text in H.
  assert (Hkept : kept_segments segs = segs /\
                  kept_texts segs = map (fun seg => get (seg_text seg) "") segs).
  { unfold kept_segments, kept_texts.
    induction H as [| seg rest (start & end_ & text & -> & Htrim & Hne) _ [IH1 IH2]];
      [split; reflexivity |].
    cbn [map filter timed_segment seg_text get].
    rewrite Htrim, Hne. cbn [filter map seg_text get] in *.
    now rewrite IH1, IH2. }
  destruct Hkept as [Hsegs Htexts]. split; [exact Hsegs |].
  rewrite group_paragraphs_flush, fold_conserves_text. cbn [paragraphs current_para app].
  now rewrite Htexts.
Qed.

Lemma parsed_segments_all_rendered_witness :
  let content :=
    ("1" ++ nl ++ "00:00:01,000 --> 00:00:02,000" ++ nl ++ "one" ++ nl ++ nl
       ++ "2" ++ nl ++ "00:00:09,000 --> 00:00:10,000" ++ nl ++ " two ")%string in
  exists segs : list segment,
    parse_srt content = Ok segs /\
    kept_segments segs = segs /\
    join " " (group_paragraphs PARAGRAPH_GAP_SECONDS segs) = "one two".
Proof.
  cbv zeta.
  assert (H : exists segs,
             parse_srt
               ("1" ++ nl ++ "00:00:01,000 --> 00:00:02,000" ++ nl ++ "one" ++ nl ++ nl
                  ++ "2" ++ nl ++ "00:00:09,000 --> 00:00:10,000" ++ nl ++ " two ")%string
             = Ok segs /\
             join " " (map (fun seg => get (seg_text seg) "") segs) = "one two")
    by (eexists; split; vm_compute; reflexivity).
  destruct H as (segs & H & Htexts). exists segs.
  destruct (parsed_segments_all_rendered _ _ PARAGRAPH_GAP_SECONDS H) as [Hkept Hjoin].
  split; [exact H |]. split; [exact Hkept |]. now rewrite Hjoin.
Defined.

(** ** Whole seconds of a parsed timestamp *)

Lemma shr_1_half (mrs : shr_record) :
  0 <= shr_m mrs -> shr_m (shr_1 mrs) = shr_m mrs / 2.
Proof.
  destruct mrs as [m r s]. cbn [shr_m]. intros Hm.
  destruct m as [| [p | p |] | p]; try lia; cbn [shr_1 shr_m].
  - reflexivity.
  - rewrite Pos2Z.inj_xI. apply Z.div_unique with (r := 1); lia.
  - rewrite Pos2Z.inj_xO. apply Z.div_unique with (r := 0); lia.
  - reflexivity.
Qed.

Lemma iter_shr_1 (p : positive) :
  forall mrs : shr_record,
    0 <= shr_m mrs -> shr_m (iter_pos shr_1 p mrs) = shr_m mrs / 2 ^ Zpos p.
Proof.
  induction p as [p IH | p IH |]; intros mrs Hm; cbn [iter_pos].
  - assert (H1 : 0 <= shr_m (shr_1 mrs))
      by (rewrite shr_1_half by assumption; apply Z.div_pos; lia).
    assert (H2 : 0 <= shr_m (iter_pos shr_1 p (shr_1 mrs)))
      by (rewrite IH by assumption; apply Z.div_pos; [| apply Z.pow_pos_nonneg]; lia).
    rewrite IH, IH, shr_1_half by assumption.
    rewrite !Z.div_div by (try apply Z.pow_pos_nonneg; lia).
    f_equal. rewrite Pos2Z.inj_xI.
    replace (2 * Zpos p + 1) with (1 + Zpos p + Zpos p) by lia.
    rewrite !Z.pow_add_r by lia. lia.
  - assert (H2 : 0 <= shr_m (iter_pos shr_1 p mrs))
      by (rewrite IH by assumption; apply Z.div_pos; [| apply Z.pow_pos_nonneg]; lia).
    rewrite IH, IH by assumption.
    rewrite !Z.div_div by (try apply Z.pow_pos_nonneg; lia).
    f_equal. replace (Zpos p~0) with (Zpos p + Zpos p) by lia.
    rewrite !Z.pow_add_r by lia. lia.
  - rewrite shr_1_half by assumption. reflexivity.
Qed.

Lemma round_nearest_even_bounds (m : Z) (l : location) :
  m <= round_nearest_even m l <= m + 1.
Proof.
  destruct l as [| []]; cbn [round_nearest_even]; try lia.
  destruct (Z.even m); lia.
Qed.

Lemma iter_xO (p k : positive) : Zpos (Pos.iter xO p k) = Zpos p * 2 ^ Zpos k.
Proof.
  induction k as [| k IH] using Pos.peano_ind.
  - cbn [Pos.iter]. lia.
  - rewrite Pos.iter_succ, Pos2Z.inj_succ, Z.pow_succ_r by lia.
    change (Zpos (Pos.iter xO p k)~0) with (2 * Zpos (Pos.iter xO p k)). lia.
Qed.

Lemma nearest_exact (p : positive) :
  Zpos p < 2 ^ 53 ->
  exists m, Float.nearest (Zpos p) = S754_finite false m (Z.log2 (Zpos p) - 52) /\
            Zpos m = Zpos p * 2 ^ (52 - Z.log2 (Zpos p)).
Proof.
  intros Hp. pose proof (digits2_bound p 53 ltac:(lia) Hp) as Hd.
  assert (HL : Zpos (digits2_pos p) = Z.log2 (Zpos p) + 1)
    by (rewrite digits2_size; apply size_log2).
  unfold Float.nearest, binary_normalize, binary_round.
  assert (Hf : fexp Float.prec Float.emax (Zpos (digits2_pos p) + 0) =
               Zpos (digits2_pos p) - 53).
  { unfold fexp, emin, Float.prec, Float.emax. lia. }
  rewrite Hf. unfold shl_align.
  destruct (Zpos (digits2_pos p) - 53 - 0) as [| k | k] eqn:E; try lia.
  - rewrite round_canonical; [| unfold Float.prec; lia | lia].
    exists p. replace (Z.log2 (Zpos p) - 52) with 0 by lia.
    replace (52 - Z.log2 (Zpos p)) with 0 by lia. split; [reflexivity | lia].
  - rewrite round_canonical; [| rewrite digits2_shift; unfold Float.prec; lia | lia].
    exists (Pos.iter xO p k). split; [f_equal; lia |].
    rewrite iter_xO. f_equal. f_equal. lia.
Qed.

Lemma add_fraction (pn mq : positive) (eq : Z) :
  Zpos pn < 2 ^ 30 -> -1074 <= eq <= -53 ->
  Zpos mq * 1024 <= 1023 * 2 ^ (- eq) ->
  Float.to_int (Float.add (Float.nearest (Zpos pn)) (S754_finite false mq eq)) =
  Ok (Zpos pn).
Proof.
  intros Hn Heq Hq.
  destruct (nearest_exact pn ltac:(lia)) as (mn & -> & Hmn).
  pose proof (Z.log2_spec (Zpos pn) ltac:(lia)) as HL.
  assert (HL30 : 0 <= Z.log2 (Zpos pn) < 30).
  { split; [apply Z.log2_nonneg | apply Z.log2_lt_pow2; lia]. }
  set (L := Z.log2 (Zpos pn)) in *.
  set (en := L - 52).
  assert (Hk : exists k, en - eq = Zpos k)
    by (destruct (en - eq) as [| k | k] eqn:E; try lia; eauto).
  destruct Hk as [k Hk].
  set (E := 2 ^ (52 - L)) in *. set (K := 2 ^ Zpos k).
  assert (HE : 2 ^ L * E = 2 ^ 52)
    by (unfold E; rewrite <- Z.pow_add_r by lia; f_equal; lia).
  assert (HE' : 2 ^ (L + 1) * E = 2 ^ 53)
    by (unfold E; rewrite <- Z.pow_add_r by lia; f_equal; lia).
  assert (HE23 : 2 ^ 23 <= E) by (apply Z.pow_le_mono_r; lia).
  assert (HK : 0 < K) by (apply Z.pow_pos_nonneg; lia).
  assert (HKE : 2 ^ (- eq) = K * E).
  { unfold K, E. rewrite <- Z.pow_add_r by lia. f_equal. lia. }
  assert (H52 : 2 ^ (52 + Zpos k) = 2 ^ 52 * K)
    by (unfold K; apply Z.pow_add_r; lia).
  assert (H53 : 2 ^ (52 + Zpos k + 1) = 2 ^ 53 * K).
  { unfold K. replace (52 + Zpos k + 1) with (53 + Zpos k) by lia.
    apply Z.pow_add_r; lia. }
  rewrite HKE in Hq.
  assert (E23 : 2 ^ 23 = 8388608) by reflexivity.
  assert (E52 : 2 ^ 52 = 4503599627370496) by reflexivity.
  assert (E53 : 2 ^ 53 = 9007199254740992) by reflexivity.
  assert (Hmn52 : 2 ^ 52 <= Zpos mn) by nia.
  assert (Hmn53 : Zpos mn + E <= 2 ^ 53) by nia.
  unfold Float.add, SFadd. cbn [cond_Zopp].
  fold en. rewrite Z.min_r by lia.
  unfold shl_align at 1 2. rewrite Z.sub_diag.
  replace (eq - en) with (Zneg k) by lia. cbn [fst Z.add].
  set (M := (Pos.iter xO mn k + mq)%positive).
  assert (HM : Zpos M = Zpos mn * K + Zpos mq)
    by (unfold M; rewrite Pos2Z.inj_add, iter_xO; reflexivity).
  assert (HMlog : Z.log2 (Zpos M) = 52 + Zpos k).
  { apply Z.log2_unique; [lia |]. unfold Z.succ. rewrite H52, H53. nia. }
  assert (HMd : Zpos (digits2_pos M) = 53 + Zpos k)
    by (rewrite digits2_size, size_log2; lia).
  unfold binary_normalize, binary_round.
  assert (Hf : fexp Float.prec Float.emax (Zpos (digits2_pos M) + eq) = en)
    by (unfold fexp, emin, Float.prec, Float.emax; lia).
  rewrite Hf. unfold shl_align. rewrite Hk.
  unfold binary_round_aux, shr_fexp. cbn [Zdigits2]. rewrite Hf.
  replace (en - eq) with (Zpos k) by lia. cbn [shr shr_record_of_loc].
  set (mrs := iter_pos shr_1 k _).
  assert (Hmrs : shr_m mrs = Zpos mn + Zpos mq / K).
  { unfold mrs. rewrite iter_shr_1 by (cbn [shr_m]; lia). cbn [shr_m].
    fold K. rewrite HM.
    replace (Zpos mn * K + Zpos mq) with (Zpos mq + Zpos mn * K) by lia.
    rewrite Z.div_add by lia. lia. }
  pose proof (round_nearest_even_bounds (shr_m mrs) (loc_of_shr_record mrs)) as Hr.
  pose proof (Z.mul_div_le (Zpos mq) K HK) as Hdiv.
  assert (Hq0 : 0 <= Zpos mq / K) by (apply Z.div_pos; lia).
  assert (Hq1 : 1024 * (Zpos mq / K) <= 1023 * E) by nia.
  destruct (round_nearest_even (shr_m mrs) (loc_of_shr_record mrs))
    as [| m1 | m1]; try lia.
  assert (Hm1 : Zpos (digits2_pos m1) = 53).
  { rewrite digits2_size, size_log2.
    rewrite (Z.log2_unique (Zpos m1) 52); [reflexivity | lia |].
    change (2 ^ Z.succ 52) with (2 ^ 53). lia. }
  assert (Hf1 : fexp Float.prec Float.emax (Zdigits2 (Zpos m1) + (eq + Zpos k))
                - (eq + Zpos k) = 0)
    by (cbn [Zdigits2]; unfold fexp, emin, Float.prec, Float.emax; lia).
  rewrite Hf1. cbn [shr shr_m].
  replace (eq + Zpos k <=? Float.emax - Float.prec) with true
    by (symmetry; apply Z.leb_le; unfold Float.emax, Float.prec; lia).
  unfold Float.to_int.
  replace (0 <=? eq + Zpos k) with false by (symmetry; apply Z.leb_gt; lia).
  f_equal. replace (- (eq + Zpos k)) with (52 - L) by lia. fold E.
  symmetry. apply Z.div_unique with (r := Zpos m1 - E * Zpos pn); nia.
Qed.

Lemma millis_below_one (ms : Z) :
  0 <= ms < 1000 ->
  below_one (SFdiv Float.prec Float.emax (Float.exact ms) (Float.exact 1000)) = true.
Proof.
  intros Hms.
  exact (all_between_spec
           (fun ms => below_one
              (SFdiv Float.prec Float.emax (Float.exact ms) (Float.exact 1000)))
           12 0 1000 ltac:(vm_compute; reflexivity) ms Hms).
Qed.

Lemma to_int_nearest (n : Z) :
  0 <= n < 2 ^ 30 -> Float.to_int (Float.nearest n) = Ok n.
Proof.
  intros Hn. destruct n as [| p | p]; [reflexivity | | lia].
  destruct (nearest_exact p ltac:(lia)) as (m & -> & Hm).
  assert (HL : Z.log2 (Zpos p) < 30) by (apply Z.log2_lt_pow2; lia).
  pose proof (Z.log2_nonneg (Zpos p)) as HL0.
  unfold Float.to_int.
  replace (0 <=? Z.log2 (Zpos p) - 52) with false by (symmetry; apply Z.leb_gt; lia).
  f_equal. replace (- (Z.log2 (Zpos p) - 52)) with (52 - Z.log2 (Zpos p)) by lia.
  rewrite Hm. apply Z.div_mul. apply Z.pow_nonzero; lia.
Qed.

Lemma add_below_one (n : Z) (q : Float.float) :
  0 <= n < 2 ^ 30 -> below_one q = true ->
  Float.to_int (Float.add (Float.nearest n) q) = Ok n.
Proof.
  intros Hn Hq. destruct q as [s | s | | [] mq eq]; try discriminate.
  - destruct n as [| p | p]; [destruct s; reflexivity | | lia].
    pose proof (to_int_nearest (Zpos p) Hn) as H.
    destruct (nearest_exact p ltac:(lia)) as (m & E & _).
    rewrite E in *. exact H.
  - cbn [below_one] in Hq. apply andb_prop in Hq as [Hq H3].
    apply andb_prop in Hq as [H1 H2].
    apply Z.leb_le in H1, H2, H3.
    destruct n as [| p | p]; [| apply add_fraction; lia | lia].
    change (Float.add (Float.nearest 0) (S754_finite false mq eq))
      with (S754_finite false mq eq).
    unfold Float.to_int.
    replace (0 <=? eq) with false by (symmetry; apply Z.leb_gt; lia).
    f_equal. apply Z.div_small.
    assert (0 < 2 ^ (- eq)) by (apply Z.pow_pos_nonneg; lia). lia.
Qed.

Lemma srt_seconds_whole (t : srt_time) :
  valid_time t ->
  Float.to_int (srt_seconds t) =
  Ok (t_hours t * 3600 + t_minutes t * 60 + t_seconds t).
Proof.
  intros (Hh & Hm & Hs & Hms). unfold srt_seconds.
  apply add_below_one; [| apply millis_below_one; assumption].
  change (2 ^ 30) with 1073741824. lia.
Qed.

(** X18: the milliseconds never carry into the seconds. For a timestamp
    [HH:MM:SS,mmm] of two-digit fields and three-digit milliseconds,
    [parse_srt_timestamp] returns a float whose integer part is exactly
    [H*3600 + M*60 + S], also for [,999]. *)
Theorem parse_srt_timestamp_whole_seconds :
  forall t : srt_time,
    valid_time t ->
    exists x : Float.float,
      parse_srt_timestamp (render_time t) = Ok x /\
      Float.to_int x = Ok (t_hours t * 3600 + t_minutes t * 60 + t_seconds t).
Proof.
  intros t Ht. exists (srt_seconds t).
  split; [apply parse_render_time | apply srt_seconds_whole]; assumption.
Qed.

Lemma parse_srt_timestamp_whole_seconds_witness :
  exists x : Float.float,
    parse_srt_timestamp "01:02:03,999" = Ok x /\ Float.to_int x = Ok 3723.
Proof.
  apply (parse_srt_timestamp_whole_seconds (mk_srt_time 1 2 3 999)).
  unfold valid_time. cbn [t_hours t_minutes t_seconds t_millis]. lia.
Defined.

Lemma format_timestamp_srt_seconds (t : srt_time) :
  valid_time t -> t_minutes t < 60 -> t_seconds t < 60 ->
  format_timestamp (srt_seconds t) = Ok (clock_of t).
Proof.
  intros Ht Hm60 Hs60. unfold format_timestamp.
  rewrite (format_time_of_total _ _ true (srt_seconds_whole t Ht)).
  destruct Ht as (Hh & Hm & Hs & _). unfold clock_digits, clock_of.
  set (total := t_hours t * 3600 + t_minutes t * 60 + t_seconds t).
  assert (E1 : total / 3600 = t_hours t).
  { symmetry. apply Z.div_unique with (r := t_minutes t * 60 + t_seconds t);
      unfold total; lia. }
  assert (E2 : total mod 3600 / 60 = t_minutes t).
  { replace (total mod 3600) with (t_minutes t * 60 + t_seconds t)
      by (apply Z.mod_unique with (q := t_hours t); unfold total; lia).
    symmetry. apply Z.div_unique with (r := t_seconds t); lia. }
  assert (E3 : total mod 60 = t_seconds t).
  { symmetry. apply Z.mod_unique with (q := t_hours t * 60 + t_minutes t);
      unfold total; lia. }
  rewrite E1, E2, E3.
  destruct (0 <? t_hours t); rewrite !append_assoc; reflexivity.
Qed.

(** X19: parsing a timestamp [HH:MM:SS,mmm] with minutes and seconds
    below 60 and formatting the result with [format_timestamp] shows the
    caption's own hours, minutes and seconds: ["[H:MM:SS]"] when the hours
    are positive, ["[M:SS]"] otherwise, the milliseconds dropped. *)
Theorem timestamp_round_trip :
  forall t : srt_time,
    valid_time t -> t_minutes t < 60 -> t_seconds t < 60 ->
    (x <- parse_srt_timestamp (render_time t) ;; format_timestamp x) =
    Ok (if 0 <? t_hours t
        then ("[" ++ Int.to_string (t_hours t) ++ ":" ++ two_digits (t_minutes t)
                  ++ ":" ++ two_digits (t_seconds t) ++ "]")%string
        else ("[" ++ Int.to_string (t_minutes t) ++ ":"
                  ++ two_digits (t_seconds t) ++ "]")%string).
Proof.
  intros t Ht Hm60 Hs60.
  rewrite (parse_render_time t Ht). cbn [bind].
  now apply format_timestamp_srt_seconds.
Qed.

Lemma timestamp_round_trip_witness :
  (x <- parse_srt_timestamp "00:59:59,999" ;; format_timestamp x) = Ok "[59:59]" /\
  (x <- parse_srt_timestamp "01:02:03,004" ;; format_timestamp x) = Ok "[1:02:03]".
Proof.
  split.
  - apply (timestamp_round_trip (mk_srt_time 0 59 59 999));
      unfold valid_time; cbn [t_hours t_minutes t_seconds t_millis]; lia.
  - apply (timestamp_round_trip (mk_srt_time 1 2 3 4));
      unfold valid_time; cbn [t_hours t_minutes t_seconds t_millis]; lia.
Defined.

(** ** Files of several captions *)

Lemma ends_with_newline_app (a b : string) :
  b <> "" -> ends_with_newline (a ++ b) = ends_with_newline b.
Proof.
  intros Hb. induction a as [| c a IH]; [reflexivity |].
  cbn [append ends_with_newline].
  destruct (a ++ b)%string eqn:E; [| exact IH].
  destruct a; [simpl in E; congruence | discriminate].
Qed.

Lemma ends_with_newline_line (s : string) :
  is_line s = true -> ends_with_newline s = false.
Proof.
  unfold is_line. induction s as [| c s IH]; [reflexivity |].
  cbn [all_chars ends_with_newline]. intros H. apply andb_prop in H as [Hc Hs].
  destruct s; [now apply negb_true_iff in Hc | auto].
Qed.

Lemma ends_with_newline_rstrip (s : string) : ends_with_newline (rstrip s) = false.
Proof.
  induction s as [| c s IH]; [reflexivity |]. cbn [rstrip].
  destruct (rstrip s) as [| c' r] eqn:E.
  - destruct (is_space c) eqn:Ec; [reflexivity |]. cbn [ends_with_newline].
    destruct (c =? newline)%char eqn:En; [| reflexivity].
    apply Ascii.eqb_eq in En. subst c. discriminate.
  - exact IH.
Qed.

Lemma ends_with_newline_lstrip (s : string) :
  ends_with_newline s = false -> ends_with_newline (lstrip s) = false.
Proof.
  induction s as [| c s IH]; [reflexivity |]. cbn [lstrip]. intros H.
  destruct (is_space c); [| exact H].
  destruct s; [reflexivity | auto].
Qed.

Lemma ends_with_newline_join (ls : list string) :
  Forall text_line ls -> ends_with_newline (join nl ls) = false.
Proof.
  induction ls as [| l ls IH]; [reflexivity |]. intros H.
  inversion H as [| ? ? [Hl Hne] Hls]; subst.
  destruct ls as [| l' ls]; [now apply ends_with_newline_line |].
  rewrite join_cons_nonempty by discriminate.
  assert (Hj : join nl (l' :: ls) <> "").
  { inversion Hls as [| ? ? [_ Hne'] _]; subst.
    destruct l'; [congruence |]. destruct ls; discriminate. }
  rewrite ends_with_newline_app.
  - rewrite ends_with_newline_app by exact Hj. now apply IH.
  - discriminate.
Qed.

Lemma unbroken_sealed (a tail : string) :
  occurs (nl ++ nl) a = false -> ends_with_newline a = false ->
  unbroken (nl ++ nl) a (nl ++ tail) = true.
Proof.
  induction a as [| c a IH]; [reflexivity |]. intros Hocc Hend.
  cbn [occurs] in Hocc. apply orb_false_elim in Hocc as [Hpre Hocc].
  cbn [unbroken]. rewrite IH; [| exact Hocc | destruct a; [reflexivity | exact Hend]].
  rewrite andb_true_r. apply negb_true_iff.
  change ((nl ++ nl)%string) with (String newline nl) in *.
  change ((String c a ++ nl ++ tail)%string) with (String c (a ++ nl ++ tail)).
  destruct (c =? newline)%char eqn:Ec; [| now apply prefix_head_neq].
  apply Ascii.eqb_eq in Ec. subst c. rewrite prefix_head_eq in *.
  destruct a as [| c' a]; [discriminate |].
  change ((String c' a ++ nl ++ tail)%string) with (String c' (a ++ nl ++ tail)).
  rewrite prefix_nl in *. exact Hpre.
Qed.

Lemma split_join_sealed (pieces : list string) :
  pieces <> [] -> Forall sealed pieces ->
  split (nl ++ nl) (join (nl ++ nl) pieces) = pieces.
Proof.
  induction pieces as [| p rest IH]; [congruence |]. intros _ H.
  inversion H as [| ? ? (Hocc & Hend & _) Hrest]; subst.
  destruct rest as [| q rest]; [now apply split_no_occurrence |].
  rewrite join_cons_nonempty by discriminate.
  change ((nl ++ nl)%string) with (String newline nl) at 1 2.
  rewrite split_app.
  - change (String newline nl) with ((nl ++ nl)%string).
    rewrite IH; [reflexivity | discriminate | exact Hrest].
  - change (String newline nl) with ((nl ++ nl)%string).
    rewrite append_assoc. now apply unbroken_sealed.
Qed.

Lemma blank_app (a b : string) : blank (a ++ b) = blank a && blank b.
Proof. apply all_chars_app. Qed.

Lemma blank_join (sep p : string) (rest : list string) :
  blank p = false -> blank (join sep (p :: rest)) = false.
Proof.
  intros Hp. destruct rest; [exact Hp |].
  rewrite join_cons_nonempty by discriminate. now rewrite blank_app, Hp.
Qed.

Lemma rstrip_join (sep : string) (l : list string) :
  Forall (fun p => blank p = false) l ->
  rstrip (join sep l) = join sep (map_last rstrip l).
Proof.
  induction l as [| p rest IH]; [reflexivity |]. intros H.
  inversion H as [| ? ? Hp Hrest]; subst.
  destruct rest as [| q rest]; [reflexivity |].
  change (map_last rstrip (p :: q :: rest)) with (p :: map_last rstrip (q :: rest)).
  assert (Hne : map_last rstrip (q :: rest) <> [])
    by (cbn [map_last]; destruct rest; discriminate).
  rewrite (join_cons_nonempty sep p (q :: rest)) by discriminate.
  rewrite (join_cons_nonempty sep p (map_last rstrip (q :: rest))) by exact Hne.
  rewrite <- IH by exact Hrest.
  inversion Hrest as [| ? ? Hq _]; subst.
  assert (Hj : rstrip (join sep (q :: rest)) <> "")
    by apply rstrip_visible, blank_join, Hq.
  rewrite <- !append_assoc. apply rstrip_app, Hj.
Qed.

Lemma lstrip_join (sep p : string) (rest : list string) :
  blank p = false ->
  lstrip (join sep (p :: rest)) = join sep (lstrip p :: rest).
Proof.
  intros Hp. destruct rest; [reflexivity |].
  rewrite !join_cons_nonempty by discriminate.
  apply lstrip_app, lstrip_visible, Hp.
Qed.

Lemma map_last_head_blank (l : list string) :
  Forall (fun p => blank p = false) l ->
  Forall (fun p => blank p = false) (map_last rstrip l).
Proof.
  induction l as [| p rest IH]; [constructor |]. intros H.
  inversion H as [| ? ? Hp Hrest]; subst.
  destruct rest as [| q rest].
  - constructor; [now rewrite blank_rstrip | constructor].
  - change (map_last rstrip (p :: q :: rest)) with (p :: map_last rstrip (q :: rest)).
    constructor; auto.
Qed.

Lemma strip_join (sep : string) (l : list string) :
  Forall (fun p => blank p = false) l ->
  strip (join sep l) = join sep (map_head lstrip (map_last rstrip l)).
Proof.
  intros H. unfold strip. rewrite rstrip_join by exact H.
  apply map_last_head_blank in H.
  destruct (map_last rstrip l) as [| p rest]; [reflexivity |].
  inversion H; subst. now apply lstrip_join.
Qed.

Lemma lstrip_rstrip (s : string) : lstrip (rstrip s) = rstrip (lstrip s).
Proof.
  induction s as [| c s IH]; [reflexivity |]. cbn [lstrip rstrip].
  destruct (is_space c) eqn:Ec.
  - rewrite <- IH. destruct (rstrip s) as [| c' r]; cbn [lstrip]; now rewrite ?Ec.
  - cbn [rstrip]. destruct (rstrip s) as [| c' r]; cbn [lstrip]; now rewrite ?Ec.
Qed.

Lemma strip_rstrip (s : string) : strip (rstrip s) = strip s.
Proof. unfold strip. now rewrite rstrip_idempotent. Qed.

Lemma strip_lstrip (s : string) : strip (lstrip s) = strip s.
Proof. unfold strip. now rewrite <- lstrip_rstrip, lstrip_idempotent. Qed.

Lemma sealed_rstrip (p : string) : sealed p -> sealed (rstrip p).
Proof.
  intros (Hocc & Hend & Hb). repeat split.
  - now apply occurs_rstrip.
  - apply ends_with_newline_rstrip.
  - now rewrite blank_rstrip.
Qed.

Lemma blank_lstrip (s : string) : blank (lstrip s) = blank s.
Proof.
  unfold blank. induction s as [| c s IH]; [reflexivity |]. cbn [lstrip].
  destruct (is_space c) eqn:Ec; [| reflexivity].
  cbn [all_chars]. now rewrite Ec, IH.
Qed.

Lemma sealed_lstrip (p : string) : sealed p -> sealed (lstrip p).
Proof.
  intros (Hocc & Hend & Hb). repeat split.
  - now apply occurs_lstrip.
  - now apply ends_with_newline_lstrip.
  - now rewrite blank_lstrip.
Qed.

(** Trimming the whole file trims its first and its last piece only, and
    each piece keeps its own trimmed form. *)
Lemma trimmed_pieces (l : list string) :
  Forall sealed l ->
  Forall sealed (map_head lstrip (map_last rstrip l)) /\
  map strip (map_head lstrip (map_last rstrip l)) = map strip l.
Proof.
  intros H.
  assert (H1 : Forall sealed (map_last rstrip l) /\
               map strip (map_last rstrip l) = map strip l).
  { induction H as [| p rest Hp Hrest [IH1 IH2]]; [split; [constructor | reflexivity] |].
    destruct rest as [| q rest].
    - split; [constructor; [now apply sealed_rstrip | constructor] |].
      cbn [map_last map]. now rewrite strip_rstrip.
    - change (map_last rstrip (p :: q :: rest)) with (p :: map_last rstrip (q :: rest)).
      split; [constructor; assumption |]. cbn [map]. cbn [map] in IH2. now rewrite IH2. }
  destruct H1 as [H1 H2]. rewrite <- H2.
  destruct (map_last rstrip l) as [| p rest]; [split; [constructor | reflexivity] |].
  inversion H1; subst. cbn [map_head map]. split.
  - constructor; [now apply sealed_lstrip | assumption].
  - now rewrite strip_lstrip.
Qed.

Lemma blocks_of_joined (l : list string) :
  l <> [] -> Forall sealed l ->
  map strip (blocks_of (join (nl ++ nl) l)) = map strip l.
Proof.
  intros Hne H. unfold blocks_of.
  rewrite strip_join by (eapply Forall_impl; [| exact H]; now intros p (_ & _ & Hb)).
  destruct (trimmed_pieces l H) as [H1 H2].
  rewrite split_join_sealed; [exact H2 | | exact H1].
  destruct l as [| p rest]; [congruence |].
  cbn [map_last]. destruct rest; discriminate.
Qed.

Lemma parse_blocks_trimmed (l1 : list string) :
  forall l2 acc,
    map strip l1 = map strip l2 -> parse_blocks l1 acc = parse_blocks l2 acc.
Proof.
  induction l1 as [| p l1 IH]; intros [| q l2] acc H; try discriminate; [reflexivity |].
  cbn [map] in H. injection H as Hp Hrest. cbn [parse_blocks]. rewrite Hp.
  destruct (3 <=? List.length (split nl (strip q)))%nat; [| now apply IH].
  destruct (try_block (split nl (strip q))) as [[seg |] | []];
    reflexivity || now apply IH.
Qed.

Lemma sealed_block (c : caption) : well_formed c -> sealed (block_of c).
Proof.
  intros (Hline & Hidx & H1 & H2 & Hlines & Htext). unfold block_of.
  assert (Hall : Forall text_line
            (cap_index c :: timing_line (cap_start c) (cap_end c) "" "" :: cap_lines c)).
  { constructor; [| constructor; [| exact Hlines]].
    - split; [exact Hline |]. intros E. rewrite E in Hidx. discriminate.
    - split; [now apply timing_line_is_line | apply timing_line_visible]. }
  repeat split.
  - now apply occurs_join_lines.
  - now apply ends_with_newline_join.
  - unfold caption_block. apply blank_join, strip_visible, Hidx.
Qed.

Lemma parse_blocks_captions (caps : list caption) :
  Forall well_formed caps ->
  forall acc, parse_blocks (map block_of caps) acc = Ok (acc ++ map segment_of caps).
Proof.
  induction 1 as [| c caps (Hline & Hidx & H1 & H2 & Hlines & Htext) _ IH]; intros acc.
  - cbn [map parse_blocks]. now rewrite app_nil_r.
  - cbn [map parse_blocks]. unfold block_of at 1 2.
    rewrite caption_block_lines by (assumption || reflexivity).
    replace (3 <=? List.length _)%nat with true.
    2:{ symmetry. apply Nat.leb_le. cbn [List.length].
        pose proof (split_from_nonempty nl (rstrip (join nl (cap_lines c))) 0) as H.
        unfold split. destruct (split_from nl 0 _); [congruence | simpl; lia]. }
    rewrite try_block_caption by (assumption || reflexivity). cbn [skipn].
    rewrite caption_block_text, Htext by assumption.
    rewrite IH, <- app_assoc. reflexivity.
Qed.

Lemma parse_srt_captions :
  forall caps : list caption,
    Forall well_formed caps ->
    parse_srt (srt_file caps) = Ok (map segment_of caps).
Proof.
  intros caps H. destruct caps as [| c caps]; [reflexivity |].
  unfold parse_srt, srt_file. fold (blocks_of (join (nl ++ nl) (map block_of (c :: caps)))).
  rewrite (parse_blocks_trimmed _ (map block_of (c :: caps))).
  - now rewrite parse_blocks_captions.
  - apply blocks_of_joined; [discriminate |].
    apply Forall_map. eapply Forall_impl; [| exact H]. apply sealed_block.
Qed.

(** X20: a file of well-formed captions, one blank line between two
    blocks, parses to one segment for each caption, in order: start and end
    are the two times of the timing line and the text is the text lines
    joined with single spaces and trimmed. *)
Theorem parse_srt_file :
  forall caps : list caption,
    Forall well_formed caps ->
    parse_srt (srt_file caps) = Ok (map segment_of caps).
Proof. exact parse_srt_captions. Qed.

Lemma parse_srt_file_witness :
  parse_srt
    ("1" ++ nl ++ "00:00:01,500 --> 00:00:02,000" ++ nl ++ "Hello" ++ nl ++ "there"
       ++ nl ++ nl
       ++ "2" ++ nl ++ "01:02:03,000 --> 01:02:04,000" ++ nl ++ "world")%string =
  Ok [timed_segment (srt_seconds (mk_srt_time 0 0 1 500))
        (srt_seconds (mk_srt_time 0 0 2 0)) "Hello there";
      timed_segment (srt_seconds (mk_srt_time 1 2 3 0))
        (srt_seconds (mk_srt_time 1 2 4 0)) "world"].
Proof.
  apply (parse_srt_file
           [mk_caption "1" (mk_srt_time 0 0 1 500) (mk_srt_time 0 0 2 0)
              ["Hello"; "there"];
            mk_caption "2" (mk_srt_time 1 2 3 0) (mk_srt_time 1 2 4 0) ["world"]]).
  repeat constructor; try discriminate;
    cbn [t_hours t_minutes t_seconds t_millis cap_start cap_end]; lia.
Defined.

Lemma timestamp_loop_captions (caps : list caption) :
  Forall well_formed caps -> Forall on_the_clock caps ->
  forall lines : list string,
    timestamp_loop (map segment_of caps) lines =
    Ok (lines ++ flat_map (fun c => [caption_line c; ""]) caps).
Proof.
  induction caps as [| c caps IH]; intros Hwf Hclock lines.
  - cbn. now rewrite app_nil_r.
  - inversion Hwf as [| ? ? (_ & _ & Hstart & _ & _ & Htext) Hwf']; subst.
    inversion Hclock as [| ? ? [Hm Hs] Hclock']; subst.
    cbn [map timestamp_loop segment_of timed_segment seg_text seg_start get].
    rewrite strip_idempotent, Htext.
    rewrite format_timestamp_srt_seconds by assumption. cbn [bind].
    rewrite IH by assumption. cbn [flat_map]. unfold caption_line.
    now rewrite <- !app_assoc.
Qed.

(** X21: from the file to the document. For a file of well-formed
    captions whose start times have minutes and seconds below 60, parsing
    and then rendering with timestamps gives the head of the document
    followed, for each caption in order, by the line
    ["[clock of the start time] text"] and an empty line. *)
Theorem transcript_of_file :
  forall (today url d : string) (info : video_info) (caps : list caption),
    Forall well_formed caps ->
    Forall on_the_clock caps ->
    format_duration (get (vi_duration info) Float.zero) = Ok d ->
    (segs <- parse_srt (srt_file caps) ;;
     generate_markdown today info (mk_transcription (Some segs)) url true) =
    Ok (join nl
          (document_head (get (vi_title info) "Untitled Video") url d today
             ++ flat_map (fun c => [caption_line c; ""]) caps)).
Proof.
  intros today url d info caps Hwf Hclock Hd.
  rewrite parse_srt_captions by exact Hwf. cbn [bind].
  unfold generate_markdown, markdown_lines. rewrite Hd.
  cbn [bind get tr_segments].
  rewrite timestamp_loop_captions by assumption. reflexivity.
Qed.

Lemma transcript_of_file_witness :
  let caps :=
    [mk_caption "1" (mk_srt_time 0 0 1 500) (mk_srt_time 0 0 2 0) ["Hello"; "there"];
     mk_caption "2" (mk_srt_time 1 2 3 999) (mk_srt_time 1 2 4 0) ["world"]] in
  (segs <- parse_srt (srt_file caps) ;;
   generate_markdown "2024-01-01" (mk_video_info (Some "Talk") None)
     (mk_transcription (Some segs)) "u" true) =
  Ok (join nl
        (document_head "Talk" "u" "0:00" "2024-01-01"
           ++ ["[0:01] Hello there"; ""; "[1:02:03] world"; ""])).
Proof.
  cbv zeta.
  apply (transcript_of_file "2024-01-01" "u" "0:00" (mk_video_info (Some "Talk") None)).
  - repeat constructor; try discriminate; cbn [t_hours t_minutes t_seconds t_millis
      cap_start cap_end]; lia.
  - repeat constructor; cbn [t_minutes t_seconds cap_start]; lia.
  - reflexivity.
Defined.

(** X22: blocks are recognised by the blank line [\n\n] only. A content
    without two consecutive line breaks, such as a file with CRLF line
    ends, gives at most one segment, whatever the number of captions in
    it. *)
Theorem parse_srt_needs_blank_line :
  forall (content : string) (segs : list segment),
    occurs (nl ++ nl) content = false ->
    parse_srt content = Ok segs ->
    (List.length segs <= 1)%nat.
Proof.
  intros content segs Hocc H. unfold parse_srt in H.
  rewrite split_no_occurrence in H
    by (unfold strip; apply occurs_lstrip, occurs_rstrip, Hocc).
  apply parse_blocks_length in H. cbn [List.length] in H. lia.
Qed.

Lemma parse_srt_needs_blank_line_witness :
  let content :=
    ("1" ++ crlf ++ "00:00:01,000 --> 00:00:02,000" ++ crlf ++ "one" ++ crlf ++ crlf
       ++ "2" ++ crlf ++ "00:00:03,000 --> 00:00:04,000" ++ crlf ++ "two" ++ crlf)%string in
  exists segs : list segment,
    parse_srt content = Ok segs /\ (List.length segs <= 1)%nat /\
    map (fun seg => get (seg_text seg) "") segs =
    [("one" ++ String (ascii_of_N 13) " " ++ String (ascii_of_N 13) " 2"
        ++ String (ascii_of_N 13) " 00:00:03,000 --> 00:00:04,000"
        ++ String (ascii_of_N 13) " two")%string].
Proof.
  cbv zeta.
  assert (H : exists segs,
             parse_srt
               ("1" ++ crlf ++ "00:00:01,000 --> 00:00:02,000" ++ crlf ++ "one" ++ crlf
                  ++ crlf ++ "2" ++ crlf ++ "00:00:03,000 --> 00:00:04,000" ++ crlf
                  ++ "two" ++ crlf)%string = Ok segs /\
             map (fun seg => get (seg_text seg) "") segs =
             [("one" ++ String (ascii_of_N 13) " " ++ String (ascii_of_N 13) " 2"
                 ++ String (ascii_of_N 13) " 00:00:03,000 --> 00:00:04,000"
                 ++ String (ascii_of_N 13) " two")%string])
    by (eexists; split; vm_compute; reflexivity).
  destruct H as (segs & H & Htext). exists segs.
  split; [exact H |]. split; [| exact Htext].
  refine (parse_srt_needs_blank_line _ segs _ H). vm_compute; reflexivity.
Defined.

(** ** Captions that follow one another *)

Lemma sub_self (x : float) :
  Float.is_finite x = true -> Float.sub x x = S754_zero false.
Proof.
  destruct x as [[] | | | s m e]; try discriminate; intros _; try reflexivity.
  unfold Float.sub, SFsub. now rewrite Z.sub_diag.
Qed.

Lemma srt_seconds_finite (t : srt_time) :
  valid_time t -> Float.is_finite (srt_seconds t) = true.
Proof.
  intros Ht. pose proof (srt_seconds_whole t Ht) as H.
  destruct (srt_seconds t); try reflexivity; discriminate.
Qed.

Lemma fold_back_to_back (caps : list caption) :
  Forall well_formed caps -> back_to_back caps ->
  forall st : para_state,
    match caps with
    | c :: _ => nonempty (current_para st) = true ->
                last_end st = srt_seconds (cap_start c)
    | [] => True
    end ->
    let st' := fold_left (para_step PARAGRAPH_GAP_SECONDS) (map segment_of caps) st in
    paragraphs st' = paragraphs st /\
    current_para st' = current_para st ++ map caption_text caps.
Proof.
  induction caps as [| c rest IH]; intros Hwf Hchain st Hst.
  - cbn. now rewrite app_nil_r.
  - inversion Hwf as [| ? ? (_ & _ & Hstart & Hend & _ & Htext) Hwf']; subst.
    cbn [map fold_left].
    assert (Hstep : para_step PARAGRAPH_GAP_SECONDS st (segment_of c) =
                    {| paragraphs := paragraphs st;
                       current_para := current_para st ++ [caption_text c];
                       last_end := srt_seconds (cap_end c) |}).
    { unfold para_step, segment_of.
      cbn [timed_segment seg_start seg_end seg_text get].
      rewrite strip_idempotent, Htext. cbn [negb].
      destruct (nonempty (current_para st)) eqn:Ecur; [| reflexivity].
      rewrite (Hst eq_refl), sub_self by now apply srt_seconds_finite.
      reflexivity. }
    rewrite Hstep.
    assert (Hrest : back_to_back rest) by (destruct rest; [exact I | apply Hchain]).
    specialize (IH Hwf' Hrest
                  {| paragraphs := paragraphs st;
                     current_para := current_para st ++ [caption_text c];
                     last_end := srt_seconds (cap_end c) |}).
    cbv zeta in IH. cbn [paragraphs current_para last_end] in IH.
    destruct IH as [IH1 IH2].
    + destruct rest as [| d rest']; [exact I |]. intros _.
      destruct Hchain as [E _]. now rewrite E.
    + cbv zeta. split; [exact IH1 |]. rewrite IH2, <- app_assoc. reflexivity.
Qed.

(** X23: from the file to the document, without timestamps. When each
    caption of a well-formed file starts at the time at which the one
    before it ends, the transcript is a single paragraph: the texts of all
    the captions joined with single spaces. *)
Theorem back_to_back_one_paragraph :
  forall (today url d : string) (info : video_info) (caps : list caption),
    caps <> [] ->
    Forall well_formed caps ->
    back_to_back caps ->
    format_duration (get (vi_duration info) Float.zero) = Ok d ->
    (segs <- parse_srt (srt_file caps) ;;
     generate_markdown today info (mk_transcription (Some segs)) url false) =
    Ok (join nl
          (document_head (get (vi_title info) "Untitled Video") url d today
             ++ [join " " (map caption_text caps); ""])).
Proof.
  intros today url d info caps Hne Hwf Hchain Hd.
  rewrite parse_srt_captions by exact Hwf. cbn [bind].
  unfold generate_markdown, markdown_lines. rewrite Hd.
  cbn [bind get tr_segments]. rewrite paragraph_loop_spec.
  rewrite group_paragraphs_flush.
  destruct (fold_back_to_back caps Hwf Hchain
              {| paragraphs := []; current_para := []; last_end := Float.zero |})
    as [H1 H2].
  { destruct caps; [exact I | discriminate]. }
  cbv zeta in H1, H2. cbn [paragraphs current_para app] in H1, H2.
  unfold flush. rewrite H1, H2.
  destruct caps as [| c rest]; [congruence |]. reflexivity.
Qed.

Lemma back_to_back_one_paragraph_witness :
  let caps :=
    [mk_caption "1" (mk_srt_time 0 0 1 0) (mk_srt_time 0 0 2 500) ["Hello"; "there"];
     mk_caption "2" (mk_srt_time 0 0 2 500) (mk_srt_time 0 0 9 0) ["world"]] in
  (segs <- parse_srt (srt_file caps) ;;
   generate_markdown "2024-01-01" (mk_video_info (Some "Talk") None)
     (mk_transcription (Some segs)) "u" false) =
  Ok (join nl
        (document_head "Talk" "u" "0:00" "2024-01-01" ++ ["Hello there world"; ""])).
Proof.
  cbv zeta.
  apply (back_to_back_one_paragraph "2024-01-01" "u" "0:00"
           (mk_video_info (Some "Talk") None)).
  - discriminate.
  - repeat constructor; try discriminate;
      cbn [t_hours t_minutes t_seconds t_millis cap_start cap_end]; lia.
  - cbn. tauto.
  - reflexivity.
Defined.

(** ** No overflow on short lines *)

Lemma shr_record_of_loc_m (m : Z) (l : location) : shr_m (shr_record_of_loc m l) = m.
Proof. destruct l as [| []]; reflexivity. Qed.

Lemma shr_fexp_cases (m e : Z) (l : location) :
  0 <= m ->
  forall mrs e1,
    shr_fexp Float.prec Float.emax m e l = (mrs, e1) ->
    (e1 = e /\ shr_m mrs = m) \/
    (e < e1 /\ e1 = fexp Float.prec Float.emax (Zdigits2 m + e) /\
     shr_m mrs = m / 2 ^ (e1 - e)).
Proof.
  intros Hm mrs e1. unfold shr_fexp, shr.
  destruct (fexp Float.prec Float.emax (Zdigits2 m + e) - e) as [| k | k] eqn:E;
    intros H; inversion H; subst.
  - left. split; [reflexivity | apply shr_record_of_loc_m].
  - right. split; [lia |]. split; [lia |].
    rewrite iter_shr_1 by (rewrite shr_record_of_loc_m; exact Hm).
    rewrite shr_record_of_loc_m. f_equal. f_equal. lia.
  - left. split; [reflexivity | apply shr_record_of_loc_m].
Qed.

Lemma Zdigits2_bound (m j : Z) : 0 <= m < 2 ^ j -> 0 <= j -> Zdigits2 m <= j.
Proof.
  intros Hm Hj. destruct m as [| p | p]; [exact Hj | | lia].
  cbn [Zdigits2]. apply digits2_bound; [| lia].
  destruct (Z.eq_dec j 0) as [-> | ]; [| lia]. change (2 ^ 0) with 1 in Hm. lia.
Qed.

(** Rounding cannot overflow below 2^1023. *)
Lemma round_aux_finite (s : bool) (m e : Z) (l : location) :
  0 <= m < 2 ^ (1023 - e) -> e <= 971 ->
  Float.is_infinite (binary_round_aux Float.prec Float.emax s m e l) = false.
Proof.
  intros Hm He. unfold binary_round_aux.
  pose proof (shr_fexp_cases m e l (proj1 Hm)) as H1.
  destruct (shr_fexp Float.prec Float.emax m e l) as [mrs1 e1].
  specialize (H1 mrs1 e1 eq_refl).
  pose proof (round_nearest_even_bounds (shr_m mrs1) (loc_of_shr_record mrs1)) as Hr.
  set (m1 := round_nearest_even (shr_m mrs1) (loc_of_shr_record mrs1)) in *.
  assert (Hd : Zdigits2 m <= 1023 - e) by (apply Zdigits2_bound; lia).
  assert (H1' : e1 <= 971 /\ 0 <= shr_m mrs1 < 2 ^ (1023 - e1)).
  { destruct H1 as [[-> ->] | (Hlt & E1 & ->)]; [split; [lia | exact Hm] |].
    assert (He1 : e1 <= 970)
      by (rewrite E1; unfold fexp, emin, Float.prec, Float.emax; lia).
    split; [lia |]. split.
    - apply Z.div_pos; [lia | apply Z.pow_pos_nonneg; lia].
    - apply Z.div_lt_upper_bound; [apply Z.pow_pos_nonneg; lia |].
      rewrite <- Z.pow_add_r by lia.
      replace (e1 - e + (1023 - e1)) with (1023 - e) by lia. lia. }
  destruct H1' as [He1 Hm1].
  assert (Hm1' : 0 <= m1 < 2 ^ (1024 - e1)).
  { replace (1024 - e1) with (Z.succ (1023 - e1)) by lia.
    rewrite Z.pow_succ_r by lia.
    assert (0 < 2 ^ (1023 - e1)) by (apply Z.pow_pos_nonneg; lia). lia. }
  pose proof (shr_fexp_cases m1 e1 loc_Exact (proj1 Hm1')) as H2.
  destruct (shr_fexp Float.prec Float.emax m1 e1 loc_Exact) as [mrs2 e2].
  specialize (H2 mrs2 e2 eq_refl).
  assert (He2 : e2 <= 971).
  { destruct H2 as [[-> _] | (_ & -> & _)]; [exact He1 |].
    assert (Zdigits2 m1 <= 1024 - e1) by (apply Zdigits2_bound; lia).
    unfold fexp, emin, Float.prec, Float.emax. lia. }
  destruct (shr_m mrs2); [reflexivity | | reflexivity].
  replace (e2 <=? Float.emax - Float.prec) with true; [reflexivity |].
  symmetry. apply Z.leb_le. unfold Float.emax, Float.prec. lia.
Qed.

Lemma round_finite (s : bool) (p : positive) :
  Zpos p < 2 ^ 1023 ->
  Float.is_infinite (binary_round Float.prec Float.emax s p 0) = false.
Proof.
  intros Hp. unfold binary_round, shl_align.
  assert (Hf : -1074 <= fexp Float.prec Float.emax (Zpos (digits2_pos p) + 0))
    by (unfold fexp, emin, Float.prec, Float.emax; lia).
  destruct (fexp Float.prec Float.emax (Zpos (digits2_pos p) + 0) - 0)
    as [| d | d] eqn:E.
  - apply round_aux_finite; [| lia]. split; [lia |].
    apply Z.lt_le_trans with (1 := Hp). apply Z.pow_le_mono_r; lia.
  - apply round_aux_finite; [| lia]. split; [lia |].
    apply Z.lt_le_trans with (1 := Hp). apply Z.pow_le_mono_r; lia.
  - apply round_aux_finite; [| lia]. rewrite iter_xO. split; [lia |].
    replace (fexp Float.prec Float.emax (Zpos (digits2_pos p) + 0)) with (Zneg d) by lia.
    replace (1023 - Zneg d) with (1023 + Zpos d) by lia.
    rewrite Z.pow_add_r by lia.
    assert (0 < 2 ^ Zpos d) by (apply Z.pow_pos_nonneg; lia).
    nia.
Qed.

Lemma nearest_finite (n : Z) :
  Z.abs n < 2 ^ 1023 -> Float.is_infinite (Float.nearest n) = false.
Proof.
  intros Hn. unfold Float.nearest, binary_normalize.
  destruct n as [| p | p]; [reflexivity | |]; apply round_finite; lia.
Qed.

Lemma div_thousand_finite (a : Z) :
  Z.abs a < 2 ^ 1023 ->
  Float.is_infinite (SFdiv Float.prec Float.emax (Float.exact a) (Float.exact 1000)) = false.
Proof.
  intros Ha.
  assert (H : forall (s : bool) (p : positive),
             Zpos p < 2 ^ 1023 ->
             Float.is_infinite
               (SFdiv Float.prec Float.emax (S754_finite s p 0) (S754_finite false 1000 0))
             = false).
  { intros s p Hp. unfold SFdiv, SFdiv_core_binary.
    set (e' := Z.min (fexp Float.prec Float.emax
                        (Zdigits2 (Zpos p) + 0 - (Zdigits2 1000 + 0))) (0 - 0)).
    assert (He' : -1074 <= e' <= 0)
      by (unfold e', fexp, emin, Float.prec, Float.emax; lia).
    set (m' := match 0 - 0 - e' with
               | 0 => Zpos p
               | Zpos _ => Z.shiftl (Zpos p) (0 - 0 - e')
               | Zneg _ => 0
               end).
    assert (Hm' : 0 <= m' < 2 ^ (1023 - e')).
    { assert (Hs : m' = Zpos p * 2 ^ (- e')).
      { unfold m'. destruct (0 - 0 - e') as [| k | k] eqn:E; [| | lia].
        - replace (- e') with 0 by lia. lia.
        - rewrite Z.shiftl_mul_pow2 by lia. f_equal. f_equal. lia. }
      rewrite Hs.
      assert (0 < 2 ^ (- e')) by (apply Z.pow_pos_nonneg; lia).
      replace (1023 - e') with (1023 + - e') by lia.
      rewrite Z.pow_add_r by lia.
      nia. }
    pose proof (Z.div_pos m' 1000 (proj1 Hm') ltac:(lia)) as Hq0.
    assert (Hq1 : m' / 1000 <= m') by (apply Z.div_le_upper_bound; lia).
    unfold Z.div in Hq0, Hq1.
    destruct (Z.div_eucl m' 1000) as [q r].
    apply round_aux_finite; lia. }
  destruct a as [| p | p]; [reflexivity | |]; apply H; lia.
Qed.

Lemma digit_val_bound (c : ascii) :
  Int.is_digit c = true -> 0 <= Int.digit_val c <= 9.
Proof.
  unfold Int.is_digit, Int.digit_val. intros H.
  apply andb_prop in H as [H1 H2]. apply N.leb_le in H1, H2. lia.
Qed.

Lemma scan_digits_bound (s : string) :
  forall (prev : bool) (acc : Z) (n : nat) (v : Z) (n' : nat) (rest : string),
    Int.scan_digits prev acc n s = Some (v, n', rest) ->
    0 <= acc < 10 ^ Z.of_nat n ->
    0 <= v < 10 ^ Z.of_nat n' /\ (n' <= n + String.length s)%nat.
Proof.
  induction s as [| c s IH]; intros prev acc n v n' rest H Hacc.
  - cbn [Int.scan_digits] in H. destruct prev; inversion H; subst.
    split; [exact Hacc | cbn; lia].
  - cbn [Int.scan_digits] in H. destruct (Int.is_digit c) eqn:Ed.
    + apply IH in H.
      * cbn [String.length]. split; [tauto | lia].
      * pose proof (digit_val_bound c Ed) as Hd.
        rewrite Nat2Z.inj_succ, Z.pow_succ_r by lia. lia.
    + destruct (c =? "_")%char.
      * destruct prev; [discriminate |]. apply IH in H; [| exact Hacc].
        cbn [String.length]. split; [tauto | lia].
      * destruct prev; inversion H; subst. split; [exact Hacc | lia].
Qed.

Lemma length_skip_space (s : string) :
  (String.length (Int.skip_space s) <= String.length s)%nat.
Proof.
  induction s as [| c s IH]; [reflexivity |]. cbn [Int.skip_space].
  destruct (Int.is_space c); cbn [String.length]; lia.
Qed.

Lemma of_string_bound (s : string) (x : Z) :
  Int.of_string s = Ok x -> Z.abs x < 10 ^ Z.of_nat (String.length s).
Proof.
  unfold Int.of_string. pose proof (length_skip_space s) as Hlen.
  destruct (Int.skip_space s) as [| c r] eqn:Es; cbn [Int.sign_and_rest].
  - cbn. discriminate.
  - assert (Hscan : forall (s2 : string) (neg : bool),
               (String.length s2 <= String.length s)%nat ->
               (if Int.starts_with_underscore s2 then Raise ValueError
                else
                  match Int.scan_digits false 0 0 s2 with
                  | Some (v, n, rest) =>
                      if (n =? 0)%nat then Raise ValueError
                      else if truthy (Int.skip_space rest) then Raise ValueError
                      else if (Int.max_str_digits <? n)%nat then Raise ValueError
                      else Ok (if neg then - v else v)
                  | None => Raise ValueError
                  end) = Ok x ->
               Z.abs x < 10 ^ Z.of_nat (String.length s)).
    { intros s2 neg Hs2 H.
      destruct (Int.starts_with_underscore s2); [discriminate |].
      destruct (Int.scan_digits false 0 0 s2) as [[[v n] rest] |] eqn:E; [| discriminate].
      apply scan_digits_bound in E; [| cbn; lia]. destruct E as [Hv Hn].
      destruct (n =? 0)%nat; [discriminate |].
      destruct (truthy (Int.skip_space rest)); [discriminate |].
      destruct (Int.max_str_digits <? n)%nat; [discriminate |].
      inversion H; subst.
      assert (10 ^ Z.of_nat n <= 10 ^ Z.of_nat (String.length s))
        by (apply Z.pow_le_mono_r; lia).
      destruct neg; lia. }
    cbn [String.length] in Hlen.
    destruct (c =? "+")%char; [intros H; refine (Hscan r false _ H); lia |].
    destruct (c =? "-")%char; [intros H; refine (Hscan r true _ H); lia |].
    intros H. refine (Hscan (String c r) false _ H). cbn [String.length]. lia.
Qed.

Lemma substring_refl (s : string) : substring s s.
Proof. exists "", "". cbn. now rewrite append_nil_r. Qed.

Lemma substring_trans (a b c : string) :
  substring a b -> substring b c -> substring a c.
Proof.
  intros (p1 & q1 & ->) (p2 & q2 & ->).
  exists (p2 ++ p1)%string, (q1 ++ q2)%string. now rewrite !append_assoc.
Qed.

Lemma substring_cons (c : ascii) (p s : string) :
  substring p s -> substring p (String c s).
Proof. intros (pre & post & ->). now exists (String c pre), post. Qed.

Lemma substring_length (p s : string) :
  substring p s -> (String.length p <= String.length s)%nat.
Proof. intros (pre & post & ->). rewrite !length_app. lia. Qed.

Lemma split_from_substring (sep : string) (s : string) :
  forall skip : nat,
    Forall (fun p => substring p s) (split_from sep skip s) /\
    (skip = 0%nat ->
     exists h t post, split_from sep 0 s = h :: t /\ s = (h ++ post)%string).
Proof.
  induction s as [| c s IH]; intros skip.
  - split; [repeat constructor; apply substring_refl |].
    intros _. now exists "", [], "".
  - assert (Hlift : forall k, Forall (fun p => substring p (String c s))
                                (split_from sep k s)).
    { intros k. destruct (IH k) as [H _].
      eapply Forall_impl; [| exact H]. intros p. apply substring_cons. }
    cbn [split_from]. destruct skip as [| k].
    + destruct (prefix sep (String c s)).
      * split; [constructor; [now exists "", (String c s) | apply Hlift] |].
        intros _. now exists "", (split_from sep (Nat.pred (length sep)) s), (String c s).
      * destruct (IH 0%nat) as [_ Hhead].
        destruct (Hhead eq_refl) as (h & t & post & E & Es).
        specialize (Hlift 0%nat). rewrite E in *. cbn [cons_head].
        inversion Hlift; subst. split.
        -- constructor; [| assumption]. now exists "", post.
        -- intros _. now exists (String c h), t, post.
    + split; [apply Hlift | discriminate].
Qed.

Lemma split_substring (sep s p : string) : In p (split sep s) -> substring p s.
Proof.
  intros H. destruct (split_from_substring sep s 0) as [Hall _].
  rewrite Forall_forall in Hall. now apply Hall.
Qed.

Lemma substring_lstrip (s : string) : substring (lstrip s) s.
Proof.
  induction s as [| c s IH]; [apply substring_refl |]. cbn [lstrip].
  destruct (is_space c); [now apply substring_cons | apply substring_refl].
Qed.

Lemma substring_rstrip (s : string) : substring (rstrip s) s.
Proof. destruct (rstrip_is_prefix s) as [t E]. now exists "", t. Qed.

Lemma substring_strip (s : string) : substring (strip s) s.
Proof.
  unfold strip. eapply substring_trans; [apply substring_lstrip | apply substring_rstrip].
Qed.

Lemma split_nl_lines (s : string) : Forall (fun l => is_line l = true) (split nl s).
Proof.
  unfold split. induction s as [| c s IH]; [repeat constructor |].
  cbn [split_from]. rewrite prefix_nl.
  destruct (c =? newline)%char eqn:Ec.
  - constructor; [reflexivity | exact IH].
  - destruct (split_from nl 0 s) as [| h t].
    { cbn [cons_head]. repeat constructor. unfold is_line. cbn [all_chars]. now rewrite Ec. }
    inversion IH; subst. cbn [cons_head]. constructor; [| assumption].
    unfold is_line in *. cbn [all_chars]. now rewrite Ec.
Qed.

Lemma lines_within_suffix (n : nat) (pre s : string) :
  lines_within n (pre ++ s) -> lines_within n s.
Proof.
  unfold lines_within, split. induction pre as [| c pre IH]; [auto |].
  cbn [append split_from]. rewrite prefix_nl. intros H. apply IH.
  destruct (c =? newline)%char; [now inversion H |].
  destruct (split_from nl 0 (pre ++ s)) as [| h t]; [constructor |].
  cbn [cons_head] in H. inversion H; subst. constructor; [| assumption].
  cbn [String.length] in *. lia.
Qed.

Lemma first_line_length (f post : string) :
  is_line f = true ->
  exists h t, split nl (f ++ post) = h :: t /\ (String.length f <= String.length h)%nat.
Proof.
  unfold is_line, split. induction f as [| c f IH]; intros Hf.
  - destruct (split_from nl 0 ("" ++ post)) as [| h t] eqn:E.
    + now apply split_from_nonempty in E.
    + exists h, t. split; [reflexivity | cbn; lia].
  - cbn [all_chars] in Hf. apply andb_prop in Hf as [Hc Hf]. apply negb_true_iff in Hc.
    destruct (IH Hf) as (h & t & E & Hlen).
    cbn [append split_from]. rewrite prefix_nl, Hc, E. cbn [cons_head].
    exists (String c h), t. split; [reflexivity | cbn [String.length]; lia].
Qed.

(** A piece without line break of a text is no longer than its lines. *)
Lemma line_piece_length (n : nat) (f s : string) :
  is_line f = true -> substring f s -> lines_within n s ->
  (String.length f <= n)%nat.
Proof.
  intros Hf (pre & post & ->) H. apply lines_within_suffix in H.
  destruct (first_line_length f post Hf) as (h & t & E & Hlen).
  unfold lines_within in H. rewrite E in H. inversion H; subst. lia.
Qed.

Lemma parse_srt_timestamp_short (timestamp : string) :
  (String.length timestamp <= 300)%nat ->
  parse_srt_timestamp timestamp <> Raise OverflowError.
Proof.
  intros Hlen. unfold parse_srt_timestamp.
  assert (Hfield : forall (f : string) (v : Z),
             (String.length f <= 300)%nat -> Int.of_string f = Ok v ->
             Z.abs v < 10 ^ 300).
  { intros f v Hf Hv. apply of_string_bound in Hv.
    apply Z.lt_le_trans with (1 := Hv). apply Z.pow_le_mono_r; lia. }
  destruct (split "," timestamp) as [| time_part [| ms_part [| ? ?]]] eqn:Es;
    cbn [unpack2 bind]; try discriminate.
  assert (Htime : (String.length time_part <= 300)%nat).
  { apply Nat.le_trans with (2 := Hlen), substring_length, (split_substring ",").
    rewrite Es. now left. }
  assert (Hms : (String.length ms_part <= 300)%nat).
  { apply Nat.le_trans with (2 := Hlen), substring_length, (split_substring ",").
    rewrite Es. right. now left. }
  destruct (split ":" time_part) as [| h [| m [| sec [| ? ?]]]] eqn:Et;
    cbn [unpack3 bind]; try discriminate.
  assert (Hpiece : forall f, In f [h; m; sec] -> (String.length f <= 300)%nat).
  { intros f Hf. apply Nat.le_trans with (2 := Htime), substring_length,
      (split_substring ":"). now rewrite Et. }
  destruct (Int.of_string h) as [hv | e] eqn:Eh; cbn [bind];
    [| apply of_string_raises in Eh; subst; discriminate].
  destruct (Int.of_string m) as [mv | e] eqn:Em; cbn [bind];
    [| apply of_string_raises in Em; subst; discriminate].
  destruct (Int.of_string sec) as [sv | e] eqn:Esec; cbn [bind];
    [| apply of_string_raises in Esec; subst; discriminate].
  destruct (Int.of_string ms_part) as [msv | e] eqn:Emsv; cbn [bind];
    [| apply of_string_raises in Emsv; subst; discriminate].
  apply Hfield in Eh; [| apply Hpiece; cbn; tauto].
  apply Hfield in Em; [| apply Hpiece; cbn; tauto].
  apply Hfield in Esec; [| apply Hpiece; cbn; tauto].
  apply Hfield in Emsv; [| exact Hms].
  assert (Hbig : 3661 * 10 ^ 300 < 2 ^ 1023) by (apply Z.ltb_lt; vm_compute; reflexivity).
  assert (Hpos : 0 < 10 ^ 300) by (apply Z.pow_pos_nonneg; lia).
  remember (10 ^ 300) as B. remember (2 ^ 1023) as T.
  unfold Float.truediv. cbn [Z.eqb].
  rewrite div_thousand_finite by lia. cbn [bind].
  unfold Float.int_add, Float.of_int.
  rewrite nearest_finite by lia. cbn [bind]. discriminate.
Qed.

Lemma try_block_short_line (lines : list string) :
  (forall line, nth_error lines 1 = Some line -> (String.length line <= 300)%nat) ->
  try_block lines <> Raise OverflowError.
Proof.
  intros Hline. unfold try_block, index.
  destruct (nth_error lines 1) as [timestamp_line |]; cbn [bind]; [| discriminate].
  specialize (Hline timestamp_line eq_refl).
  destruct (split " --> " timestamp_line) as [| start_ts [| end_ts [| ? ?]]] eqn:Es;
    cbn [unpack2 bind]; try discriminate.
  assert (Hside : forall f, In f [start_ts; end_ts] ->
                            (String.length (strip f) <= 300)%nat).
  { intros f Hf. apply Nat.le_trans with (2 := Hline), substring_length.
    eapply substring_trans; [apply substring_strip |].
    apply (split_substring " --> "). now rewrite Es. }
  pose proof (parse_srt_timestamp_short (strip start_ts)
                ltac:(apply Hside; cbn; tauto)) as H1.
  pose proof (parse_srt_timestamp_short (strip end_ts)
                ltac:(apply Hside; cbn; tauto)) as H2.
  destruct (parse_srt_timestamp (strip start_ts)) as [start | e]; cbn [bind];
    [| congruence].
  destruct (parse_srt_timestamp (strip end_ts)) as [end_ | e]; cbn [bind];
    [discriminate | congruence].
Qed.

Lemma parse_blocks_total (blocks : list string) :
  Forall (fun block =>
            forall line, nth_error (split nl (strip block)) 1 = Some line ->
                         (String.length line <= 300)%nat) blocks ->
  forall acc, exists segs, parse_blocks blocks acc = Ok segs.
Proof.
  induction 1 as [| block rest Hblock _ IH]; intros acc; [now exists acc |].
  cbn [parse_blocks].
  destruct (3 <=? List.length (split nl (strip block)))%nat; [| apply IH].
  pose proof (try_block_short_line _ Hblock) as Hshort.
  destruct (try_block (split nl (strip block))) as [[seg |] | e] eqn:E; try apply IH.
  apply try_block_raises in E.
  destruct e; try apply IH; [congruence |].
  destruct E as [E | [E | E]]; discriminate.
Qed.

(** X24: [parse_srt] returns, and raises nothing, on every content none
    of whose lines is longer than 300 characters: the numbers of a timing
    line are then below 10^300, too small for the conversion to [float] or
    the division by 1000 to overflow. *)
Theorem parse_srt_short_lines :
  forall content : string,
    lines_within 300 content ->
    exists segs : list segment, parse_srt content = Ok segs.
Proof.
  intros content H. unfold parse_srt. apply parse_blocks_total.
  apply Forall_forall. intros block Hblock line Hline.
  apply (line_piece_length 300 line content); [| | exact H].
  - pose proof (split_nl_lines (strip block)) as Hl.
    rewrite Forall_forall in Hl. apply Hl. eapply nth_error_In, Hline.
  - eapply substring_trans;
      [apply (split_substring nl); eapply nth_error_In, Hline |].
    eapply substring_trans; [apply substring_strip |].
    eapply substring_trans; [apply (split_substring (nl ++ nl)), Hblock |].
    apply substring_strip.
Qed.

Lemma parse_srt_short_lines_witness :
  exists segs : list segment,
    parse_srt ("1" ++ nl ++ "00:00:01,000 --> 00:00:02,000" ++ nl ++ "hi")%string
    = Ok segs.
Proof.
  apply parse_srt_short_lines. unfold lines_within. vm_compute.
  repeat (apply Forall_cons; [lia |]). apply Forall_nil.
Defined.
